(** * WritePNG: the pixel transcoding pipeline of the OFX PNG writer

    A shallow embedding of [PNG/WritePNG.cpp]: the endian normaliser
    [swap_endian], the ditherer [add_dither] with its lookup3 mixer
    [bjmix], the header composer [write_info] and the orchestrator
    [WritePNGPlugin::encode], followed by the properties proved of them.
    The helpers of the orchestrator ([create_write_struct], [finish_image],
    [destroy_write_struct], [WritePNGPlugin::openFile]) and
    [WritePNGPlugin::onOutputFileChanged] are embedded as well.

    Conventions of the embedding.
    - C++ [int] values are integers of [Z]; signed overflow is undefined
      behaviour in C++ and is not modelled.  [unsigned int] values are
      integers of [Z] kept below [2^32] by an explicit [wrap32].
    - [float] is IEEE-754 binary32, taken from the standard library's
      executable specification [SpecFloat] at precision 24 and [emax] 128,
      every operation rounding to nearest even.
    - A buffer is a list; a pointer into it is an offset.  An access the
      C++ standard leaves undefined (out of bounds, or a [float] read at an
      address that is not [float]-aligned, or a negative element count) makes
      the embedded function return [None].
    - libpng, zlib and the file system are outside the program: every call
      to them is recorded as an [event], and their possible failures are
      read from a [World] of oracles. *)

From Stdlib Require Import ZArith Lia Bool String QArith Qround Qpower Lqa.
From Stdlib Require Import Qabs.
From Stdlib Require Import Floats.SpecFloat.
From stdpp Require Import base option list.

Local Open Scope Z_scope.

(** ** Machine integers *)

Module UInt32.

Definition modulus : Z := 2 ^ 32.

Definition wrap32 (z : Z) : Z := z mod modulus.

Definition add (x y : Z) : Z := wrap32 (x + y).
Definition sub (x y : Z) : Z := wrap32 (x - y).

(** [inline unsigned int rotl32 (unsigned int x, int k)]:
    [(x<<k) | (x>>(32-k))]. *)
Definition rotl32 (x k : Z) : Z :=
  Z.lor (wrap32 (Z.shiftl x k)) (Z.shiftr x (32 - k)).

End UInt32.

(** ** Bob Jenkins' lookup3 mixer *)

Record mix_state : Type := MixState { ba : Z; bb : Z; bc : Z }.

(** [inline void bjmix (unsigned int &a, unsigned int &b, unsigned int &c)]:
    six subtract / xor-rotate / add triples, each line of the source one
    [let] triple here. *)
Definition bjmix (s : mix_state) : mix_state :=
  let '(MixState a b c) := s in
  let a := UInt32.sub a c in let a := Z.lxor a (UInt32.rotl32 c 4) in
  let c := UInt32.add c b in
  let b := UInt32.sub b a in let b := Z.lxor b (UInt32.rotl32 a 6) in
  let a := UInt32.add a c in
  let c := UInt32.sub c b in let c := Z.lxor c (UInt32.rotl32 b 8) in
  let b := UInt32.add b a in
  let a := UInt32.sub a c in let a := Z.lxor a (UInt32.rotl32 c 16) in
  let c := UInt32.add c b in
  let b := UInt32.sub b a in let b := Z.lxor b (UInt32.rotl32 a 19) in
  let a := UInt32.add a c in
  let c := UInt32.sub c b in let c := Z.lxor c (UInt32.rotl32 b 4) in
  let b := UInt32.add b a in
  MixState a b c.

(** The [++bc] that closes every iteration of the channel loop. *)
Definition next_sample (s : mix_state) : mix_state :=
  MixState (ba s) (bb s) (UInt32.add (bc s) 1).

(** ** binary32 arithmetic *)

Module F32.

Definition prec : Z := 24.
Definition emax : Z := 128.

Definition float : Type := spec_float.

Definition add : float -> float -> float := SFadd prec emax.
Definition sub : float -> float -> float := SFsub prec emax.
Definition mul : float -> float -> float := SFmul prec emax.
Definition div : float -> float -> float := SFdiv prec emax.
Definition leb : float -> float -> bool := SFleb.
Definition ltb : float -> float -> bool := SFltb.
Definition valid (f : float) : bool := valid_binary prec emax f.

(** Conversion of an integer to [float]. *)
Definition of_Z (z : Z) : float := binary_normalize prec emax z 0 false.

Definition zero : float := S754_zero false.
Definition one : float := Eval vm_compute in of_Z 1.
Definition half : float := Eval vm_compute in div (of_Z 1) (of_Z 2).

(** The rational a finite [float] denotes; the other values go to 0 and
    are told apart by the functions that use [to_Q]. *)
Definition to_Q (f : float) : Q :=
  match f with
  | S754_finite s m e =>
      let v := (inject_Z (Z.pos m) * Qpower 2 e)%Q in
      if s then Qopp v else v
  | _ => 0%Q
  end.

End F32.

Abbreviation float := F32.float.

(** ** The source buffer *)

(** [pixelData] is an array of [float]; [add_dither] walks it through
    [char*] pointers moved by byte strides and casts them back to
    [float*].  A byte offset names the element [off / 4] when it is a
    multiple of [sizeof(float)] and nothing otherwise. *)
Definition sizeof_float : Z := 4.

Definition float_index (off : Z) : option nat :=
  if (0 <=? off) && (off mod sizeof_float =? 0)
  then Some (Z.to_nat (off / sizeof_float)) else None.

Definition load_float (data : list float) (off : Z) : option float :=
  i ← float_index off; data !! i.

Definition store_float (data : list float) (off : Z) (v : float)
  : option (list float) :=
  i ← float_index off; _ ← data !! i; Some (<[i := v]> data).

(** ** The ditherer *)

(** [float(std::numeric_limits<uint32_t>::max())]. *)
Definition uint32_max_f : float := Eval vm_compute in F32.of_Z (2 ^ 32 - 1).

(** [float dither = bc / float(std::numeric_limits<uint32_t>::max())]. *)
Definition dither_of (w : Z) : float := F32.div (F32.of_Z w) uint32_max_f.

(** [ditheramplitude * (dither - 0.5f)]. *)
Definition perturbation (amplitude : float) (w : Z) : float :=
  F32.mul amplitude (F32.sub (dither_of w) F32.half).

(** The channel loop
    [for (int c = 0; c < nchannels; ++c, ++val, ++bc)] with [n] iterations
    left, at channel [c], [val] being the byte offset of the sample. *)
Fixpoint dither_channels (n : nat) (c alpha_channel : Z) (amplitude : float)
    (val : Z) (s : mix_state) (data : list float)
  : option (mix_state * list float) :=
  match n with
  | O => Some (s, data)
  | S n' =>
      let s := bjmix s in
      if c =? alpha_channel then
        dither_channels n' (c + 1) alpha_channel amplitude
          (val + sizeof_float) (next_sample s) data
      else
        v ← load_float data val;
        data ← store_float data val (F32.add v (perturbation amplitude (bc s)));
        dither_channels n' (c + 1) alpha_channel amplitude
          (val + sizeof_float) (next_sample s) data
  end.

(** The pixel loop [for (int x = 0; x < width; ++x, pixel += xstride)]. *)
Fixpoint dither_pixels (n : nat) (nchannels alpha_channel : Z)
    (amplitude : float) (xstride pixel : Z) (s : mix_state)
    (data : list float) : option (mix_state * list float) :=
  match n with
  | O => Some (s, data)
  | S n' =>
      '(s, data) ← dither_channels (Z.to_nat nchannels) 0 alpha_channel
                     amplitude pixel s data;
      dither_pixels n' nchannels alpha_channel amplitude xstride
        (pixel + xstride) s data
  end.

(** The row loop [for (int y = 0; y < height; ++y, scanline += ystride)].
    [scanline] advances with the rows, but the row body initialises
    [pixel] from [data] (offset 0), whatever the row. *)
Fixpoint dither_rows (n : nat) (y scanline : Z) (nchannels width : Z)
    (xstride ystride : Z) (amplitude : float) (alpha_channel ditherseed : Z)
    (data : list float) : option (list float) :=
  match n with
  | O => Some data
  | S n' =>
      let pixel := 0 in
      let s := MixState (UInt32.wrap32 y) (UInt32.wrap32 ditherseed) 0 in
      '(_, data) ← dither_pixels (Z.to_nat width) nchannels alpha_channel
                     amplitude xstride pixel s data;
      dither_rows n' (y + 1) (scanline + ystride) nchannels width
        xstride ystride amplitude alpha_channel ditherseed data
  end.

(** [static void add_dither (int nchannels, int width, int height,
    float *data, std::size_t xstride, std::size_t ystride,
    float ditheramplitude, int alpha_channel, unsigned int ditherseed)]. *)
Definition add_dither (nchannels width height : Z) (data : list float)
    (xstride ystride : Z) (ditheramplitude : float)
    (alpha_channel ditherseed : Z) : option (list float) :=
  dither_rows (Z.to_nat height) 0 0 nchannels width xstride ystride
    ditheramplitude alpha_channel ditherseed data.

(** ** The quantiser *)

(** Modelled from the spec: the contract of the quantiser on the real
    value [v] of a sample: values below 0 map to 0, values at or above 1
    map to [numvals - 1], values in between are rounded (half up, as in the
    spec's example 0.5 to 128) rather than truncated. *)
Definition quantise (numvals : Z) (v : Q) : Z :=
  if negb (Qle_bool 0 v) then 0
  else if Qle_bool 1 v then numvals - 1
  else Qfloor (v * inject_Z (numvals - 1) + (1 # 2)).

(** Modelled from the spec: [floatToInt<numvals>] is declared in a header
    of the support library that is not part of this source tree.  The spec
    has it total with results in [[0, numvals - 1]] and gives the contract
    [quantise]; the infinities fall under "below 0" and "at or above 1".
    The spec names no result for a NaN beyond the range; the model sends it
    to 0. *)
Definition floatToInt (numvals : Z) (f : float) : Z :=
  match f with
  | S754_nan => 0
  | S754_infinity s => if s then 0 else numvals - 1
  | _ => quantise numvals (F32.to_Q f)
  end.

(** ** Buffers addressed by integer offsets *)

Section Buffer.
Context {A : Type}.

Definition load (buf : list A) (i : Z) : option A :=
  if i <? 0 then None else buf !! Z.to_nat i.

(** A write is defined where a read is. *)
Definition store (buf : list A) (i : Z) (v : A) : option (list A) :=
  _ ← load buf i; Some (<[Z.to_nat i := v]> buf).

(** [std::swap (c[i], c[j])] on the bytes at offsets [i] and [j]. *)
Definition swap (buf : list A) (i j : Z) : option (list A) :=
  x ← load buf i; y ← load buf j;
  buf ← store buf i y; store buf j x.

(** The body of [swap_endian]'s loop for one element at offset [c]. *)
Definition swap_element (sizeofT : Z) (buf : list A) (c : Z)
  : option (list A) :=
  if sizeofT =? 2 then
    swap buf c (c + 1)
  else if sizeofT =? 4 then
    buf ← swap buf c (c + 3);
    swap buf (c + 1) (c + 2)
  else if sizeofT =? 8 then
    buf ← swap buf c (c + 7);
    buf ← swap buf (c + 1) (c + 6);
    buf ← swap buf (c + 2) (c + 5);
    swap buf (c + 3) (c + 4)
  else Some buf.

(** [for (char *c = (char * ) f; len--; c += sizeof(T))]. *)
Fixpoint swap_endian_loop (sizeofT : Z) (len : nat) (c : Z) (buf : list A)
  : option (list A) :=
  match len with
  | O => Some buf
  | S len' =>
      buf ← swap_element sizeofT buf c;
      swap_endian_loop sizeofT len' (c + sizeofT) buf
  end.

(** [template<class T> inline void swap_endian (T *f, int len=1)], [f]
    given as a byte offset into [buf].  With [len] negative the C++ loop
    never meets [len == 0] before it leaves the buffer. *)
Definition swap_endian (sizeofT : Z) (buf : list A) (f len : Z)
  : option (list A) :=
  if len <? 0 then None else swap_endian_loop sizeofT (Z.to_nat len) f buf.

End Buffer.

(** [inline bool littleendian (void)] is decided by the platform: the
    embedding takes its value as the parameter [host_little] of whatever
    depends on it. *)

(** ** The scratch raster buffer *)

(** A byte is an integer in [[0, 255]]. *)
Abbreviation byte := Z (only parsing).

Inductive BitDepthEnum : Type := eBitDepthUByte | eBitDepthUShort.

Definition BitDepthEnum_eqb (a b : BitDepthEnum) : bool :=
  match a, b with
  | eBitDepthUByte, eBitDepthUByte | eBitDepthUShort, eBitDepthUShort => true
  | _, _ => false
  end.

(** [sizeof(unsigned char)] and [sizeof(unsigned short)]. *)
Definition sizeof_sample (d : BitDepthEnum) : Z :=
  match d with eBitDepthUByte => 1 | eBitDepthUShort => 2 end.

(** The template argument of [floatToInt] in each path. *)
Definition numvals (d : BitDepthEnum) : Z :=
  match d with eBitDepthUByte => 256 | eBitDepthUShort => 65536 end.

(** Modelled from the spec: [RamBuffer] is declared outside this source
    tree; the spec has the scratch raster buffer freshly allocated and
    zero-initialised. *)
Definition RamBuffer (nBytes : Z) : list byte := replicate (Z.to_nat nBytes) 0.

(** [dst_pixels[i] = v] through an [unsigned char*]: the conversion to
    [unsigned char] keeps the low 8 bits. *)
Definition store_uchar (buf : list byte) (i v : Z) : option (list byte) :=
  store buf i (v mod 256).

(** [dst_pixels[i] = v] through an [unsigned short*]: the low 16 bits, laid
    out in the byte order of the host. *)
Definition store_ushort (host_little : bool) (buf : list byte) (i v : Z)
  : option (list byte) :=
  let v := v mod 65536 in
  let lo := v mod 256 in
  let hi := v / 256 in
  if host_little then
    buf ← store buf (2 * i) lo; store buf (2 * i + 1) hi
  else
    buf ← store buf (2 * i) hi; store buf (2 * i + 1) lo.

Definition store_sample (host_little : bool) (d : BitDepthEnum)
    (buf : list byte) (i v : Z) : option (list byte) :=
  match d with
  | eBitDepthUByte => store_uchar buf i v
  | eBitDepthUShort => store_ushort host_little buf i v
  end.

(** ** The row-major transcoder *)

(** The two depth paths of [encode] have the same pixel and channel loops,
    over [unsigned char] with [floatToInt<256>] and over [unsigned short]
    with [floatToInt<65536>]; they are written once here, with the depth as
    a parameter.  [src_pixels] and [dst_pixels] are element offsets. *)
Section Transcoder.
Variable host_little : bool.
Variable depth : BitDepthEnum.
Variables pixelDataNComps dstNCompsStartIndex dstNComps : Z.
Variable pixelData : list float.

(** [for (int c = 0; c < nComps; ++c)
      dst_pixels[c] = floatToInt<N>(src_pixels[dstNCompsStartIndex + c])]. *)
Fixpoint convert_channels (n : nat) (c src_pixels dst_pixels : Z)
    (scratch : list byte) : option (list byte) :=
  match n with
  | O => Some scratch
  | S n' =>
      v ← load pixelData (src_pixels + (dstNCompsStartIndex + c));
      scratch ← store_sample host_little depth scratch (dst_pixels + c)
                  (floatToInt (numvals depth) v);
      convert_channels n' (c + 1) src_pixels dst_pixels scratch
  end.

(** [for (int x = bounds.x1; x < bounds.x2; ++x,
      dst_pixels += dstNComps, src_pixels += pixelDataNComps)]; the
    pointers it leaves are returned with the buffer. *)
Fixpoint convert_pixels (n : nat) (nComps : Z) (src_pixels dst_pixels : Z)
    (scratch : list byte) : option (Z * Z * list byte) :=
  match n with
  | O => Some (src_pixels, dst_pixels, scratch)
  | S n' =>
      scratch ← convert_channels (Z.to_nat nComps) 0 src_pixels dst_pixels
                  scratch;
      convert_pixels n' nComps (src_pixels + pixelDataNComps)
        (dst_pixels + dstNComps) scratch
  end.

End Transcoder.

(** The row loop of the 8-bit path: the increment clause moves both
    pointers by what the pixel loop left of the row. *)
Fixpoint convert_rows_ubyte (host_little : bool)
    (pixelDataNComps dstNCompsStartIndex dstNComps : Z)
    (pixelData : list float) (n : nat) (width nComps : Z)
    (srcRowElements dstRowElements : Z) (src_pixels dst_pixels : Z)
    (scratch : list byte) : option (list byte) :=
  match n with
  | O => Some scratch
  | S n' =>
      '(src_pixels, dst_pixels, scratch) ←
        convert_pixels host_little eBitDepthUByte pixelDataNComps
          dstNCompsStartIndex dstNComps pixelData (Z.to_nat width) nComps
          src_pixels dst_pixels scratch;
      convert_rows_ubyte host_little pixelDataNComps dstNCompsStartIndex
        dstNComps pixelData n' width nComps srcRowElements dstRowElements
        (src_pixels + (srcRowElements - width * pixelDataNComps))
        (dst_pixels + (dstRowElements - width * dstNComps))
        scratch
  end.

(** The row loop of the 16-bit path: the body takes both pointers back to
    the start of the row, swaps the row on a little-endian host, and the
    increment clause moves them one whole row. *)
Fixpoint convert_rows_ushort (host_little : bool)
    (pixelDataNComps dstNCompsStartIndex dstNComps : Z)
    (pixelData : list float) (n : nat) (width nComps : Z)
    (srcRowElements dstRowElements : Z) (src_pixels dst_pixels : Z)
    (scratch : list byte) : option (list byte) :=
  match n with
  | O => Some scratch
  | S n' =>
      '(src_pixels, dst_pixels, scratch) ←
        convert_pixels host_little eBitDepthUShort pixelDataNComps
          dstNCompsStartIndex dstNComps pixelData (Z.to_nat width) nComps
          src_pixels dst_pixels scratch;
      let src_pixels := src_pixels - width * pixelDataNComps in
      let dst_pixels := dst_pixels - width * dstNComps in
      scratch ←
        (if host_little
         then swap_endian 2 scratch (2 * dst_pixels) dstRowElements
         else Some scratch);
      convert_rows_ushort host_little pixelDataNComps dstNCompsStartIndex
        dstNComps pixelData n' width nComps srcRowElements dstRowElements
        (src_pixels + srcRowElements) (dst_pixels + dstRowElements) scratch
  end.

(** ** The outside world: libpng, zlib, the file system, the host *)

Inductive OfxStatus : Type := kOfxStatOK | kOfxStatFailed | kOfxStatErrFormat.

Inductive png_color_type : Type :=
| PNG_COLOR_TYPE_GRAY
| PNG_COLOR_TYPE_GRAY_ALPHA
| PNG_COLOR_TYPE_RGB
| PNG_COLOR_TYPE_RGB_ALPHA.

Inductive zlib_strategy : Type :=
| Z_DEFAULT_STRATEGY | Z_FILTERED | Z_HUFFMAN_ONLY | Z_RLE | Z_FIXED.

(** One constructor per call that leaves the program.  [png_set_gAMA]
    carries the rational its argument expression denotes (the source hands
    libpng that number rounded to a [double]); [png_set_pHYs] carries the
    pixel aspect ratio its two resolutions are computed from;
    [png_write_row] carries the index [y] of the scratch row its pointer
    argument [scratch + y * pngRowSize] addresses and the bytes libpng
    reads there. *)
Inductive event : Type :=
| Ev_setPersistentMessage (msg : string)
| Ev_open_file (filename : string) (opened : bool)
| Ev_fclose
| Ev_png_create_write_struct (created : bool)
| Ev_png_create_info_struct (created : bool)
| Ev_png_init_io
| Ev_png_set_compression_level (level : Z)
| Ev_png_set_compression_strategy (strategy : zlib_strategy)
| Ev_png_set_IHDR (width height bit_depth : Z) (color : png_color_type)
| Ev_png_set_oFFs (x1 y1 : Z)
| Ev_png_set_sRGB_gAMA_and_cHRM
| Ev_png_set_gAMA (file_gamma : Q)
| Ev_png_set_pHYs (par : float)
| Ev_png_write_info
| Ev_png_set_packing
| Ev_png_write_row (y : Z) (row : list byte)
| Ev_png_write_end
| Ev_png_destroy_write_struct.

(** What the world answers to the calls that can fail. *)
Record World : Type := {
  open_file_succeeds : string -> bool;
  png_create_write_struct_succeeds : bool;
  png_create_info_struct_succeeds : bool;
  (** does [png_write_row] return for the scratch row [y] (or [longjmp])? *)
  png_write_row_succeeds : Z -> bool
}.

(** A [png_structp] or [png_infop] local of [encode]. *)
Inductive handle : Type := Uninitialised | Null | Live.

(** ** Opening the file and the encoder handle pair *)

(** [inline void finish_image (png_structp& sp)]. *)
Definition finish_image : list event := [Ev_png_write_end].

(** [inline void destroy_write_struct (png_structp& sp, png_infop& ip)]:
    [if (sp && ip)], read left to right. *)
Definition destroy_write_struct (sp ip : handle) : option (list event) :=
  match sp with
  | Uninitialised => None
  | Null => Some []
  | Live =>
      match ip with
      | Uninitialised => None
      | Null => Some []
      | Live => Some (finish_image ++ [Ev_png_destroy_write_struct])
      end
  end.

(** The [switch (nChannels)] of [create_write_struct]. *)
Definition color_type_of_channels (nChannels : Z) : option png_color_type :=
  if nChannels =? 1 then Some PNG_COLOR_TYPE_GRAY
  else if nChannels =? 2 then Some PNG_COLOR_TYPE_GRAY_ALPHA
  else if nChannels =? 3 then Some PNG_COLOR_TYPE_RGB
  else if nChannels =? 4 then Some PNG_COLOR_TYPE_RGB_ALPHA
  else None.

(** [inline void create_write_struct (png_structp& sp, png_infop& ip,
    int nChannels, int* color_type)]: the calls made, the two handles as it
    leaves them, and either the [what()] of the [std::runtime_error] thrown
    or the colour type. *)
Definition create_write_struct (W : World) (nChannels : Z)
  : list event * handle * handle * (string + png_color_type) :=
  match color_type_of_channels nChannels with
  | None =>
      ([], Uninitialised, Uninitialised,
       inl "PNG only supports 1-4 channels"%string)
  | Some color =>
      if png_create_write_struct_succeeds W then
        if png_create_info_struct_succeeds W then
          ([Ev_png_create_write_struct true; Ev_png_create_info_struct true],
           Live, Live, inr color)
        else
          ([Ev_png_create_write_struct true; Ev_png_create_info_struct false],
           Live, Null, inl "Could not create PNG info structure"%string)
      else
        ([Ev_png_create_write_struct false], Null, Uninitialised,
         inl "Could not create PNG write structure"%string)
  end.

(** [openFile] rethrows with [throw e] where [e] is a
    [const std::exception&]: the exception that leaves is a copy of static
    type [std::exception], whose [what()] is the library's default text. *)
Definition std_exception_what : string := "std::exception".

(** [void WritePNGPlugin::openFile(...)]. *)
Definition openFile (W : World) (filename : string) (nChannels : Z)
  : option (list event * (string + png_color_type)) :=
  if open_file_succeeds W filename then
    let '(created, sp, ip, r) := create_write_struct W nChannels in
    match r with
    | inr color => Some (Ev_open_file filename true :: created, inr color)
    | inl _ =>
        destroyed ← destroy_write_struct sp ip;
        Some (Ev_open_file filename true :: created ++ destroyed ++ [Ev_fclose],
              inl std_exception_what)
    end
  else
    Some ([Ev_open_file filename false], inl "Couldn't not open file"%string).

(** ** The header composer *)

(** [ocioColorspace == name] on [std::string]: exact comparison. *)
Definition is_named (ocioColorspace name : string) : bool :=
  String.eqb ocioColorspace name.

(** The [if / else if] chain of [write_info] over [ocioColorspace]. *)
Definition gamma_hint (ocioColorspace : string) : list event :=
  let named := is_named ocioColorspace in
  (if named "sRGB" || named "sRGB D65" || named "sRGB (D60 sim.)"
     || named "out_srgbd60sim" || named "rrt_srgb" || named "srgb8"
  then [Ev_png_set_sRGB_gAMA_and_cHRM]
  else if named "Gamma1.8"
  then [Ev_png_set_gAMA (10 # 18)]
  else if named "Gamma2.2" || named "vd8" || named "vd10" || named "vd16"
          || named "VD16"
  then [Ev_png_set_gAMA (10 # 22)]
  else if named "Linear" || named "linear" || named "ACES2065-1"
          || named "aces" || named "lnf" || named "ln16"
  then [Ev_png_set_gAMA 1]
  else [])%string.

(** [void WritePNGPlugin::write_info (png_structp& sp, png_infop& ip,
    int color_type, int x1, int y1, int width, int height, double par,
    const std::string& ocioColorspace, BitDepthEnum bitdepth)]. *)
Definition write_info (color : png_color_type) (x1 y1 width height : Z)
    (par : float) (ocioColorspace : string) (bitdepth : BitDepthEnum)
  : list event :=
  let pixelBytes := sizeof_sample bitdepth in
  [Ev_png_set_IHDR width height (pixelBytes * 8) color; Ev_png_set_oFFs x1 y1]
  ++ gamma_hint ocioColorspace
  ++ [Ev_png_set_pHYs par; Ev_png_write_info; Ev_png_set_packing].

(** ** Row emission *)

(** The bytes [png_write_row] reads at [scratch + y * pngRowSize]. *)
Definition scratch_row (scratch : list byte) (pngRowSize y : Z) : list byte :=
  take (Z.to_nat pngRowSize) (drop (Z.to_nat (y * pngRowSize)) scratch).

(** [for (int y = (bounds.y2 - bounds.y1 - 1); y >= 0; --y)] with [n]
    iterations left: the rows written, and whether the loop ran to its end
    ([false]: [png_write_row] came back through [setjmp]). *)
Fixpoint write_rows (W : World) (scratch : list byte) (pngRowSize : Z)
    (n : nat) (y : Z) : list event * bool :=
  match n with
  | O => ([], true)
  | S n' =>
      if png_write_row_succeeds W y then
        let '(rest, ok) := write_rows W scratch pngRowSize n' (y - 1) in
        (Ev_png_write_row y (scratch_row scratch pngRowSize y) :: rest, ok)
      else ([], false)
  end.

(** ** The orchestrator *)

(** The parameters of a plugin instance that [encode] can reach: the four
    fetched by the constructor and the output colour space held by the
    writer's colour-management member. *)
Record WritePNGPlugin : Type := {
  _compression : Z;
  _compressionLevel : Z;
  _bitdepth : Z;
  _ditherEnabled : bool;
  _ocio_outputColorspace : string
}.

Record OfxRectI : Type := { x1 : Z; y1 : Z; x2 : Z; y2 : Z }.

(** What one [encode] call leaves behind. *)
Record Outcome : Type := {
  status : OfxStatus;
  events : list event;
  pixelData_after : list float
}.

Definition Z_NO_COMPRESSION : Z := 0.
Definition Z_BEST_COMPRESSION : Z := 9.

Definition compression_strategy (compression_i : Z) : zlib_strategy :=
  if compression_i =? 1 then Z_FILTERED
  else if compression_i =? 2 then Z_HUFFMAN_ONLY
  else if compression_i =? 3 then Z_RLE
  else if compression_i =? 4 then Z_FIXED
  else Z_DEFAULT_STRATEGY.

(** The depth-dependent conversion of the float buffer into the scratch
    buffer (the [if (pngDetph == eBitDepthUByte) ... else ...] of [encode]). *)
Definition convert (host_little : bool) (pngDetph : BitDepthEnum)
    (pixelData : list float) (bounds : OfxRectI)
    (pixelDataNComps dstNCompsStartIndex dstNComps rowBytes : Z)
  : option (list byte) :=
  let width := x2 bounds - x1 bounds in
  let height := y2 bounds - y1 bounds in
  let bitDepthSize := sizeof_sample pngDetph in
  let dstRowElements := width * dstNComps in
  let pngRowSize := width * dstNComps * bitDepthSize in
  let scratchBufSize := height * pngRowSize in
  let scratchBuffer := RamBuffer scratchBufSize in
  let nComps := Z.min dstNComps pixelDataNComps in
  let srcRowElements := rowBytes / sizeof_float in
  match pngDetph with
  | eBitDepthUByte =>
      convert_rows_ubyte host_little pixelDataNComps dstNCompsStartIndex
        dstNComps pixelData (Z.to_nat height) width nComps
        srcRowElements dstRowElements 0 0 scratchBuffer
  | eBitDepthUShort =>
      convert_rows_ushort host_little pixelDataNComps dstNCompsStartIndex
        dstNComps pixelData (Z.to_nat height) width nComps
        srcRowElements dstRowElements 0 0 scratchBuffer
  end.

(** [void WritePNGPlugin::encode(const std::string& filename, const OfxTime,
    const std::string&, const float *pixelData, const OfxRectI& bounds,
    const float pixelAspectRatio, const int pixelDataNComps,
    const int dstNCompsStartIndex, const int dstNComps, const int rowBytes)]
    on a host whose [littleendian()] is [host_little]. *)
Definition encode (W : World) (host_little : bool) (self : WritePNGPlugin)
    (filename : string) (pixelData : list float) (bounds : OfxRectI)
    (pixelAspectRatio : float)
    (pixelDataNComps dstNCompsStartIndex dstNComps rowBytes : Z)
  : option Outcome :=
  if negb (dstNComps =? 4) && negb (dstNComps =? 3) && negb (dstNComps =? 1)
  then
    Some {| status := kOfxStatErrFormat;
            events := [Ev_setPersistentMessage
              "PFM: can only write RGBA, RGB or Alpha components images"];
            pixelData_after := pixelData |}
  else
    '(opened, r) ← openFile W filename dstNComps;
    match r with
    | inl what =>
        Some {| status := kOfxStatFailed;
                events := opened ++ [Ev_setPersistentMessage what];
                pixelData_after := pixelData |}
    | inr color_type =>
        let compressionLevel :=
          Z.max (Z.min (_compressionLevel self) Z_BEST_COMPRESSION)
            Z_NO_COMPRESSION in
        let configured :=
          [Ev_png_init_io;
           Ev_png_set_compression_level compressionLevel;
           Ev_png_set_compression_strategy
             (compression_strategy (_compression self))] in
        let pngDetph :=
          if _bitdepth self =? 0 then eBitDepthUByte else eBitDepthUShort in
        let width := x2 bounds - x1 bounds in
        let height := y2 bounds - y1 bounds in
        let header :=
          write_info color_type (x1 bounds) (y1 bounds) width height
            pixelAspectRatio EmptyString pngDetph in
        let bitDepthSize := sizeof_sample pngDetph in
        pixelData ←
          (if BitDepthEnum_eqb pngDetph eBitDepthUByte && _ditherEnabled self
           then add_dither pixelDataNComps width height pixelData
                  (pixelDataNComps * bitDepthSize)
                  (pixelDataNComps * bitDepthSize * width)
                  (F32.div (F32.of_Z 1) (F32.of_Z 255))
                  (if pixelDataNComps =? 4 then 3 else -1) 1
           else Some pixelData);
        scratchBuffer ←
          convert host_little pngDetph pixelData bounds pixelDataNComps
            dstNCompsStartIndex dstNComps rowBytes;
        let pngRowSize := width * dstNComps * bitDepthSize in
        let '(rows, ok) :=
          write_rows W scratchBuffer pngRowSize (Z.to_nat height)
            (height - 1) in
        closed ← destroy_write_struct Live Live;
        if ok then
          Some {| status := kOfxStatOK;
                  events := opened ++ configured ++ header ++ rows
                            ++ finish_image ++ closed ++ [Ev_fclose];
                  pixelData_after := pixelData |}
        else
          Some {| status := kOfxStatFailed;
                  events := opened ++ configured ++ header ++ rows
                            ++ closed
                            ++ [Ev_fclose;
                                Ev_setPersistentMessage "PNG library error"];
                  pixelData_after := pixelData |}
    end.

(** The type of [add_dither]. *)
Definition ditherer : Type :=
  Z -> Z -> Z -> list float -> Z -> Z -> float -> Z -> Z
  -> option (list float).

(** [WritePNGPlugin::encode] once more, with the function it calls to
    dither for a parameter: the body is that of [encode], word for word,
    but for the name of the callee.  What holds of [encode_with] for every
    callee holds of the call itself, of its arguments as [encode] writes
    them, whatever the callee makes of them. *)
Definition encode_with (dither : ditherer) (W : World) (host_little : bool)
    (self : WritePNGPlugin)
    (filename : string) (pixelData : list float) (bounds : OfxRectI)
    (pixelAspectRatio : float)
    (pixelDataNComps dstNCompsStartIndex dstNComps rowBytes : Z)
  : option Outcome :=
  if negb (dstNComps =? 4) && negb (dstNComps =? 3) && negb (dstNComps =? 1)
  then
    Some {| status := kOfxStatErrFormat;
            events := [Ev_setPersistentMessage
              "PFM: can only write RGBA, RGB or Alpha components images"];
            pixelData_after := pixelData |}
  else
    '(opened, r) ← openFile W filename dstNComps;
    match r with
    | inl what =>
        Some {| status := kOfxStatFailed;
                events := opened ++ [Ev_setPersistentMessage what];
                pixelData_after := pixelData |}
    | inr color_type =>
        let compressionLevel :=
          Z.max (Z.min (_compressionLevel self) Z_BEST_COMPRESSION)
            Z_NO_COMPRESSION in
        let configured :=
          [Ev_png_init_io;
           Ev_png_set_compression_level compressionLevel;
           Ev_png_set_compression_strategy
             (compression_strategy (_compression self))] in
        let pngDetph :=
          if _bitdepth self =? 0 then eBitDepthUByte else eBitDepthUShort in
        let width := x2 bounds - x1 bounds in
        let height := y2 bounds - y1 bounds in
        let header :=
          write_info color_type (x1 bounds) (y1 bounds) width height
            pixelAspectRatio EmptyString pngDetph in
        let bitDepthSize := sizeof_sample pngDetph in
        pixelData ←
          (if BitDepthEnum_eqb pngDetph eBitDepthUByte && _ditherEnabled self
           then dither pixelDataNComps width height pixelData
                  (pixelDataNComps * bitDepthSize)
                  (pixelDataNComps * bitDepthSize * width)
                  (F32.div (F32.of_Z 1) (F32.of_Z 255))
                  (if pixelDataNComps =? 4 then 3 else -1) 1
           else Some pixelData);
        scratchBuffer ←
          convert host_little pngDetph pixelData bounds pixelDataNComps
            dstNCompsStartIndex dstNComps rowBytes;
        let pngRowSize := width * dstNComps * bitDepthSize in
        let '(rows, ok) :=
          write_rows W scratchBuffer pngRowSize (Z.to_nat height)
            (height - 1) in
        closed ← destroy_write_struct Live Live;
        if ok then
          Some {| status := kOfxStatOK;
                  events := opened ++ configured ++ header ++ rows
                            ++ finish_image ++ closed ++ [Ev_fclose];
                  pixelData_after := pixelData |}
        else
          Some {| status := kOfxStatFailed;
                  events := opened ++ configured ++ header ++ rows
                            ++ closed
                            ++ [Ev_fclose;
                                Ev_setPersistentMessage "PNG library error"];
                  pixelData_after := pixelData |}
    end.

(** ** The default output colour space *)

(** [void WritePNGPlugin::onOutputFileChanged(const std::string&,
    bool setColorSpace)]: the argument of the call to
    [_ocio->setOutputColorspace] it makes, if it makes one.
    [OFX_IO_USING_OCIO] tells whether the macro of that name is defined,
    and [hasColorspace] is the answer of [_ocio->hasColorspace]. *)
Definition onOutputFileChanged (OFX_IO_USING_OCIO : bool)
    (hasColorspace : string -> bool) (self : WritePNGPlugin)
    (setColorSpace : bool) : option string :=
  (if setColorSpace then
     let bitdepth_i := _bitdepth self in
     if OFX_IO_USING_OCIO then
       if (bitdepth_i =? 0)%Z then
         if hasColorspace "sRGB" then Some "sRGB"
         else if hasColorspace "sRGB D65" then Some "sRGB D65"
         else if hasColorspace "rrt_srgb" then Some "rrt_srgb"
         else if hasColorspace "srgb8" then Some "srgb8"
         else None
       else
         if hasColorspace "Rec709" then Some "Rec709"
         else if hasColorspace "nuke_rec709" then Some "nuke_rec709"
         else if hasColorspace "Rec.709 - Full" then Some "Rec.709 - Full"
         else if hasColorspace "out_rec709full" then Some "out_rec709full"
         else if hasColorspace "rrt_rec709_full_100nits"
              then Some "rrt_rec709_full_100nits"
         else if hasColorspace "rrt_rec709" then Some "rrt_rec709"
         else if hasColorspace "hd10" then Some "hd10"
         else None
     else None
   else None)%string.

(** ** Specification-level descriptions of the buffers *)

(** The first [n] elements of [sz] bytes each, every one reversed; what is
    left of the list is kept. *)
Fixpoint reverse_each {A : Type} (sz n : nat) (l : list A) : list A :=
  match n with
  | O => l
  | S n' => rev (take sz l) ++ reverse_each sz n' (drop sz l)
  end.

(** The float the transcoder finds at element offset [i] of the source
    buffer ([0.0] stands in where the buffer has no such element). *)
Definition src_at (pixelData : list float) (i : Z) : float :=
  default F32.zero (load pixelData i).

(** The bytes of one stored sample: the low 8 bits, or the low 16 bits in
    the byte order named by [little]. *)
Definition sample_bytes (little : bool) (d : BitDepthEnum) (v : Z)
  : list byte :=
  match d with
  | eBitDepthUByte => [v mod 256]
  | eBitDepthUShort =>
      let v := v mod 65536 in
      if little then [v mod 256; v / 256] else [v / 256; v mod 256]
  end.

Section RasterSpec.
Variable little : bool.
Variable depth : BitDepthEnum.
Variables pixelDataNComps dstNCompsStartIndex dstNComps : Z.
Variable pixelData : list float.

(** The samples of channels [c], [c + 1], ... ([n] of them) of the pixel
    whose source samples start at [src_pixels]. *)
Fixpoint channels_bytes (n : nat) (c src_pixels : Z) : list byte :=
  match n with
  | O => []
  | S n' =>
      sample_bytes little depth
        (floatToInt (numvals depth)
           (src_at pixelData (src_pixels + (dstNCompsStartIndex + c))))
      ++ channels_bytes n' (c + 1) src_pixels
  end.

(** One destination pixel: [nComps] converted channels, the other
    [dstNComps - nComps] left at zero. *)
Definition pixel_bytes (nComps : Z) (src_pixels : Z) : list byte :=
  channels_bytes (Z.to_nat nComps) 0 src_pixels
  ++ replicate (Z.to_nat (sizeof_sample depth * (dstNComps - nComps))) 0.

(** [n] consecutive pixels of one row. *)
Fixpoint pixels_bytes (n : nat) (nComps src_pixels : Z) : list byte :=
  match n with
  | O => []
  | S n' =>
      pixel_bytes nComps src_pixels
      ++ pixels_bytes n' nComps (src_pixels + pixelDataNComps)
  end.

(** [n] consecutive rows of [width] pixels, in source order. *)
Fixpoint rows_bytes (n : nat) (width nComps srcRowElements src_pixels : Z)
  : list byte :=
  match n with
  | O => []
  | S n' =>
      pixels_bytes (Z.to_nat width) nComps src_pixels
      ++ rows_bytes n' width nComps srcRowElements
           (src_pixels + srcRowElements)
  end.

End RasterSpec.

(** The raster [convert] is to produce, as the PNG stream wants it: rows in
    source order, samples tightly packed, 16-bit samples big-endian. *)
Definition png_raster (depth : BitDepthEnum) (pixelData : list float)
    (bounds : OfxRectI)
    (pixelDataNComps dstNCompsStartIndex dstNComps rowBytes : Z) : list byte :=
  rows_bytes false depth pixelDataNComps dstNCompsStartIndex dstNComps
    pixelData (Z.to_nat (y2 bounds - y1 bounds)) (x2 bounds - x1 bounds)
    (Z.min dstNComps pixelDataNComps) (rowBytes / sizeof_float) 0.

(** The bytes that hold the sample at element index [i] of a raster, in
    the order they lie in it. *)
Definition stored_bytes (depth : BitDepthEnum) (raster : list byte) (i : Z)
  : option (list byte) :=
  match depth with
  | eBitDepthUByte => b ← load raster i; Some [b]
  | eBitDepthUShort =>
      b0 ← load raster (2 * i); b1 ← load raster (2 * i + 1); Some [b0; b1]
  end.

(** The number a byte sequence denotes when read most significant byte
    first, as a PNG stream is. *)
Definition big_endian_value (bytes : list byte) : Z :=
  fold_left (fun acc b => 256 * acc + b) bytes 0.

(** The sample at element index [i] of a raster, read as the PNG stream
    has it. *)
Definition sample_at (depth : BitDepthEnum) (raster : list byte) (i : Z)
  : option Z :=
  big_endian_value <$> stored_bytes depth raster i.

(** Every source sample the transcoder reads exists. *)
Definition region_readable (pixelData : list float) (bounds : OfxRectI)
    (pixelDataNComps dstNCompsStartIndex dstNComps rowBytes : Z) : Prop :=
  forall y x c,
    0 <= y < y2 bounds - y1 bounds ->
    0 <= x < x2 bounds - x1 bounds ->
    0 <= c < Z.min dstNComps pixelDataNComps ->
    is_Some (load pixelData
               (y * (rowBytes / sizeof_float) + x * pixelDataNComps
                + (dstNCompsStartIndex + c))).

(** ** Floats that denote a number *)

(** The values that denote a real number: the zeros and the finite ones. *)
Definition is_real (f : float) : bool :=
  match f with S754_zero _ | S754_finite _ _ _ => true | _ => false end.

(** The finite [float]s with a full mantissa whose half is a [float] of
    its own: the normal numbers from [2^-125] on. *)
Definition halvable (f : float) : bool :=
  match f with
  | S754_finite _ m e =>
      (Z.pos (digits2_pos m) =? 24) && (-148 <=? e) && (e <=? 104)
  | _ => false
  end.

(** ** The hash of a sample position *)

(** One turn of the channel loop on the mixing words: [bjmix], then [++bc]. *)
Definition next_hash (s : mix_state) : mix_state := next_sample (bjmix s).

(** The mixing words [add_dither] starts row [y] with. *)
Definition row_hash (y ditherseed : Z) : mix_state :=
  MixState (UInt32.wrap32 y) (UInt32.wrap32 ditherseed) 0.

(** The hash word consumed for the [n]-th sample (counted from 0, pixel
    after pixel, channel after channel) of row [y]. *)
Definition hash_word (y ditherseed : Z) (n : nat) : Z :=
  bc (bjmix (Nat.iter n next_hash (row_hash y ditherseed))).

(** The sample [d] of channel [c] after the turn of the channel loop that
    consumes the hash word [w]. *)
Definition dithered_sample (alpha_channel : Z) (amplitude : float)
    (c : Z) (w : Z) (d : float) : float :=
  if c =? alpha_channel then d else F32.add d (perturbation amplitude w).

(** The values of an [unsigned int]. *)
Definition in_uint32 (z : Z) : Prop := 0 <= z < 2 ^ 32.

(** Mixing words that are all [unsigned int] values. *)
Definition uint32_state (s : mix_state) : Prop :=
  in_uint32 (ba s) /\ in_uint32 (bb s) /\ in_uint32 (bc s).

(** ** The mixer, line by line *)

(** One line of [bjmix], [x -= z;  x ^= rotl32(z, k);  z += y]: the new
    [x] and the new [z]. *)
Definition mix_line (k x y z : Z) : Z * Z :=
  (Z.lxor (UInt32.sub x z) (UInt32.rotl32 z k), UInt32.add z y).

(** The line read backwards: from the new [x] and the new [z] to the old
    ones. *)
Definition unmix_line (k x y z : Z) : Z * Z :=
  let z := UInt32.sub z y in
  (UInt32.add (Z.lxor x (UInt32.rotl32 z k)) z, z).

(** The six lines of [bjmix] read backwards, last line first. *)
Definition bjmix_inverse (s : mix_state) : mix_state :=
  let '(MixState a b c) := s in
  let '(c, b) := unmix_line 4 c a b in
  let '(b, a) := unmix_line 19 b c a in
  let '(a, c) := unmix_line 16 a b c in
  let '(c, b) := unmix_line 8 c a b in
  let '(b, a) := unmix_line 6 b c a in
  let '(a, c) := unmix_line 4 a b c in
  MixState a b c.

(** ** The ditherer on several rows *)

(** The sample [d] of channel [c], [k]-th of its row, after the turns of
    the channel loop that rows [y], [y + 1], ... ([n] of them) spend on
    it. *)
Fixpoint dither_passes (n : nat) (y ditherseed : Z) (k : nat)
    (alpha_channel : Z) (amplitude : float) (c : Z) (d : float) : float :=
  match n with
  | O => d
  | S n' =>
      dither_passes n' (y + 1) ditherseed k alpha_channel amplitude c
        (dithered_sample alpha_channel amplitude c
           (hash_word y ditherseed k) d)
  end.

(** ** Names for the stages of [encode] *)

(** [BitDepthEnum pngDetph = bitdepth_i == 0 ? eBitDepthUByte : eBitDepthUShort]. *)
Definition pngDetph_of (self : WritePNGPlugin) : BitDepthEnum :=
  if _bitdepth self =? 0 then eBitDepthUByte else eBitDepthUShort.

(** Does [encode] call [add_dither]? *)
Definition dithers (self : WritePNGPlugin) : bool :=
  BitDepthEnum_eqb (pngDetph_of self) eBitDepthUByte && _ditherEnabled self.

(** The channel counts [encode] lets through its first test. *)
Definition accepted_channels (dstNComps : Z) : bool :=
  negb (negb (dstNComps =? 4) && negb (dstNComps =? 3)
        && negb (dstNComps =? 1)).

(** The message of [encode] on a channel count it does not let through. *)
Definition rejected (pixelData : list float) : Outcome :=
  {| status := kOfxStatErrFormat;
     events := [Ev_setPersistentMessage
       "PFM: can only write RGBA, RGB or Alpha components images"];
     pixelData_after := pixelData |}.

(** The calls between the opening of the file and the header. *)
Definition configured_events (self : WritePNGPlugin) : list event :=
  [Ev_png_init_io;
   Ev_png_set_compression_level
     (Z.max (Z.min (_compressionLevel self) Z_BEST_COMPRESSION)
        Z_NO_COMPRESSION);
   Ev_png_set_compression_strategy (compression_strategy (_compression self))].

(** The header [encode] commits: [write_info] on an empty colour-space
    name. *)
Definition header_events (self : WritePNGPlugin) (color : png_color_type)
    (bounds : OfxRectI) (pixelAspectRatio : float) : list event :=
  write_info color (x1 bounds) (y1 bounds) (x2 bounds - x1 bounds)
    (y2 bounds - y1 bounds) pixelAspectRatio EmptyString (pngDetph_of self).

(** The calls after the row loop, when it ran to its end and when it did
    not. *)
Definition closing_events (ok : bool) : list event :=
  if ok then
    finish_image ++ [Ev_png_write_end; Ev_png_destroy_write_struct]
    ++ [Ev_fclose]
  else
    [Ev_png_write_end; Ev_png_destroy_write_struct]
    ++ [Ev_fclose; Ev_setPersistentMessage "PNG library error"].

(** What [encode] does once the source buffer [dithered] has come back
    from the ditherer: the conversion, the rows and the closing calls. *)
Definition encode_dithered (W : World) (host_little : bool)
    (self : WritePNGPlugin) (opened : list event) (color : png_color_type)
    (dithered : list float) (bounds : OfxRectI) (pixelAspectRatio : float)
    (pixelDataNComps dstNCompsStartIndex dstNComps rowBytes : Z)
  : option Outcome :=
  scratch ← convert host_little (pngDetph_of self) dithered bounds
              pixelDataNComps dstNCompsStartIndex dstNComps rowBytes;
  let '(rows, ok) :=
    write_rows W scratch
      ((x2 bounds - x1 bounds) * dstNComps
       * sizeof_sample (pngDetph_of self))
      (Z.to_nat (y2 bounds - y1 bounds)) (y2 bounds - y1 bounds - 1) in
  Some {| status := if ok then kOfxStatOK else kOfxStatFailed;
          events := opened ++ configured_events self
                    ++ header_events self color bounds pixelAspectRatio
                    ++ rows ++ closing_events ok;
          pixelData_after := dithered |}.

(** The gamma and profile calls among a sequence of events. *)
Definition is_gamma_event (e : event) : bool :=
  match e with
  | Ev_png_set_sRGB_gAMA_and_cHRM | Ev_png_set_gAMA _ => true
  | _ => false
  end.

(** The rows handed to [png_write_row], in the order of the calls. *)
Definition emitted_rows (evs : list event) : list (Z * list byte) :=
  omap (fun e => match e with
                 | Ev_png_write_row y row => Some (y, row)
                 | _ => None
                 end) evs.

(** The fixed table of colour-space names of the header composer, each with
    the call it selects. *)
Definition known_colorspaces : list (string * event) :=
  [("sRGB", Ev_png_set_sRGB_gAMA_and_cHRM);
   ("sRGB D65", Ev_png_set_sRGB_gAMA_and_cHRM);
   ("sRGB (D60 sim.)", Ev_png_set_sRGB_gAMA_and_cHRM);
   ("out_srgbd60sim", Ev_png_set_sRGB_gAMA_and_cHRM);
   ("rrt_srgb", Ev_png_set_sRGB_gAMA_and_cHRM);
   ("srgb8", Ev_png_set_sRGB_gAMA_and_cHRM);
   ("Gamma1.8", Ev_png_set_gAMA (10 # 18));
   ("Gamma2.2", Ev_png_set_gAMA (10 # 22));
   ("vd8", Ev_png_set_gAMA (10 # 22));
   ("vd10", Ev_png_set_gAMA (10 # 22));
   ("vd16", Ev_png_set_gAMA (10 # 22));
   ("VD16", Ev_png_set_gAMA (10 # 22));
   ("Linear", Ev_png_set_gAMA 1);
   ("linear", Ev_png_set_gAMA 1);
   ("ACES2065-1", Ev_png_set_gAMA 1);
   ("aces", Ev_png_set_gAMA 1);
   ("lnf", Ev_png_set_gAMA 1);
   ("ln16", Ev_png_set_gAMA 1)]%string.

(** Lookup by exact string match. *)
Fixpoint table_lookup (name : string) (table : list (string * event))
  : option event :=
  match table with
  | [] => None
  | (key, e) :: table =>
      if String.eqb name key then Some e else table_lookup name table
  end.

(** ** Counting the calls of a trace *)

Definition is_open_file_ok (e : event) : bool :=
  match e with Ev_open_file _ true => true | _ => false end.

Definition is_fclose (e : event) : bool :=
  match e with Ev_fclose => true | _ => false end.

Definition is_create_write_struct_ok (e : event) : bool :=
  match e with Ev_png_create_write_struct true => true | _ => false end.

Definition is_create_info_struct_ok (e : event) : bool :=
  match e with Ev_png_create_info_struct true => true | _ => false end.

Definition is_destroy_write_struct (e : event) : bool :=
  match e with Ev_png_destroy_write_struct => true | _ => false end.

Definition is_write_end (e : event) : bool :=
  match e with Ev_png_write_end => true | _ => false end.

Definition is_message (e : event) : bool :=
  match e with Ev_setPersistentMessage _ => true | _ => false end.

Definition is_write_row (e : event) : bool :=
  match e with Ev_png_write_row _ _ => true | _ => false end.

(** How many calls of a trace satisfy [p]. *)
Definition count (p : event -> bool) (evs : list event) : nat :=
  length (List.filter p evs).

(** The calls of [encode] up to the first row, when the file and both
    handles could be made. *)
Definition preamble_events (self : WritePNGPlugin) (filename : string)
    (color : png_color_type) (bounds : OfxRectI) (pixelAspectRatio : float)
  : list event :=
  [Ev_open_file filename true;
   Ev_png_create_write_struct true;
   Ev_png_create_info_struct true;
   Ev_png_init_io;
   Ev_png_set_compression_level
     (Z.max (Z.min (_compressionLevel self) Z_BEST_COMPRESSION)
        Z_NO_COMPRESSION);
   Ev_png_set_compression_strategy (compression_strategy (_compression self));
   Ev_png_set_IHDR (x2 bounds - x1 bounds) (y2 bounds - y1 bounds)
     (sizeof_sample (pngDetph_of self) * 8) color;
   Ev_png_set_oFFs (x1 bounds) (y1 bounds);
   Ev_png_set_pHYs pixelAspectRatio;
   Ev_png_write_info;
   Ev_png_set_packing].

(** The calls [png_write_row] of rows [y], [y - 1], ... ([n] of them). *)
Definition row_events (scratch : list byte) (pngRowSize y : Z) (n : nat)
  : list event :=
  (fun i : nat =>
     Ev_png_write_row (y - Z.of_nat i)
       (scratch_row scratch pngRowSize (y - Z.of_nat i))) <$> seq 0 n.

(** ** Sample inputs *)

(** A world in which nothing fails. *)
Definition World_ok : World :=
  {| open_file_succeeds := fun _ => true;
     png_create_write_struct_succeeds := true;
     png_create_info_struct_succeeds := true;
     png_write_row_succeeds := fun _ => true |}.

Definition plugin_8bit (dither : bool) (colorspace : string)
  : WritePNGPlugin :=
  {| _compression := 0; _compressionLevel := 6; _bitdepth := 0;
     _ditherEnabled := dither; _ocio_outputColorspace := colorspace |}.

Definition plugin_16bit (dither : bool) (colorspace : string)
  : WritePNGPlugin :=
  {| _compression := 0; _compressionLevel := 6; _bitdepth := 1;
     _ditherEnabled := dither; _ocio_outputColorspace := colorspace |}.

(** The region of [w] by [h] pixels at the origin. *)
Definition region (w h : Z) : OfxRectI :=
  {| x1 := 0; y1 := 0; x2 := w; y2 := h |}.

(** The pixel (0.5, 0.25, 0.75, 1.0) of the spec's end-to-end scenario. *)
Definition rgba_pixel : list float :=
  Eval vm_compute in
    [F32.div (F32.of_Z 1) (F32.of_Z 2); F32.div (F32.of_Z 1) (F32.of_Z 4);
     F32.div (F32.of_Z 3) (F32.of_Z 4); F32.of_Z 1].

(** * Properties *)

(** ** Buffers *)

Section BufferLemmas.
Context {A : Type}.
Implicit Types (buf pre post l e : list A).

Lemma load_app_r pre l k :
  0 <= k -> load (pre ++ l) (Z.of_nat (length pre) + k) = load l k.
Proof.
  intros Hk. unfold load.
  destruct (Z.ltb_spec (Z.of_nat (length pre) + k) 0); [lia|].
  destruct (Z.ltb_spec k 0); [lia|].
  rewrite lookup_app_r by lia. f_equal. lia.
Qed.

Lemma store_app_r pre l k v :
  0 <= k ->
  store (pre ++ l) (Z.of_nat (length pre) + k) v = app pre <$> store l k v.
Proof.
  intros Hk. unfold store. rewrite load_app_r by exact Hk.
  destruct (load l k); simpl; [|reflexivity].
  replace (Z.to_nat (Z.of_nat (length pre) + k))
    with (length pre + Z.to_nat k)%nat by lia.
  now rewrite insert_app_r.
Qed.

Lemma swap_app_r pre l i j :
  0 <= i -> 0 <= j ->
  swap (pre ++ l) (Z.of_nat (length pre) + i) (Z.of_nat (length pre) + j)
  = app pre <$> swap l i j.
Proof.
  intros Hi Hj. unfold swap. rewrite !load_app_r by assumption.
  destruct (load l i) as [x|]; simpl; [|reflexivity].
  destruct (load l j) as [y|]; simpl; [|reflexivity].
  rewrite store_app_r by assumption.
  destruct (store l i y) as [l'|]; simpl; [|reflexivity].
  now rewrite store_app_r.
Qed.

(** One more than [swap_app_r]: the same prefix under a second swap. *)
Lemma swap_bind_app_r pre (m : option (list A)) i j :
  0 <= i -> 0 <= j ->
  (app pre <$> m) ≫=
    (fun buf => swap buf (Z.of_nat (length pre) + i)
                  (Z.of_nat (length pre) + j))
  = app pre <$> (m ≫= fun buf => swap buf i j).
Proof.
  intros Hi Hj. destruct m as [l|]; simpl; [|reflexivity].
  now apply swap_app_r.
Qed.

Lemma swap_app_r0 pre l j :
  0 <= j ->
  swap (pre ++ l) (Z.of_nat (length pre)) (Z.of_nat (length pre) + j)
  = app pre <$> swap l 0 (0 + j).
Proof.
  intros Hj. rewrite <- (Z.add_0_r (Z.of_nat (length pre))) at 1.
  now apply swap_app_r.
Qed.

Lemma swap_element_app_r sizeofT pre l :
  swap_element sizeofT (pre ++ l) (Z.of_nat (length pre))
  = app pre <$> swap_element sizeofT l 0.
Proof.
  unfold swap_element.
  destruct (sizeofT =? 2); [now apply swap_app_r0|].
  destruct (sizeofT =? 4).
  { rewrite swap_app_r0 by lia. now apply swap_bind_app_r. }
  destruct (sizeofT =? 8); [|reflexivity].
  rewrite swap_app_r0 by lia.
  destruct (swap l _ _) as [l1|]; simpl; [|reflexivity].
  rewrite swap_app_r by lia.
  destruct (swap l1 _ _) as [l2|]; simpl; [|reflexivity].
  rewrite swap_app_r by lia.
  destruct (swap l2 _ _) as [l3|]; simpl; [|reflexivity].
  now apply swap_app_r.
Qed.

Lemma swap_element_rev sizeofT e post :
  sizeofT = 2 \/ sizeofT = 4 \/ sizeofT = 8 ->
  length e = Z.to_nat sizeofT ->
  swap_element sizeofT (e ++ post) 0 = Some (rev e ++ post).
Proof.
  intros [-> | [-> | ->]] He.
  - destruct e as [|a [|b [|]]]; try discriminate He. reflexivity.
  - destruct e as [|a [|b [|c [|d [|]]]]]; try discriminate He.
    reflexivity.
  - destruct e as [|a [|b [|c [|d [|a' [|b' [|c' [|d' [|]]]]]]]]];
      try discriminate He.
    reflexivity.
Qed.

Lemma swap_endian_loop_spec sizeofT n : forall pre l,
  sizeofT = 2 \/ sizeofT = 4 \/ sizeofT = 8 ->
  (n * Z.to_nat sizeofT <= length l)%nat ->
  swap_endian_loop sizeofT n (Z.of_nat (length pre)) (pre ++ l)
  = Some (pre ++ reverse_each (Z.to_nat sizeofT) n l).
Proof.
  induction n as [|n IH]; intros pre l Hsz Hlen; simpl; [reflexivity|].
  simpl in Hlen.
  rewrite swap_element_app_r.
  rewrite <- (take_drop (Z.to_nat sizeofT) l) at 1.
  rewrite swap_element_rev
    by (try assumption; rewrite length_take; lia).
  simpl.
  replace (Z.of_nat (length pre) + sizeofT)
    with (Z.of_nat (length (pre ++ rev (take (Z.to_nat sizeofT) l)))).
  - rewrite app_assoc, IH by (try assumption; rewrite length_drop; lia).
    now rewrite <- app_assoc.
  - rewrite length_app, length_rev, length_take. lia.
Qed.

Lemma reverse_each_length (sz n : nat) : forall l,
  length (reverse_each sz n l) = length l.
Proof.
  induction n as [|n IH]; intros l; simpl; [reflexivity|].
  rewrite length_app, length_rev, IH, <- length_app.
  now rewrite take_drop.
Qed.

Lemma reverse_each_involutive (sz n : nat) : forall l,
  (n * sz <= length l)%nat ->
  reverse_each sz n (reverse_each sz n l) = l.
Proof.
  induction n as [|n IH]; intros l Hlen; simpl; [reflexivity|].
  simpl in Hlen.
  assert (Hrev : sz = length (rev (take sz l)))
    by (rewrite length_rev, length_take; lia).
  rewrite take_app_length' by exact Hrev.
  rewrite drop_app_length' by exact Hrev.
  rewrite rev_involutive, IH by (rewrite length_drop; lia).
  apply take_drop.
Qed.

Lemma swap_endian_spec sizeofT buf f len :
  sizeofT = 2 \/ sizeofT = 4 \/ sizeofT = 8 ->
  0 <= f -> 0 <= len -> f + len * sizeofT <= Z.of_nat (length buf) ->
  swap_endian sizeofT buf f len
  = Some (take (Z.to_nat f) buf
          ++ reverse_each (Z.to_nat sizeofT) (Z.to_nat len)
               (drop (Z.to_nat f) buf)).
Proof.
  intros Hsz Hf Hlen Hfit. unfold swap_endian.
  destruct (Z.ltb_spec len 0); [lia|].
  rewrite <- (take_drop (Z.to_nat f) buf) at 1.
  replace f with (Z.of_nat (length (take (Z.to_nat f) buf))) at 1
    by (rewrite length_take; nia).
  apply swap_endian_loop_spec; [assumption|].
  rewrite length_drop. nia.
Qed.

(** C8. Applying [swap_endian] twice to a buffer of [len] elements of 2,
    4 or 8 bytes gives the original byte sequence back; on such a buffer
    both applications are defined. *)
Theorem swap_endian_involution sizeofT buf f len :
  sizeofT = 2 \/ sizeofT = 4 \/ sizeofT = 8 ->
  0 <= f -> 0 <= len -> f + len * sizeofT <= Z.of_nat (length buf) ->
  exists buf',
    swap_endian sizeofT buf f len = Some buf'
    /\ swap_endian sizeofT buf' f len = Some buf.
Proof.
  intros Hsz Hf Hlen Hfit.
  eexists. split; [now apply swap_endian_spec|].
  assert (Htake : Z.to_nat f = length (take (Z.to_nat f) buf))
    by (rewrite length_take; nia).
  rewrite swap_endian_spec; try assumption.
  - rewrite take_app_length', drop_app_length' by exact Htake.
    rewrite reverse_each_involutive by (rewrite length_drop; nia).
    now rewrite take_drop.
  - rewrite length_app, reverse_each_length, <- length_app, take_drop.
    exact Hfit.
Qed.

End BufferLemmas.

Lemma swap_endian_involution_witness :
  exists buf',
    swap_endian 4 [1; 2; 3; 4; 5; 6; 7; 8; 9] 1 2 = Some buf'
    /\ swap_endian 4 buf' 1 2 = Some [1; 2; 3; 4; 5; 6; 7; 8; 9].
Proof.
  apply (swap_endian_involution 4 [1; 2; 3; 4; 5; 6; 7; 8; 9] 1 2);
    simpl; lia.
Defined.

(** ** The quantiser *)

Lemma quantise_range numvals v :
  1 <= numvals -> 0 <= quantise numvals v <= numvals - 1.
Proof.
  intros HL. unfold quantise.
  destruct (Qle_bool 0 v) eqn:H0; cbn [negb]; [|lia].
  destruct (Qle_bool 1 v) eqn:H1; [lia|].
  apply Qle_bool_iff in H0.
  assert (Hlt : (v < 1)%Q).
  { apply Qnot_le_lt. intros H. apply Qle_bool_iff in H. congruence. }
  assert (HL' : (0 <= inject_Z (numvals - 1))%Q)
    by (rewrite <- (Zle_Qle 0); lia).
  set (x := (v * inject_Z (numvals - 1) + (1 # 2))%Q).
  assert (Hx0 : (0 <= x)%Q).
  { unfold x. assert (0 <= v * inject_Z (numvals - 1))%Q
      by (apply Qmult_le_0_compat; assumption). lra. }
  assert (Hx1 : (x < inject_Z numvals)%Q).
  { unfold x.
    assert (v * inject_Z (numvals - 1) <= 1 * inject_Z (numvals - 1))%Q
      by (apply Qmult_le_compat_r; [lra | assumption]).
    replace numvals with (numvals - 1 + 1) at 2 by lia.
    rewrite inject_Z_plus. change (inject_Z 1) with 1%Q. lra. }
  split.
  - apply (Qfloor_resp_le 0 x) in Hx0. exact Hx0.
  - assert (Hf := Qfloor_le x).
    assert (inject_Z (Qfloor x) < inject_Z numvals)%Q by lra.
    rewrite <- Zlt_Qlt in H. lia.
Qed.

Lemma quantise_mono numvals v w :
  1 <= numvals -> (v <= w)%Q -> quantise numvals v <= quantise numvals w.
Proof.
  intros HL Hvw.
  assert (Hw := quantise_range numvals w HL).
  assert (Hv := quantise_range numvals v HL).
  unfold quantise in *.
  destruct (Qle_bool 0 v) eqn:Hv0; cbn [negb] in *; [|lia].
  apply Qle_bool_iff in Hv0.
  assert (Hw0 : Qle_bool 0 w = true) by (apply Qle_bool_iff; lra).
  rewrite Hw0 in *. cbn [negb] in *.
  destruct (Qle_bool 1 w) eqn:Hw1; [destruct (Qle_bool 1 v); lia|].
  destruct (Qle_bool 1 v) eqn:Hv1.
  - apply Qle_bool_iff in Hv1.
    assert (Qle_bool 1 w = true) by (apply Qle_bool_iff; lra). congruence.
  - apply Qfloor_resp_le.
    assert (v * inject_Z (numvals - 1) <= w * inject_Z (numvals - 1))%Q.
    { apply Qmult_le_compat_r; [assumption|].
      rewrite <- (Zle_Qle 0). lia. }
    lra.
Qed.

Lemma floatToInt_range numvals f :
  1 <= numvals -> 0 <= floatToInt numvals f <= numvals - 1.
Proof.
  intros HL. destruct f as [s|[|]| |s m e]; simpl; try lia;
    now apply quantise_range.
Qed.

(** *** The order of binary32 values and the order of the rationals *)

Lemma digits2_pos_bounds (m : positive) :
  2 ^ (Z.pos (digits2_pos m) - 1) <= Z.pos m < 2 ^ Z.pos (digits2_pos m).
Proof.
  induction m as [m IH|m IH|]; simpl digits2_pos.
  - rewrite Pos2Z.inj_succ. change (Z.pos m~1) with (2 * Z.pos m + 1).
    replace (Z.succ (Z.pos (digits2_pos m)) - 1)
      with (Z.succ (Z.pos (digits2_pos m) - 1)) by lia.
    rewrite !Z.pow_succ_r by lia. lia.
  - rewrite Pos2Z.inj_succ. change (Z.pos m~0) with (2 * Z.pos m).
    replace (Z.succ (Z.pos (digits2_pos m)) - 1)
      with (Z.succ (Z.pos (digits2_pos m) - 1)) by lia.
    rewrite !Z.pow_succ_r by lia. lia.
  - simpl. lia.
Qed.

Lemma bounded_mantissa m e :
  bounded F32.prec F32.emax m e = true ->
  Z.pos m < 2 ^ 24 /\ (-149 < e -> 2 ^ 23 <= Z.pos m).
Proof.
  unfold bounded, canonical_mantissa, fexp, emin, F32.prec, F32.emax.
  intros H. apply andb_prop in H as [Hc _]. apply Z.eqb_eq in Hc.
  assert (Hd := digits2_pos_bounds m).
  set (d := Z.pos (digits2_pos m)) in *.
  assert (Hd24 : d <= 24) by lia.
  split.
  - apply Z.lt_le_trans with (2 ^ d); [lia|].
    apply Z.pow_le_mono_r; lia.
  - intros He. assert (d = 24) by lia. subst d.
    replace 23 with (Z.pos (digits2_pos m) - 1) by lia. lia.
Qed.

Lemma Qpower2_pos (e : Z) : (0 < 2 ^ e)%Q.
Proof. apply Qpower_0_lt. reflexivity. Qed.

Lemma bounded_exponent m e :
  bounded F32.prec F32.emax m e = true -> -149 <= e.
Proof.
  unfold bounded, canonical_mantissa, fexp, emin, F32.prec, F32.emax.
  intros H. apply andb_prop in H as [Hc _]. apply Z.eqb_eq in Hc. lia.
Qed.

Lemma finite_lt_of_exponent m1 e1 m2 e2 :
  bounded F32.prec F32.emax m1 e1 = true ->
  bounded F32.prec F32.emax m2 e2 = true ->
  e1 < e2 ->
  (inject_Z (Z.pos m1) * 2 ^ e1 < inject_Z (Z.pos m2) * 2 ^ e2)%Q.
Proof.
  intros H1 H2 He.
  assert (He1 := bounded_exponent _ _ H1).
  apply bounded_mantissa in H1 as [Hm1 _].
  apply bounded_mantissa in H2 as [_ Hm2]. specialize (Hm2 ltac:(lia)).
  assert (Hpow : (2 ^ e2 == inject_Z (2 ^ (e2 - e1)) * 2 ^ e1)%Q).
  { rewrite Zpower_Qpower by lia. change (inject_Z 2) with 2%Q.
    rewrite <- Qpower_plus by discriminate.
    replace (e2 - e1 + e1) with e2 by lia. reflexivity. }
  rewrite Hpow, Qmult_assoc, <- inject_Z_mult.
  apply Qmult_lt_compat_r; [apply Qpower2_pos|].
  rewrite <- Zlt_Qlt.
  assert (2 ^ 1 <= 2 ^ (e2 - e1)) by (apply Z.pow_le_mono_r; lia).
  change (2 ^ 1) with 2 in *. change (2 ^ 24) with 16777216 in *.
  change (2 ^ 23) with 8388608 in *. nia.
Qed.

Lemma finite_compare_mantissa m1 m2 e :
  (inject_Z (Z.pos m1) * 2 ^ e ?= inject_Z (Z.pos m2) * 2 ^ e)%Q
  = Pos.compare_cont Eq m1 m2.
Proof.
  assert (Hp := Qpower2_pos e).
  change (Pos.compare_cont Eq m1 m2) with (Pos.compare m1 m2).
  destruct (Pos.compare_spec m1 m2) as [->|H|H].
  - apply (proj1 (Qeq_alt _ _)). reflexivity.
  - apply (proj1 (Qlt_alt _ _)), Qmult_lt_compat_r; [exact Hp|].
    rewrite <- Zlt_Qlt. lia.
  - apply (proj1 (Qgt_alt _ _)), Qmult_lt_compat_r; [exact Hp|].
    rewrite <- Zlt_Qlt. lia.
Qed.

Lemma Qcompare_opp (x y : Q) : (- x ?= - y)%Q = CompOpp (x ?= y)%Q.
Proof.
  destruct (x ?= y)%Q eqn:H; cbn [CompOpp].
  - apply Qeq_alt in H. apply (proj1 (Qeq_alt _ _)). now rewrite H.
  - apply Qlt_alt in H. apply (proj1 (Qgt_alt _ _)). lra.
  - apply Qgt_alt in H. apply (proj1 (Qlt_alt _ _)). lra.
Qed.

(** On valid finite values [SFcompare] is the comparison of the rationals
    they denote. *)
Lemma compare_to_Q f g :
  F32.valid f = true -> F32.valid g = true ->
  is_real f = true -> is_real g = true ->
  SFcompare f g = Some (F32.to_Q f ?= F32.to_Q g)%Q.
Proof.
  intros Vf Vg Rf Rg.
  destruct f as [sf| | |sf mf ef]; try discriminate Rf;
    destruct g as [sg| | |sg mg eg]; try discriminate Rg;
    unfold SFcompare, F32.to_Q; simpl in Vf, Vg.
  - reflexivity.
  - assert (Hg : (0 < inject_Z (Z.pos mg) * 2 ^ eg)%Q)
      by (apply Qmult_lt_0_compat; [reflexivity | apply Qpower2_pos]).
    f_equal. symmetry. destruct sg; [apply (proj1 (Qgt_alt _ _)) | apply (proj1 (Qlt_alt _ _))]; lra.
  - assert (Hf : (0 < inject_Z (Z.pos mf) * 2 ^ ef)%Q)
      by (apply Qmult_lt_0_compat; [reflexivity | apply Qpower2_pos]).
    f_equal. symmetry. destruct sf; [apply (proj1 (Qlt_alt _ _)) | apply (proj1 (Qgt_alt _ _))]; lra.
  - assert (Hf : (0 < inject_Z (Z.pos mf) * 2 ^ ef)%Q)
      by (apply Qmult_lt_0_compat; [reflexivity | apply Qpower2_pos]).
    assert (Hg : (0 < inject_Z (Z.pos mg) * 2 ^ eg)%Q)
      by (apply Qmult_lt_0_compat; [reflexivity | apply Qpower2_pos]).
    assert (Hpos :
      (inject_Z (Z.pos mf) * 2 ^ ef ?= inject_Z (Z.pos mg) * 2 ^ eg)%Q
      = match ef ?= eg with
        | Eq => Pos.compare_cont Eq mf mg
        | Lt => Lt
        | Gt => Gt
        end).
    { destruct (Z.compare_spec ef eg) as [->|Hlt|Hgt].
      - apply finite_compare_mantissa.
      - now apply (proj1 (Qlt_alt _ _)), finite_lt_of_exponent.
      - apply (proj1 (Qgt_alt _ _)), finite_lt_of_exponent; assumption || lia. }
    f_equal. symmetry.
    destruct sf, sg.
    + rewrite Qcompare_opp, Hpos. now destruct (ef ?= eg).
    + apply (proj1 (Qlt_alt _ _)). lra.
    + apply (proj1 (Qgt_alt _ _)). lra.
    + exact Hpos.
Qed.

Lemma leb_to_Q f g :
  F32.valid f = true -> F32.valid g = true ->
  is_real f = true -> is_real g = true ->
  F32.leb f g = true -> (F32.to_Q f <= F32.to_Q g)%Q.
Proof.
  intros Vf Vg Rf Rg. unfold F32.leb, SFleb.
  rewrite compare_to_Q by assumption.
  intros H. apply (proj2 (Qle_alt _ _)). intros Hgt. now rewrite Hgt in H.
Qed.

Lemma ltb_to_Q f g :
  F32.valid f = true -> F32.valid g = true ->
  is_real f = true -> is_real g = true ->
  F32.ltb f g = true -> (F32.to_Q f < F32.to_Q g)%Q.
Proof.
  intros Vf Vg Rf Rg. unfold F32.ltb, SFltb.
  rewrite compare_to_Q by assumption.
  intros H. apply (proj2 (Qlt_alt _ _)). now destruct (_ ?= _)%Q.
Qed.

Lemma to_Q_one : (F32.to_Q F32.one == 1)%Q.
Proof. reflexivity. Qed.

Lemma floatToInt_mono numvals f g :
  1 <= numvals ->
  F32.valid f = true -> F32.valid g = true -> F32.leb f g = true ->
  floatToInt numvals f <= floatToInt numvals g.
Proof.
  intros HL Vf Vg Hle.
  assert (Hf := floatToInt_range numvals f HL).
  assert (Hg := floatToInt_range numvals g HL).
  destruct (is_real f) eqn:Rf, (is_real g) eqn:Rg.
  - assert (Hq := leb_to_Q f g Vf Vg Rf Rg Hle).
    destruct f; try discriminate Rf; destruct g; try discriminate Rg;
      now apply quantise_mono.
  - destruct g as [|[|]| |]; try discriminate Rg; simpl in *; try lia;
      destruct f; discriminate.
  - destruct f as [|[|]| |]; try discriminate Rf; simpl in *; try lia;
      destruct g as [|[|]| |]; discriminate.
  - destruct f as [|[|]| |]; try discriminate Rf;
      destruct g as [|[|]| |]; try discriminate Rg;
      simpl in *; try lia; discriminate.
Qed.

(** C5. The quantiser at 256 and at 65536 levels: results within
    [[0, numvals - 1]] for every float; 0.0 goes to 0 and 1.0 to
    [numvals - 1]; it is monotonic for the IEEE order; values below 0 are
    clamped to 0 and values at or above 1 to [numvals - 1]; a value in
    between goes to the integer nearest to [value * (numvals - 1)] (half
    up), not to its truncation. *)
Theorem quantiser_contract (numvals : Z) :
  numvals = 256 \/ numvals = 65536 ->
  (forall f, 0 <= floatToInt numvals f <= numvals - 1)
  /\ floatToInt numvals F32.zero = 0
  /\ floatToInt numvals F32.one = numvals - 1
  /\ (forall f g,
        F32.valid f = true -> F32.valid g = true -> F32.leb f g = true ->
        floatToInt numvals f <= floatToInt numvals g)
  /\ (forall f, F32.ltb f F32.zero = true -> floatToInt numvals f = 0)
  /\ (forall f,
        F32.valid f = true -> F32.leb F32.one f = true ->
        floatToInt numvals f = numvals - 1)
  /\ (forall f,
        F32.valid f = true ->
        F32.leb F32.zero f = true -> F32.ltb f F32.one = true ->
        let x := (F32.to_Q f * inject_Z (numvals - 1))%Q in
        (x - (1 # 2) < inject_Z (floatToInt numvals f)
         /\ inject_Z (floatToInt numvals f) <= x + (1 # 2))%Q).
Proof.
  intros HL. assert (HL1 : 1 <= numvals) by lia.
  split; [intros f; now apply floatToInt_range|].
  split; [now destruct HL as [-> | ->]|].
  split; [now destruct HL as [-> | ->]|].
  split; [intros f g; now apply floatToInt_mono|].
  split; [|split].
  - intros [| [|] | | [|] m e]; try discriminate; intros _; try reflexivity.
    unfold floatToInt, quantise, F32.to_Q.
    assert (H : (0 < inject_Z (Z.pos m) * 2 ^ e)%Q)
      by (apply Qmult_lt_0_compat; [reflexivity | apply Qpower2_pos]).
    destruct (Qle_bool 0 _) eqn:H0; [|reflexivity].
    apply Qle_bool_iff in H0. lra.
  - intros f Vf Hle.
    destruct (is_real f) eqn:Rf.
    + assert (Hq := leb_to_Q F32.one f eq_refl Vf eq_refl Rf Hle).
      rewrite to_Q_one in Hq.
      assert (H0 : Qle_bool 0 (F32.to_Q f) = true)
        by (apply Qle_bool_iff; lra).
      assert (H1 : Qle_bool 1 (F32.to_Q f) = true)
        by (now apply Qle_bool_iff).
      destruct f; try discriminate Rf; unfold floatToInt, quantise;
        now rewrite H0, H1.
    + destruct f as [|[|]| |]; try discriminate Rf; try discriminate Hle.
      reflexivity.
  - intros f Vf Hle Hlt x.
    destruct (is_real f) eqn:Rf.
    + assert (Hq0 := leb_to_Q F32.zero f eq_refl Vf eq_refl Rf Hle).
      change (F32.to_Q F32.zero) with 0%Q in Hq0.
      assert (Hq1 := ltb_to_Q f F32.one Vf eq_refl Rf eq_refl Hlt).
      rewrite to_Q_one in Hq1.
      assert (E : floatToInt numvals f
                  = Qfloor (F32.to_Q f * inject_Z (numvals - 1) + (1 # 2))).
      { assert (B0 : Qle_bool 0 (F32.to_Q f) = true)
          by (now apply Qle_bool_iff).
        assert (B1 : Qle_bool 1 (F32.to_Q f) = false).
        { destruct (Qle_bool 1 (F32.to_Q f)) eqn:B; [|reflexivity].
          apply Qle_bool_iff in B. lra. }
        destruct f; try discriminate Rf; unfold floatToInt, quantise;
          now rewrite B0, B1. }
      rewrite E. subst x.
      assert (Hfl := Qlt_floor
                (F32.to_Q f * inject_Z (numvals - 1) + (1 # 2))).
      rewrite inject_Z_plus in Hfl. change (inject_Z 1) with 1%Q in Hfl.
      assert (Hfl' := Qfloor_le
                (F32.to_Q f * inject_Z (numvals - 1) + (1 # 2))).
      split; [lra | exact Hfl'].
    + destruct f as [|[|]| |]; try discriminate Rf; discriminate.
Qed.

Lemma quantiser_contract_witness :
  floatToInt 256 F32.zero = 0
  /\ floatToInt 256 F32.half <= floatToInt 256 F32.one.
Proof.
  destruct (quantiser_contract 256 (or_introl eq_refl))
    as (_ & Hzero & _ & Hmono & _).
  split; [exact Hzero | apply Hmono; reflexivity].
Defined.

(** ** The ditherer *)

(** *** What the loops write *)

Lemma float_index_aligned (i : nat) :
  float_index (sizeof_float * Z.of_nat i) = Some i.
Proof.
  unfold float_index, sizeof_float.
  destruct (Z.leb_spec 0 (4 * Z.of_nat i)); [|lia].
  rewrite Z.mul_comm, Z.mod_mul by lia. simpl.
  rewrite Z.div_mul by lia. now rewrite Nat2Z.id.
Qed.

Section DitherLoops.
Variables (alpha_channel : Z) (amplitude : float).

Lemma dither_channels_spec n : forall c (i : nat) s data,
  (i + n <= length data)%nat ->
  exists data',
    dither_channels n c alpha_channel amplitude
      (sizeof_float * Z.of_nat i) s data
    = Some (Nat.iter n next_hash s, data')
    /\ length data' = length data
    /\ (forall j, (j < i \/ i + n <= j)%nat -> data' !! j = data !! j)
    /\ (forall m, (m < n)%nat ->
          exists d,
            data !! (i + m)%nat = Some d
            /\ data' !! (i + m)%nat
               = Some (dithered_sample alpha_channel amplitude (c + Z.of_nat m)
                         (bc (bjmix (Nat.iter m next_hash s))) d)).
Proof.
  induction n as [|n IH]; intros c i s data Hlen.
  { exists data. repeat split; intros; lia || reflexivity. }
  cbn [dither_channels].
  replace (sizeof_float * Z.of_nat i + sizeof_float)
    with (sizeof_float * Z.of_nat (S i)) by (unfold sizeof_float; lia).
  fold (next_hash s).
  destruct (lookup_lt_is_Some_2 data i ltac:(lia)) as [d Hd].
  assert (Hiter : forall m, Nat.iter m next_hash (next_hash s)
                            = Nat.iter (S m) next_hash s)
    by (intros m; now rewrite Nat.iter_succ_r).
  destruct (Z.eqb_spec c alpha_channel) as [Hc | Hc].
  - destruct (IH (c + 1) (S i) (next_hash s) data ltac:(lia))
      as (data' & Hrun & Hlen' & Hframe & Hval).
    exists data'. rewrite Hrun, Hiter.
    split; [reflexivity|]. split; [exact Hlen'|]. split.
    + intros j Hj. apply Hframe. lia.
    + intros [|m] Hm.
      * exists d. rewrite Nat.add_0_r, Z.add_0_r. split; [exact Hd|].
        rewrite Hframe by lia. unfold dithered_sample.
        destruct (Z.eqb_spec c alpha_channel); [exact Hd | contradiction].
      * destruct (Hval m ltac:(lia)) as (d' & Hd' & Hd'').
        exists d'. replace (i + S m)%nat with (S i + m)%nat by lia.
        split; [exact Hd'|]. rewrite Hd'', Hiter. do 2 f_equal. lia.
  - unfold load_float, store_float. rewrite float_index_aligned.
    cbn [mbind option_bind]. rewrite Hd. cbn [mbind option_bind].
    set (d1 := F32.add d (perturbation amplitude (bc (bjmix s)))).
    destruct (IH (c + 1) (S i) (next_hash s) (<[i := d1]> data)
                ltac:(rewrite length_insert; lia))
      as (data' & Hrun & Hlen' & Hframe & Hval).
    exists data'. rewrite Hrun, Hiter.
    split; [reflexivity|].
    split; [now rewrite Hlen', length_insert|]. split.
    + intros j Hj. rewrite Hframe by lia.
      apply list_lookup_insert_ne. lia.
    + intros [|m] Hm.
      * exists d. rewrite Nat.add_0_r, Z.add_0_r. split; [exact Hd|].
        rewrite Hframe by lia.
        rewrite list_lookup_insert_eq by lia. unfold dithered_sample.
        destruct (Z.eqb_spec c alpha_channel); [contradiction | reflexivity].
      * destruct (Hval m ltac:(lia)) as (d' & Hd' & Hd'').
        exists d'. replace (i + S m)%nat with (S i + m)%nat by lia.
        rewrite list_lookup_insert_ne in Hd' by lia.
        split; [exact Hd'|]. rewrite Hd'', Hiter. do 2 f_equal. lia.
Qed.

Variable nchannels : Z.
Variable k : nat.
Hypothesis channels_fit : (Z.to_nat nchannels <= k)%nat.

Lemma dither_pixels_spec n : forall (i : nat) s data,
  ((1 <= n)%nat ->
   (i + (n - 1) * k + Z.to_nat nchannels <= length data)%nat) ->
  exists data',
    dither_pixels n nchannels alpha_channel amplitude
      (sizeof_float * Z.of_nat k) (sizeof_float * Z.of_nat i) s data
    = Some (Nat.iter (n * Z.to_nat nchannels) next_hash s, data')
    /\ length data' = length data
    /\ (forall j,
          (forall x c, (x < n)%nat -> (c < Z.to_nat nchannels)%nat ->
                       j <> (i + x * k + c)%nat) ->
          data' !! j = data !! j)
    /\ (forall x c, (x < n)%nat -> (c < Z.to_nat nchannels)%nat ->
          exists d,
            data !! (i + x * k + c)%nat = Some d
            /\ data' !! (i + x * k + c)%nat
               = Some (dithered_sample alpha_channel amplitude (Z.of_nat c)
                         (bc (bjmix
                                (Nat.iter (x * Z.to_nat nchannels + c)
                                   next_hash s)))
                         d)).
Proof.
  induction n as [|n IH]; intros i s data Hlen.
  { exists data. repeat split; intros; lia || reflexivity. }
  cbn [dither_pixels].
  destruct (dither_channels_spec (Z.to_nat nchannels) 0 i s data
              ltac:(specialize (Hlen ltac:(lia)); nia))
    as (data1 & Hrun1 & Hlen1 & Hframe1 & Hval1).
  rewrite Hrun1. cbn [mbind option_bind].
  replace (sizeof_float * Z.of_nat i + sizeof_float * Z.of_nat k)
    with (sizeof_float * Z.of_nat (i + k)) by (unfold sizeof_float; lia).
  destruct (IH (i + k)%nat (Nat.iter (Z.to_nat nchannels) next_hash s) data1)
    as (data' & Hrun & Hlen' & Hframe & Hval).
  { intros Hn. rewrite Hlen1. specialize (Hlen ltac:(lia)).
    replace (S n - 1)%nat with (S (n - 1)) in Hlen by lia. nia. }
  exists data'. rewrite Hrun, <- Nat.iter_add.
  split; [do 3 f_equal; lia|].
  split; [congruence|]. split.
  - intros j Hj. rewrite Hframe, Hframe1.
    + reflexivity.
    + destruct (Nat.lt_ge_cases j i) as [|Hge]; [now left | right].
      destruct (Nat.lt_ge_cases j (i + Z.to_nat nchannels)) as [Hlt|];
        [|assumption].
      exfalso. apply (Hj 0%nat (j - i)%nat); lia.
    + intros x c Hx Hc. specialize (Hj (S x) c ltac:(lia) Hc). lia.
  - intros [|x] c Hx Hc.
    + destruct (Hval1 c Hc) as (d & Hd & Hd').
      exists d. replace (i + 0 * k + c)%nat with (i + c)%nat by lia.
      split; [exact Hd|]. rewrite Hframe.
      * rewrite Hd'. rewrite Z.add_0_l. reflexivity.
      * intros x' c' Hx' Hc'. nia.
    + destruct (Hval x c ltac:(lia) Hc) as (d & Hd & Hd').
      exists d. replace (i + S x * k + c)%nat with (i + k + x * k + c)%nat
        by lia.
      rewrite Hframe1 in Hd by (right; nia).
      split; [exact Hd|]. rewrite Hd', <- Nat.iter_add.
      replace (x * Z.to_nat nchannels + c + Z.to_nat nchannels)%nat
        with (S x * Z.to_nat nchannels + c)%nat by lia.
      reflexivity.
Qed.

End DitherLoops.

(** *** Which samples the ditherer can reach *)

Lemma store_float_inv data off v data' :
  store_float data off v = Some data' ->
  exists i : nat, off = sizeof_float * Z.of_nat i /\ data' = <[i := v]> data.
Proof.
  unfold store_float, float_index, sizeof_float.
  destruct (Z.leb_spec 0 off); [|discriminate].
  destruct (Z.eqb_spec (off mod 4) 0) as [Hmod|]; [|discriminate].
  cbn [andb mbind option_bind].
  destruct (data !! Z.to_nat (off / 4)); [|discriminate].
  intros [= <-]. exists (Z.to_nat (off / 4)). split; [|reflexivity].
  rewrite Z2Nat.id by (apply Z.div_pos; lia).
  rewrite (Z.div_mod off 4) at 1 by lia. lia.
Qed.

Section DitherFrame.
Variables (alpha_channel : Z) (amplitude : float).

Lemma dither_channels_frame n : forall c val s data s' data',
  dither_channels n c alpha_channel amplitude val s data = Some (s', data') ->
  length data' = length data
  /\ forall j : nat,
       sizeof_float * Z.of_nat j < val
       \/ val + sizeof_float * Z.of_nat n <= sizeof_float * Z.of_nat j ->
       data' !! j = data !! j.
Proof.
  unfold sizeof_float.
  induction n as [|n IH]; intros c val s data s' data'; cbn [dither_channels].
  { intros [= <- <-]. split; reflexivity. }
  destruct (c =? alpha_channel).
  - intros H. apply IH in H as [Hlen Hframe].
    split; [exact Hlen|]. intros j Hj. apply Hframe.
    unfold sizeof_float. lia.
  - destruct (load_float data val) as [d|]; [|discriminate].
    cbn [mbind option_bind].
    destruct (store_float data val _) as [data1|] eqn:Hstore;
      [|discriminate].
    apply store_float_inv in Hstore as (i & Hi & ->).
    cbn [mbind option_bind].
    intros H. apply IH in H as [Hlen Hframe].
    split; [now rewrite Hlen, length_insert|].
    intros j Hj. rewrite Hframe by (unfold sizeof_float in *; lia).
    apply list_lookup_insert_ne. unfold sizeof_float in *. lia.
Qed.

Variables (nchannels xstride : Z).
Hypothesis nchannels_nonneg : 0 <= nchannels.
Hypothesis xstride_nonneg : 0 <= xstride.

Lemma dither_pixels_frame n : forall pixel s data s' data',
  dither_pixels n nchannels alpha_channel amplitude xstride pixel s data
  = Some (s', data') ->
  length data' = length data
  /\ forall j : nat,
       sizeof_float * Z.of_nat j < pixel
       \/ pixel + (Z.of_nat n - 1) * xstride + sizeof_float * nchannels
          <= sizeof_float * Z.of_nat j ->
       data' !! j = data !! j.
Proof.
  unfold sizeof_float.
  induction n as [|n IH]; intros pixel s data s' data'; cbn [dither_pixels].
  { intros [= <- <-]. split; reflexivity. }
  destruct (dither_channels _ _ _ _ _ _ _) as [[s1 data1]|] eqn:Hch;
    [|discriminate].
  cbn [mbind option_bind].
  apply dither_channels_frame in Hch as [Hlen1 Hframe1].
  unfold sizeof_float in Hframe1. rewrite Z2Nat.id in Hframe1 by assumption.
  intros H. destruct n as [|n].
  - cbn in H. injection H as <- <-. split; [exact Hlen1|].
    intros j Hj. apply Hframe1. lia.
  - apply IH in H as [Hlen Hframe]. split; [congruence|].
    intros j Hj.
    assert (0 <= Z.of_nat n * xstride) by (apply Z.mul_nonneg_nonneg; lia).
    rewrite Hframe by lia. apply Hframe1. lia.
Qed.

Lemma dither_rows_frame width ystride ditherseed n :
  forall y scanline data data',
  dither_rows n y scanline nchannels width xstride ystride amplitude
    alpha_channel ditherseed data = Some data' ->
  length data' = length data
  /\ forall j : nat,
       (width - 1) * xstride + sizeof_float * nchannels
       <= sizeof_float * Z.of_nat j ->
       data' !! j = data !! j.
Proof.
  induction n as [|n IH]; intros y scanline data data'; cbn [dither_rows].
  { intros [= <-]. split; reflexivity. }
  destruct (dither_pixels _ _ _ _ _ _ _ _) as [[s1 data1]|] eqn:Hpx;
    [|discriminate].
  cbn [mbind option_bind].
  intros H. apply IH in H as [Hlen Hframe].
  destruct (Z.to_nat width) as [|w] eqn:Hw.
  - cbn in Hpx. injection Hpx as <- <-. split; [exact Hlen | exact Hframe].
  - apply dither_pixels_frame in Hpx as [Hlen1 Hframe1].
    split; [congruence|].
    intros j Hj. rewrite Hframe by exact Hj. apply Hframe1. right.
    replace (Z.of_nat (S w)) with width by lia. lia.
Qed.

End DitherFrame.

(** *** The hash words are 32-bit *)

Lemma wrap32_range z : in_uint32 (UInt32.wrap32 z).
Proof. apply Z.mod_pos_bound. reflexivity. Qed.

Lemma lxor_range a b : in_uint32 a -> in_uint32 b -> in_uint32 (Z.lxor a b).
Proof.
  intros [Ha Ha'] [Hb Hb']. unfold in_uint32.
  assert (H0 : 0 <= Z.lxor a b) by (apply Z.lxor_nonneg; tauto).
  split; [exact H0|].
  destruct (Z.eq_dec (Z.lxor a b) 0) as [->|Hne]; [reflexivity|].
  apply Z.log2_lt_pow2; [lia|].
  pose proof (Z.log2_lxor a b Ha Hb) as Hlog.
  assert (Z.log2 a < 32).
  { destruct (Z.eq_dec a 0) as [->|]; [simpl; lia|].
    apply Z.log2_lt_pow2; lia. }
  assert (Z.log2 b < 32).
  { destruct (Z.eq_dec b 0) as [->|]; [simpl; lia|].
    apply Z.log2_lt_pow2; lia. }
  lia.
Qed.

Lemma lor_range a b : in_uint32 a -> in_uint32 b -> in_uint32 (Z.lor a b).
Proof.
  intros [Ha Ha'] [Hb Hb']. unfold in_uint32.
  assert (H0 : 0 <= Z.lor a b) by (apply Z.lor_nonneg; tauto).
  split; [exact H0|].
  destruct (Z.eq_dec (Z.lor a b) 0) as [->|Hne]; [reflexivity|].
  apply Z.log2_lt_pow2; [lia|].
  rewrite Z.log2_lor by assumption.
  assert (Z.log2 a < 32).
  { destruct (Z.eq_dec a 0) as [->|]; [simpl; lia|].
    apply Z.log2_lt_pow2; lia. }
  assert (Z.log2 b < 32).
  { destruct (Z.eq_dec b 0) as [->|]; [simpl; lia|].
    apply Z.log2_lt_pow2; lia. }
  lia.
Qed.

Lemma rotl32_range x k :
  in_uint32 x -> 0 <= k <= 32 -> in_uint32 (UInt32.rotl32 x k).
Proof.
  intros [Hx Hx'] Hk. unfold UInt32.rotl32.
  apply lor_range; [apply wrap32_range|].
  rewrite Z.shiftr_div_pow2 by lia. split.
  - apply Z.div_pos; [lia | apply Z.pow_pos_nonneg; lia].
  - apply Z.le_lt_trans with x; [|exact Hx'].
    apply Z.div_le_upper_bound; [apply Z.pow_pos_nonneg; lia|].
    pose proof (Z.pow_pos_nonneg 2 (32 - k) ltac:(lia) ltac:(lia)). nia.
Qed.

Lemma bjmix_range s : uint32_state s -> uint32_state (bjmix s).
Proof.
  destruct s as [a b c]. intros (Ha & Hb & Hc). cbn [ba bb bc] in *.
  unfold bjmix, UInt32.add, UInt32.sub.
  split; [|split]; cbn [ba bb bc];
    repeat first [ apply wrap32_range
                 | apply lxor_range
                 | apply rotl32_range; [|lia]
                 | assumption ].
Qed.

Lemma next_hash_range s : uint32_state s -> uint32_state (next_hash s).
Proof.
  intros H. apply bjmix_range in H as (Ha & Hb & Hc).
  unfold next_hash, next_sample, UInt32.add.
  split; [exact Ha|]. split; [exact Hb|]. apply wrap32_range.
Qed.

Lemma hash_word_range y ditherseed n : in_uint32 (hash_word y ditherseed n).
Proof.
  unfold hash_word. apply bjmix_range.
  induction n as [|n IH]; [|now apply next_hash_range].
  split; [apply wrap32_range|]. split; [apply wrap32_range|].
  cbn. unfold in_uint32. lia.
Qed.

(** *** The float made of a hash word *)

Lemma Zdigits2_pos m : Zdigits2 (Z.pos m) = Z.pos (digits2_pos m).
Proof. reflexivity. Qed.

(** Rounding a mantissa of 24 digits leaves it as it is. *)
Lemma binary_round_aux_canonical s m e :
  Z.pos (digits2_pos m) = 24 -> -149 <= e <= 104 ->
  binary_round_aux 24 128 s (Z.pos m) e loc_Exact = S754_finite s m e.
Proof.
  intros Hd He.
  unfold binary_round_aux, shr_fexp, fexp, emin.
  rewrite Zdigits2_pos, Hd.
  replace (Z.max (24 + e - 24) (3 - 128 - 24) - e) with 0 by lia.
  cbn [shr shr_record_of_loc loc_of_shr_record shr_m round_nearest_even].
  rewrite Zdigits2_pos, Hd.
  replace (Z.max (24 + e - 24) (3 - 128 - 24) - e) with 0 by lia.
  cbn [shr shr_record_of_loc shr_m].
  destruct (Z.leb_spec e (128 - 24)); [reflexivity | lia].
Qed.

Lemma div_eucl_exact a b q :
  0 < b -> a = b * q -> Z.div_eucl a b = (q, 0).
Proof.
  intros Hb ->.
  rewrite (surjective_pairing (Z.div_eucl (b * q) b)).
  change (fst (Z.div_eucl (b * q) b)) with (b * q / b).
  change (snd (Z.div_eucl (b * q) b)) with ((b * q) mod b).
  rewrite Z.mul_comm, Z.div_mul, Z.mod_mul by lia. reflexivity.
Qed.

(** Dividing by [float(2^32 - 1)], which is [2^32], moves the exponent. *)
Lemma div_uint32_max m e :
  Z.pos (digits2_pos m) = 24 -> -23 <= e <= 9 ->
  F32.div (S754_finite false m e) uint32_max_f = S754_finite false m (e - 32).
Proof.
  intros Hd He.
  unfold F32.div, SFdiv, uint32_max_f, SFdiv_core_binary, fexp, emin,
    F32.prec, F32.emax.
  rewrite Zdigits2_pos, Hd.
  change (Zdigits2 8388608) with 24.
  replace (Z.min (Z.max (24 + e - (24 + 9) - 24) (3 - 128 - 24)) (e - 9))
    with (e - 33) by lia.
  replace (e - 9 - (e - 33)) with 24 by lia.
  cbn [xorb].
  rewrite (div_eucl_exact (Z.shiftl (Z.pos m) 24) 8388608 (Z.pos m~0)).
  - change (new_location 8388608 0) with loc_Exact.
    unfold binary_round_aux, shr_fexp, fexp, emin.
    rewrite Zdigits2_pos. cbn [digits2_pos]. rewrite Pos2Z.inj_succ, Hd.
    replace (Z.max (Z.succ 24 + (e - 33) - 24) (3 - 128 - 24) - (e - 33))
      with 1 by lia.
    cbn [shr shr_record_of_loc SpecFloat.iter_pos shr_1 orb
         loc_of_shr_record shr_m round_nearest_even].
    rewrite Zdigits2_pos, Hd.
    replace (Z.max (24 + (e - 33 + 1) - 24) (3 - 128 - 24) - (e - 33 + 1))
      with 0 by lia.
    cbn [shr shr_record_of_loc shr_m].
    destruct (Z.leb_spec (e - 33 + 1) (128 - 24)); [|lia].
    f_equal. lia.
  - reflexivity.
  - rewrite Z.shiftl_mul_pow2 by lia. change (2 ^ 24) with 16777216.
    change (Z.pos m~0) with (2 * Z.pos m). lia.
Qed.

Lemma digits2_pos_unique (m : positive) (n : Z) :
  2 ^ (n - 1) <= Z.pos m < 2 ^ n -> 1 <= n -> Z.pos (digits2_pos m) = n.
Proof.
  intros Hn Hn1. pose proof (digits2_pos_bounds m) as Hd.
  set (d := Z.pos (digits2_pos m)) in *.
  assert (Hd1 : 1 <= d) by (unfold d; lia).
  destruct (Z.lt_trichotomy d n) as [Hlt | [Heq | Hgt]]; [|exact Heq|].
  - assert (2 ^ d <= 2 ^ (n - 1)) by (apply Z.pow_le_mono_r; lia). lia.
  - assert (2 ^ n <= 2 ^ (d - 1)) by (apply Z.pow_le_mono_r; lia). lia.
Qed.

Lemma iter_pos_Pos_iter {A : Type} (f : A -> A) (k : positive) : forall x,
  SpecFloat.iter_pos f k x = Pos.iter f x k.
Proof.
  induction k as [k IH|k IH|]; intros x; simpl.
  - now rewrite !IH, <- !Pos.iter_swap.
  - now rewrite !IH.
  - reflexivity.
Qed.

Lemma shr_1_m mrs : 0 <= shr_m mrs -> shr_m (shr_1 mrs) = shr_m mrs / 2.
Proof.
  destruct mrs as [m r s]. cbn [shr_m]. intros Hm.
  destruct m as [|[p|p|]|p]; cbn [shr_1 shr_m]; try lia.
  - reflexivity.
  - change (Z.pos p~1) with (2 * Z.pos p + 1).
    apply Z.div_unique with 1; lia.
  - change (Z.pos p~0) with (2 * Z.pos p).
    apply Z.div_unique with 0; lia.
  - reflexivity.
Qed.

Lemma shr_iter_m (k : positive) mrs :
  0 <= shr_m mrs ->
  shr_m (SpecFloat.iter_pos shr_1 k mrs) = shr_m mrs / 2 ^ Z.pos k.
Proof.
  intros Hm. rewrite iter_pos_Pos_iter.
  induction k as [|k IH] using Pos.peano_ind.
  - simpl Pos.iter. rewrite shr_1_m by exact Hm. reflexivity.
  - rewrite Pos.iter_succ, shr_1_m.
    + rewrite IH, Pos2Z.inj_succ, Z.pow_succ_r by lia.
      rewrite Z.div_div by (try apply Z.pow_pos_nonneg; lia).
      f_equal. lia.
    + rewrite IH. apply Z.div_pos; [exact Hm|].
      apply Z.pow_pos_nonneg; lia.
Qed.

Lemma round_nearest_even_bounds q l :
  q <= round_nearest_even q l <= q + 1.
Proof.
  destruct l as [|[| |]]; cbn [round_nearest_even]; try lia.
  destruct (Z.even q); lia.
Qed.

Lemma digits2_pos_shift (p k : positive) :
  Z.pos (digits2_pos (Pos.iter xO p k)) = Z.pos (digits2_pos p) + Z.pos k.
Proof.
  induction k as [|k IH] using Pos.peano_ind.
  - simpl. lia.
  - rewrite Pos.iter_succ. cbn [digits2_pos].
    rewrite Pos2Z.inj_succ, IH. lia.
Qed.

(** The second normalisation of [binary_round_aux] on a mantissa between
    [2^23] and [2^24]. *)
Lemma renormalise (m1 : Z) (e1 : Z) :
  2 ^ 23 <= m1 <= 2 ^ 24 -> -149 <= e1 <= 103 ->
  exists m e,
    (let '(mrs'', e'') := shr_fexp 24 128 m1 e1 loc_Exact in
     match shr_m mrs'' with
     | 0 => S754_zero false
     | Z.pos m => if e'' <=? 128 - 24
                  then S754_finite false m e'' else S754_infinity false
     | Z.neg _ => S754_nan
     end) = S754_finite false m e
    /\ Z.pos (digits2_pos m) = 24
    /\ (e = e1 \/ (e = e1 + 1 /\ m = 8388608%positive)).
Proof.
  intros Hm He.
  change (2 ^ 23) with 8388608 in Hm. change (2 ^ 24) with 16777216 in Hm.
  destruct (Z.eq_dec m1 16777216) as [->|Hne].
  - exists 8388608%positive, (e1 + 1).
    unfold shr_fexp, fexp, emin.
    change (Zdigits2 16777216) with 25.
    replace (Z.max (25 + e1 - 24) (3 - 128 - 24) - e1) with 1 by lia.
    cbn [shr shr_record_of_loc SpecFloat.iter_pos shr_1 shr_m].
    destruct (Z.leb_spec (e1 + 1) (128 - 24)); [|lia].
    split; [reflexivity|]. split; [reflexivity | right; now split].
  - destruct m1 as [|m|m]; try lia.
    assert (Hd : Z.pos (digits2_pos m) = 24)
      by (apply digits2_pos_unique; [simpl; lia | lia]).
    exists m, e1.
    unfold shr_fexp, fexp, emin.
    rewrite Zdigits2_pos, Hd.
    replace (Z.max (24 + e1 - 24) (3 - 128 - 24) - e1) with 0 by lia.
    cbn [shr shr_record_of_loc shr_m].
    destruct (Z.leb_spec e1 (128 - 24)); [|lia].
    split; [reflexivity|]. split; [reflexivity | now left].
Qed.

(** The [float] of an [unsigned int] other than 0. *)
Lemma of_Z_uint32 (p : positive) :
  Z.pos p < 2 ^ 32 ->
  exists m e,
    F32.of_Z (Z.pos p) = S754_finite false m e
    /\ Z.pos (digits2_pos m) = 24
    /\ -23 <= e
    /\ (e <= 8 \/ (e = 9 /\ m = 8388608%positive)).
Proof.
  intros Hp. pose proof (digits2_pos_bounds p) as Hd.
  set (d := Z.pos (digits2_pos p)) in *.
  assert (Hd1 : 1 <= d <= 32).
  { split; [unfold d; lia|].
    destruct (Z.le_gt_cases d 32) as [|Hgt]; [assumption|].
    assert (2 ^ 32 <= 2 ^ (d - 1)) by (apply Z.pow_le_mono_r; lia). lia. }
  unfold F32.of_Z, binary_normalize, binary_round, shl_align, fexp, emin,
    F32.prec, F32.emax.
  fold d. replace (Z.max (d + 0 - 24) (3 - 128 - 24)) with (d - 24) by lia.
  destruct (d - 24 - 0) as [|k|k] eqn:Hk.
  - exists p, 0.
    rewrite (binary_round_aux_canonical false p 0) by (fold d; lia).
    split; [reflexivity|]. split; [fold d; lia|]. lia.
  - unfold binary_round_aux.
    destruct (shr_fexp 24 128 (Z.pos p) 0 loc_Exact) as [mrs' e'] eqn:Hshr.
    unfold shr_fexp, fexp, emin in Hshr.
    rewrite Zdigits2_pos in Hshr. fold d in Hshr.
    replace (Z.max (d + 0 - 24) (3 - 128 - 24) - 0) with (Z.pos k) in Hshr
      by lia.
    cbn [shr shr_record_of_loc] in Hshr. injection Hshr as <- <-.
    set (mrs := SpecFloat.iter_pos shr_1 k _).
    assert (Hq : shr_m mrs = Z.pos p / 2 ^ Z.pos k)
      by (unfold mrs; now rewrite shr_iter_m).
    assert (Hqb : 2 ^ 23 <= shr_m mrs < 2 ^ 24).
    { rewrite Hq. replace (Z.pos k) with (d - 24) by lia.
      assert (Hpow : 2 ^ (d - 1) = 2 ^ 23 * 2 ^ (d - 24)).
      { rewrite <- Z.pow_add_r by lia. f_equal. lia. }
      assert (Hpow' : 2 ^ d = 2 ^ 24 * 2 ^ (d - 24)).
      { rewrite <- Z.pow_add_r by lia. f_equal. lia. }
      assert (0 < 2 ^ (d - 24)) by (apply Z.pow_pos_nonneg; lia).
      split.
      - apply Z.div_le_lower_bound; [assumption|]. lia.
      - apply Z.div_lt_upper_bound; [assumption|]. lia. }
    pose proof (round_nearest_even_bounds (shr_m mrs)
                  (loc_of_shr_record mrs)) as Hr.
    destruct (renormalise
                (round_nearest_even (shr_m mrs) (loc_of_shr_record mrs))
                (0 + Z.pos k) ltac:(lia) ltac:(lia))
      as (m & e & Hres & Hdm & He).
    exists m, e. rewrite Hres.
    split; [reflexivity|]. split; [exact Hdm|].
    destruct He as [-> | [-> ->]]; lia.
  - exists (Pos.iter xO p k), (d - 24).
    assert (Hdk : Z.pos (digits2_pos (Pos.iter xO p k)) = 24)
      by (rewrite digits2_pos_shift; fold d; lia).
    rewrite binary_round_aux_canonical by (try exact Hdk; lia).
    split; [reflexivity|]. split; [exact Hdk|]. lia.
Qed.

(** The quotient [h] of a hash word by [float(2^32 - 1)] lies between 0.0
    and 1.0, both included. *)
Lemma dither_of_range w :
  in_uint32 w ->
  F32.leb F32.zero (dither_of w) = true
  /\ F32.leb (dither_of w) F32.one = true.
Proof.
  intros [Hw0 Hw]. unfold dither_of.
  destruct w as [|p|p]; [split; reflexivity | | lia].
  destruct (of_Z_uint32 p Hw) as (m & e & -> & Hd & He & He').
  rewrite div_uint32_max by (try exact Hd; lia).
  split; [reflexivity|].
  unfold F32.leb, SFleb, SFcompare, F32.one.
  destruct He' as [He' | [-> ->]].
  - destruct (Z.compare_spec (e - 32) (-23)); [lia | reflexivity | lia].
  - reflexivity.
Qed.

(** *** The ditherer on a grid *)

(** Whatever the height, the ditherer reaches only the samples of the first
    row: every row restarts from the beginning of the buffer. *)
Lemma add_dither_writes_first_row_only nchannels width height data
    xstride ystride amplitude alpha_channel ditherseed data' :
  0 <= nchannels -> 0 <= xstride ->
  add_dither nchannels width height data xstride ystride amplitude
    alpha_channel ditherseed = Some data' ->
  length data' = length data
  /\ forall j : nat,
       (width - 1) * xstride + sizeof_float * nchannels
       <= sizeof_float * Z.of_nat j ->
       data' !! j = data !! j.
Proof.
  intros Hn Hx H. unfold add_dither in H.
  now apply dither_rows_frame in H.
Qed.

(** On two rows of one sample each, the first sample is perturbed twice
    and the second never. *)
Lemma second_row_never_dithered :
  add_dither 1 1 2 [F32.half; F32.half] 4 4
    (F32.div (F32.of_Z 1) (F32.of_Z 255)) (-1) 1
  = Some [F32.add
            (F32.add F32.half
               (perturbation (F32.div (F32.of_Z 1) (F32.of_Z 255))
                  (hash_word 0 1 0)))
            (perturbation (F32.div (F32.of_Z 1) (F32.of_Z 255))
               (hash_word 1 1 0));
          F32.half].
Proof. vm_compute. reflexivity. Qed.

(** C2 as stated fails at seed 13664758: the hash word of the first sample
    of row 0 converts to [2^32], the quotient [h] is 1.0, not below it, and
    the sample 0.0 becomes [1.0 * (1.0 - 0.5)]. *)
Lemma dither_reaches_one :
  hash_word 0 13664758 0 = 4294967195
  /\ dither_of (hash_word 0 13664758 0) = F32.one
  /\ F32.ltb (dither_of (hash_word 0 13664758 0)) F32.one = false
  /\ add_dither 1 1 1 [F32.zero] 4 4 F32.one (-1) 13664758
     = Some [F32.half].
Proof. vm_compute. repeat split; reflexivity. Qed.

(** C2 (amended). On a grid of a single row whose pixels are
    [float]-aligned, lie in the buffer and do not overlap, [add_dither]
    adds to every sample whose channel is not the excluded one the
    perturbation [amplitude * (h - 0.5)], where [h] is the quotient of the
    hash word of the sample's position and of the seed by
    [float(2^32 - 1)] and lies in [[0, 1]], 1.0 included; it does so once
    for each such sample, and leaves every other sample as it was. *)
Theorem add_dither_single_row nchannels width (k : nat) data ystride
    amplitude alpha_channel ditherseed :
  (Z.to_nat nchannels <= k)%nat ->
  (1 <= width ->
   (Z.to_nat (width - 1) * k + Z.to_nat nchannels <= length data)%nat) ->
  exists data',
    add_dither nchannels width 1 data (sizeof_float * Z.of_nat k) ystride
      amplitude alpha_channel ditherseed = Some data'
    /\ length data' = length data
    /\ (forall x c : nat,
          Z.of_nat x < width -> Z.of_nat c < nchannels ->
          let h :=
            dither_of
              (hash_word 0 ditherseed (x * Z.to_nat nchannels + c)) in
          F32.leb F32.zero h = true /\ F32.leb h F32.one = true
          /\ exists d,
               data !! (x * k + c)%nat = Some d
               /\ data' !! (x * k + c)%nat
                  = Some (if Z.of_nat c =? alpha_channel then d
                          else F32.add d
                                 (F32.mul amplitude (F32.sub h F32.half))))
    /\ (forall j : nat,
          (forall x c : nat,
             Z.of_nat x < width -> Z.of_nat c < nchannels ->
             j <> (x * k + c)%nat) ->
          data' !! j = data !! j).
Proof.
  intros Hk Hlen. unfold add_dither.
  change (Z.to_nat 1) with 1%nat. cbn [dither_rows]. cbv zeta.
  destruct (dither_pixels_spec alpha_channel amplitude nchannels k Hk
              (Z.to_nat width) 0 (row_hash 0 ditherseed) data)
    as (data' & Hrun & Hlen' & Hframe & Hval).
  { intros Hw. specialize (Hlen ltac:(lia)).
    replace (Z.to_nat width - 1)%nat with (Z.to_nat (width - 1)) by lia.
    lia. }
  change (sizeof_float * Z.of_nat 0) with 0 in Hrun.
  unfold row_hash in Hrun. change (UInt32.wrap32 0) with 0 in Hrun.
  change (UInt32.wrap32 0) with 0.
  rewrite Hrun. cbn [mbind option_bind].
  exists data'. split; [reflexivity|]. split; [exact Hlen'|]. split.
  - intros x c Hx Hc.
    destruct (dither_of_range (hash_word 0 ditherseed
                                 (x * Z.to_nat nchannels + c))
                (hash_word_range _ _ _)) as [H0 H1].
    split; [exact H0|]. split; [exact H1|].
    destruct (Hval x c ltac:(lia) ltac:(lia)) as (d & Hd & Hd').
    exists d. split; [exact Hd|]. exact Hd'.
  - intros j Hj. apply Hframe. intros x c Hx Hc.
    rewrite Nat.add_0_l. apply Hj; lia.
Qed.

Lemma add_dither_single_row_witness :
  exists data',
    add_dither 4 2 1 (rgba_pixel ++ rgba_pixel) 16 32
      (F32.div (F32.of_Z 1) (F32.of_Z 255)) 3 1 = Some data'
    /\ length data' = 8%nat.
Proof.
  destruct (add_dither_single_row 4 2 4 (rgba_pixel ++ rgba_pixel) 32
              (F32.div (F32.of_Z 1) (F32.of_Z 255)) 3 1
              ltac:(simpl; lia) ltac:(simpl; lia))
    as (data' & Hrun & Hlen & _).
  exists data'. split; [exact Hrun | exact Hlen].
Defined.

(** ** The transcoder *)

Lemma sample_bytes_length little d v :
  length (sample_bytes little d v) = Z.to_nat (sizeof_sample d).
Proof. destruct d, little; reflexivity. Qed.

Lemma store_sample_spec little d pre post i v :
  Z.of_nat (length pre) = sizeof_sample d * i ->
  store_sample little d
    (pre ++ replicate (Z.to_nat (sizeof_sample d)) 0 ++ post) i v
  = Some (pre ++ sample_bytes little d v ++ post).
Proof.
  intros Hpre. destruct d; simpl in *.
  - unfold store_uchar.
    replace i with (Z.of_nat (length pre) + 0) by lia.
    now rewrite store_app_r.
  - unfold store_ushort.
    replace (2 * i) with (Z.of_nat (length pre) + 0) by lia.
    replace (Z.of_nat (length pre) + 0 + 1)
      with (Z.of_nat (length pre) + 1) by lia.
    destruct little; rewrite store_app_r by lia; simpl;
      now rewrite store_app_r.
Qed.

Section RasterLengths.
Variable order : bool.
Variable depth : BitDepthEnum.
Variables pixelDataNComps dstNCompsStartIndex dstNComps : Z.
Variable pixelData : list float.

Let sz : nat := Z.to_nat (sizeof_sample depth).

Local Abbreviation chans :=
  (channels_bytes order depth dstNCompsStartIndex pixelData).
Local Abbreviation pixel :=
  (pixel_bytes order depth dstNCompsStartIndex dstNComps pixelData).
Local Abbreviation pixels :=
  (pixels_bytes order depth pixelDataNComps dstNCompsStartIndex dstNComps
     pixelData).
Local Abbreviation rows :=
  (rows_bytes order depth pixelDataNComps dstNCompsStartIndex dstNComps
     pixelData).

Lemma channels_bytes_length n : forall c src_pixels,
  length (chans n c src_pixels) = (n * sz)%nat.
Proof.
  induction n as [|n IH]; intros c sp; simpl; [reflexivity|].
  now rewrite length_app, sample_bytes_length, IH.
Qed.

Lemma pixel_bytes_length nComps src_pixels :
  0 <= nComps <= dstNComps ->
  length (pixel nComps src_pixels) = (Z.to_nat dstNComps * sz)%nat.
Proof.
  intros H. unfold pixel_bytes.
  rewrite length_app, channels_bytes_length, length_replicate.
  unfold sz. destruct depth; simpl; nia.
Qed.

Lemma pixels_bytes_length nComps n : forall src_pixels,
  0 <= nComps <= dstNComps ->
  length (pixels n nComps src_pixels) = (n * (Z.to_nat dstNComps * sz))%nat.
Proof.
  induction n as [|n IH]; intros sp H; simpl; [reflexivity|].
  now rewrite length_app, pixel_bytes_length, IH.
Qed.

Lemma rows_bytes_length width nComps srcRowElements n : forall src_pixels,
  0 <= nComps <= dstNComps ->
  length (rows n width nComps srcRowElements src_pixels)
  = (n * (Z.to_nat width * (Z.to_nat dstNComps * sz)))%nat.
Proof.
  induction n as [|n IH]; intros sp H; simpl; [reflexivity|].
  now rewrite length_app, pixels_bytes_length, IH.
Qed.

End RasterLengths.

Section TranscoderLemmas.
Variable little : bool.
Variable depth : BitDepthEnum.
Variables pixelDataNComps dstNCompsStartIndex dstNComps : Z.
Variable pixelData : list float.


(** The byte order in which the result is described: that of the host, or
    any other that makes no difference at this depth. *)
Variable order : bool.
Hypothesis same_bytes :
  forall v, sample_bytes little depth v = sample_bytes order depth v.

Let sz : nat := Z.to_nat (sizeof_sample depth).

Local Abbreviation chans :=
  (channels_bytes order depth dstNCompsStartIndex pixelData).
Local Abbreviation pixel :=
  (pixel_bytes order depth dstNCompsStartIndex dstNComps pixelData).
Local Abbreviation pixels :=
  (pixels_bytes order depth pixelDataNComps dstNCompsStartIndex dstNComps
     pixelData).

Lemma convert_channels_spec src_pixels dst_pixels n : forall c pre post,
  (forall k, 0 <= k < Z.of_nat n ->
     is_Some (load pixelData (src_pixels + (dstNCompsStartIndex + (c + k))))) ->
  Z.of_nat (length pre) = sizeof_sample depth * (dst_pixels + c) ->
  convert_channels little depth dstNCompsStartIndex pixelData n c
    src_pixels dst_pixels (pre ++ replicate (n * sz) 0 ++ post)
  = Some (pre ++ chans n c src_pixels ++ post).
Proof.
  induction n as [|n IH]; intros c pre post Hread Hpre; [reflexivity|].
  cbn [convert_channels channels_bytes].
  destruct (Hread 0 ltac:(lia)) as [v Hv]. rewrite Z.add_0_r in Hv.
  unfold src_at. rewrite Hv. cbn [mbind option_bind default].
  replace (S n * sz)%nat with (sz + n * sz)%nat by lia.
  rewrite replicate_add, <- app_assoc.
  unfold sz at 1. rewrite store_sample_spec by exact Hpre.
  rewrite same_bytes.
  cbn [mbind option_bind].
  rewrite (app_assoc pre), IH.
  - now rewrite <- !app_assoc.
  - intros k Hk. replace (c + 1 + k) with (c + (k + 1)) by lia.
    apply Hread. lia.
  - rewrite length_app, sample_bytes_length.
    destruct depth; simpl in *; lia.
Qed.

Lemma convert_pixels_spec nComps n : forall src_pixels dst_pixels pre post,
  0 <= nComps <= dstNComps ->
  (forall x c, 0 <= x < Z.of_nat n -> 0 <= c < nComps ->
     is_Some (load pixelData
                (src_pixels + x * pixelDataNComps
                 + (dstNCompsStartIndex + c)))) ->
  Z.of_nat (length pre) = sizeof_sample depth * dst_pixels ->
  convert_pixels little depth pixelDataNComps dstNCompsStartIndex dstNComps
    pixelData n nComps src_pixels dst_pixels
    (pre ++ replicate (n * (Z.to_nat dstNComps * sz)) 0 ++ post)
  = Some (src_pixels + Z.of_nat n * pixelDataNComps,
          dst_pixels + Z.of_nat n * dstNComps,
          pre ++ pixels n nComps src_pixels ++ post).
Proof.
  induction n as [|n IH]; intros sp dp pre post HnC Hread Hpre.
  { simpl. repeat f_equal; lia. }
  cbn [convert_pixels pixels_bytes].
  replace (S n * (Z.to_nat dstNComps * sz))%nat
    with (Z.to_nat nComps * sz
          + (Z.to_nat (sizeof_sample depth * (dstNComps - nComps))
             + n * (Z.to_nat dstNComps * sz)))%nat
    by (unfold sz; destruct depth; simpl; nia).
  rewrite !replicate_add, <- !app_assoc.
  rewrite convert_channels_spec.
  - cbn [mbind option_bind].
    rewrite (app_assoc (chans _ _ _)), (app_assoc pre).
    fold (pixel nComps sp).
    rewrite IH.
    + rewrite <- !app_assoc. f_equal. f_equal. f_equal; lia.
    + exact HnC.
    + intros x c Hx Hc.
      replace (sp + pixelDataNComps + x * pixelDataNComps)
        with (sp + (x + 1) * pixelDataNComps) by lia.
      apply Hread; lia.
    + rewrite length_app, pixel_bytes_length by exact HnC.
      unfold sz. destruct depth; simpl in *; nia.
  - intros k Hk. specialize (Hread 0 k ltac:(lia) ltac:(lia)).
    now rewrite Z.mul_0_l, Z.add_0_r in Hread.
  - lia.
Qed.

End TranscoderLemmas.

(** *** Reversing the bytes of every sample of a row *)

Lemma reverse_each_app {A : Type} (sz n1 n2 : nat) : forall x y : list A,
  length x = (n1 * sz)%nat ->
  reverse_each sz (n1 + n2) (x ++ y)
  = reverse_each sz n1 x ++ reverse_each sz n2 y.
Proof.
  induction n1 as [|n1 IH]; intros x y Hx; simpl in *.
  - now destruct x.
  - rewrite take_app_le, drop_app_le by lia.
    rewrite IH by (rewrite length_drop; lia).
    now rewrite app_assoc.
Qed.

Lemma rev_replicate {A : Type} (n : nat) (x : A) :
  rev (replicate n x) = replicate n x.
Proof.
  induction n as [|n IH]; simpl; [reflexivity|].
  now rewrite IH, <- replicate_S_end.
Qed.

Lemma reverse_each_zeros (sz n : nat) :
  reverse_each sz n (replicate (n * sz) 0) = replicate (n * sz) 0.
Proof.
  induction n as [|n IH]; simpl; [reflexivity|].
  rewrite take_replicate, drop_replicate.
  replace (sz `min` (sz + n * sz))%nat with sz by lia.
  replace (sz + n * sz - sz)%nat with (n * sz)%nat by lia.
  rewrite IH, replicate_add. f_equal.
  apply rev_replicate.
Qed.

Section BigEndianRows.
Variables pixelDataNComps dstNCompsStartIndex dstNComps : Z.
Variable pixelData : list float.

Local Abbreviation chans little :=
  (channels_bytes little eBitDepthUShort dstNCompsStartIndex pixelData).
Local Abbreviation pixel little :=
  (pixel_bytes little eBitDepthUShort dstNCompsStartIndex dstNComps
     pixelData).
Local Abbreviation pixels little :=
  (pixels_bytes little eBitDepthUShort pixelDataNComps dstNCompsStartIndex
     dstNComps pixelData).

Lemma reverse_each_channels n : forall c src_pixels,
  reverse_each 2 n (chans true n c src_pixels) = chans false n c src_pixels.
Proof.
  induction n as [|n IH]; intros c sp; [reflexivity|].
  cbn [channels_bytes].
  change (S n) with (1 + n)%nat.
  rewrite reverse_each_app by reflexivity.
  now rewrite IH.
Qed.

Lemma reverse_each_pixel nComps src_pixels :
  0 <= nComps <= dstNComps ->
  reverse_each 2 (Z.to_nat dstNComps) (pixel true nComps src_pixels)
  = pixel false nComps src_pixels.
Proof.
  intros H. unfold pixel_bytes.
  replace (Z.to_nat dstNComps)
    with (Z.to_nat nComps + Z.to_nat (dstNComps - nComps))%nat by lia.
  rewrite reverse_each_app by apply channels_bytes_length.
  rewrite reverse_each_channels. f_equal.
  replace (Z.to_nat (sizeof_sample eBitDepthUShort * (dstNComps - nComps)))
    with (Z.to_nat (dstNComps - nComps) * 2)%nat by (simpl; lia).
  apply reverse_each_zeros.
Qed.

Lemma reverse_each_pixels nComps n : forall src_pixels,
  0 <= nComps <= dstNComps ->
  reverse_each 2 (n * Z.to_nat dstNComps) (pixels true n nComps src_pixels)
  = pixels false n nComps src_pixels.
Proof.
  induction n as [|n IH]; intros sp H; [reflexivity|].
  cbn [pixels_bytes].
  replace (S n * Z.to_nat dstNComps)%nat
    with (Z.to_nat dstNComps + n * Z.to_nat dstNComps)%nat by lia.
  rewrite reverse_each_app by (now apply pixel_bytes_length).
  now rewrite reverse_each_pixel, IH.
Qed.

End BigEndianRows.

Section RowLoops.
Variables pixelDataNComps dstNCompsStartIndex dstNComps : Z.
Variable pixelData : list float.
Variables width nComps srcRowElements : Z.
Hypothesis width_nonneg : 0 <= width.
Hypothesis nComps_range : 0 <= nComps <= dstNComps.

(** The samples of [n] rows from [src_pixels] on exist. *)
Let rows_readable (n : nat) (src_pixels : Z) : Prop :=
  forall y x c,
    0 <= y < Z.of_nat n -> 0 <= x < width -> 0 <= c < nComps ->
    is_Some (load pixelData
               (src_pixels + y * srcRowElements + x * pixelDataNComps
                + (dstNCompsStartIndex + c))).

Local Abbreviation rows depth :=
  (rows_bytes false depth pixelDataNComps dstNCompsStartIndex dstNComps
     pixelData).

Lemma rows_readable_step n src_pixels :
  rows_readable (S n) src_pixels ->
  (forall x c, 0 <= x < Z.of_nat (Z.to_nat width) -> 0 <= c < nComps ->
     is_Some (load pixelData
                (src_pixels + x * pixelDataNComps
                 + (dstNCompsStartIndex + c))))
  /\ rows_readable n (src_pixels + srcRowElements).
Proof.
  intros Hread. split.
  - intros x c Hx Hc. specialize (Hread 0 x c ltac:(lia) ltac:(lia) Hc).
    now rewrite Z.mul_0_l, Z.add_0_r in Hread.
  - intros y x c Hy Hx Hc.
    replace (src_pixels + srcRowElements + y * srcRowElements)
      with (src_pixels + (y + 1) * srcRowElements) by lia.
    apply Hread; lia.
Qed.

Lemma convert_rows_ubyte_spec host_little n :
  forall src_pixels dst_pixels pre post,
  rows_readable n src_pixels ->
  Z.of_nat (length pre) = dst_pixels ->
  convert_rows_ubyte host_little pixelDataNComps dstNCompsStartIndex
    dstNComps pixelData n width nComps srcRowElements (width * dstNComps)
    src_pixels dst_pixels
    (pre ++ replicate (n * (Z.to_nat width * (Z.to_nat dstNComps * 1))) 0
         ++ post)
  = Some (pre ++ rows eBitDepthUByte n width nComps srcRowElements src_pixels
              ++ post).
Proof.
  induction n as [|n IH]; intros sp dp pre post Hread Hpre; [reflexivity|].
  apply rows_readable_step in Hread as [Hrow Hrest].
  cbn [convert_rows_ubyte rows_bytes].
  replace (S n * (Z.to_nat width * (Z.to_nat dstNComps * 1)))%nat
    with (Z.to_nat width * (Z.to_nat dstNComps * 1)
          + n * (Z.to_nat width * (Z.to_nat dstNComps * 1)))%nat by lia.
  rewrite replicate_add, <- app_assoc.
  rewrite (convert_pixels_spec host_little eBitDepthUByte _ _ _ _ false)
    by (try assumption; try reflexivity; simpl; lia).
  cbn [mbind option_bind]. rewrite Z2Nat.id by exact width_nonneg.
  replace (sp + width * pixelDataNComps
           + (srcRowElements - width * pixelDataNComps))
    with (sp + srcRowElements) by lia.
  rewrite (app_assoc pre), IH.
  - now rewrite <- !app_assoc.
  - exact Hrest.
  - rewrite length_app, pixels_bytes_length by assumption. simpl. nia.
Qed.

(** One iteration of the 16-bit row loop: the row it is at is left in the
    buffer most significant byte first, whatever the host, and the loop goes
    on from the next row. *)
Lemma convert_rows_ushort_step host_little n src_pixels dst_pixels pre rest :
  0 <= dstNComps ->
  (forall x c, 0 <= x < width -> 0 <= c < nComps ->
     is_Some (load pixelData
                (src_pixels + x * pixelDataNComps
                 + (dstNCompsStartIndex + c)))) ->
  Z.of_nat (length pre) = 2 * dst_pixels ->
  convert_rows_ushort host_little pixelDataNComps dstNCompsStartIndex
    dstNComps pixelData (S n) width nComps srcRowElements (width * dstNComps)
    src_pixels dst_pixels
    (pre ++ replicate (Z.to_nat width * (Z.to_nat dstNComps * 2)) 0 ++ rest)
  = convert_rows_ushort host_little pixelDataNComps dstNCompsStartIndex
      dstNComps pixelData n width nComps srcRowElements (width * dstNComps)
      (src_pixels + srcRowElements) (dst_pixels + width * dstNComps)
      (pre ++ pixels_bytes false eBitDepthUShort pixelDataNComps
                dstNCompsStartIndex dstNComps pixelData (Z.to_nat width)
                nComps src_pixels
           ++ rest).
Proof.
  intros HDC Hrow Hpre.
  cbn [convert_rows_ushort].
  rewrite (convert_pixels_spec host_little eBitDepthUShort _ _ _ _
             host_little)
    by (try assumption; try reflexivity; rewrite ?Z2Nat.id; assumption).
  cbn [mbind option_bind]. rewrite Z2Nat.id by exact width_nonneg.
  assert (Hswapped :
    (if host_little
     then swap_endian 2
            (pre ++ pixels_bytes host_little eBitDepthUShort pixelDataNComps
                      dstNCompsStartIndex dstNComps pixelData
                      (Z.to_nat width) nComps src_pixels ++ rest)
            (2 * (dst_pixels + width * dstNComps - width * dstNComps))
            (width * dstNComps)
     else Some
            (pre ++ pixels_bytes host_little eBitDepthUShort pixelDataNComps
                      dstNCompsStartIndex dstNComps pixelData
                      (Z.to_nat width) nComps src_pixels ++ rest))
    = Some (pre ++ pixels_bytes false eBitDepthUShort pixelDataNComps
                     dstNCompsStartIndex dstNComps pixelData
                     (Z.to_nat width) nComps src_pixels ++ rest)).
  { destruct host_little; [|reflexivity].
    unfold swap_endian.
    destruct (Z.ltb_spec (width * dstNComps) 0); [nia|].
    replace (2 * (dst_pixels + width * dstNComps - width * dstNComps))
      with (Z.of_nat (length pre)) by lia.
    rewrite swap_endian_loop_spec.
    - replace (Z.to_nat (width * dstNComps))
        with (Z.to_nat width * Z.to_nat dstNComps + 0)%nat by nia.
      rewrite reverse_each_app
        by (rewrite pixels_bytes_length by assumption; simpl; lia).
      now rewrite reverse_each_pixels.
    - now left.
    - rewrite length_app, pixels_bytes_length by assumption. simpl. nia. }
  rewrite Hswapped. cbn [mbind option_bind].
  f_equal; lia.
Qed.

Lemma convert_rows_ushort_spec host_little n :
  forall src_pixels dst_pixels pre post,
  0 <= dstNComps ->
  rows_readable n src_pixels ->
  Z.of_nat (length pre) = 2 * dst_pixels ->
  convert_rows_ushort host_little pixelDataNComps dstNCompsStartIndex
    dstNComps pixelData n width nComps srcRowElements (width * dstNComps)
    src_pixels dst_pixels
    (pre ++ replicate (n * (Z.to_nat width * (Z.to_nat dstNComps * 2))) 0
         ++ post)
  = Some (pre ++ rows eBitDepthUShort n width nComps srcRowElements src_pixels
              ++ post).
Proof.
  induction n as [|n IH]; intros sp dp pre post HDC Hread Hpre;
    [reflexivity|].
  apply rows_readable_step in Hread as [Hrow Hrest].
  rewrite Z2Nat.id in Hrow by exact width_nonneg.
  replace (S n * (Z.to_nat width * (Z.to_nat dstNComps * 2)))%nat
    with (Z.to_nat width * (Z.to_nat dstNComps * 2)
          + n * (Z.to_nat width * (Z.to_nat dstNComps * 2)))%nat by lia.
  rewrite replicate_add, <- app_assoc.
  rewrite convert_rows_ushort_step by assumption.
  cbn [rows_bytes].
  rewrite (app_assoc pre), IH.
  - now rewrite <- !app_assoc.
  - exact HDC.
  - exact Hrest.
  - rewrite length_app, pixels_bytes_length by assumption. simpl. nia.
Qed.

End RowLoops.

(** The conversion is defined on every readable region, and its result is
    the PNG raster whatever the byte order of the host. *)
Lemma convert_spec host_little depth pixelData bounds
    pixelDataNComps dstNCompsStartIndex dstNComps rowBytes :
  0 <= x2 bounds - x1 bounds -> 0 <= y2 bounds - y1 bounds ->
  0 <= dstNComps -> 0 <= pixelDataNComps ->
  region_readable pixelData bounds pixelDataNComps dstNCompsStartIndex
    dstNComps rowBytes ->
  convert host_little depth pixelData bounds pixelDataNComps
    dstNCompsStartIndex dstNComps rowBytes
  = Some (png_raster depth pixelData bounds pixelDataNComps
            dstNCompsStartIndex dstNComps rowBytes).
Proof.
  intros Hw Hh HDC HNC Hread. unfold convert, png_raster, RamBuffer.
  set (width := x2 bounds - x1 bounds) in *.
  set (height := y2 bounds - y1 bounds) in *.
  set (nComps := Z.min dstNComps pixelDataNComps).
  assert (HnC : 0 <= nComps <= dstNComps) by (unfold nComps; lia).
  replace (Z.to_nat (height * (width * dstNComps * sizeof_sample depth)))
    with (Z.to_nat height
          * (Z.to_nat width
             * (Z.to_nat dstNComps * Z.to_nat (sizeof_sample depth))))%nat
    by (destruct depth; simpl; nia).
  rewrite <- (app_nil_r (replicate _ 0)), <- (app_nil_l (replicate _ 0 ++ [])).
  destruct depth.
  - rewrite convert_rows_ubyte_spec; try assumption.
    + now rewrite app_nil_r.
    + intros y x c Hy Hx Hc. rewrite Z.add_0_l. apply Hread; lia.
    + reflexivity.
  - rewrite convert_rows_ushort_spec; try assumption.
    + now rewrite app_nil_r.
    + intros y x c Hy Hx Hc. rewrite Z.add_0_l. apply Hread; lia.
    + reflexivity.
Qed.

(** *** Reading the samples of the raster back *)

Lemma stored_bytes_app_r d pre l j i :
  Z.of_nat (length pre) = sizeof_sample d * j -> 0 <= i ->
  stored_bytes d (pre ++ l) (j + i) = stored_bytes d l i.
Proof.
  intros Hpre Hi. destruct d; unfold stored_bytes; simpl in Hpre.
  - replace (j + i) with (Z.of_nat (length pre) + i) by lia.
    now rewrite load_app_r.
  - replace (2 * (j + i)) with (Z.of_nat (length pre) + 2 * i) by lia.
    replace (Z.of_nat (length pre) + 2 * i + 1)
      with (Z.of_nat (length pre) + (2 * i + 1)) by lia.
    now rewrite !load_app_r by lia.
Qed.

Lemma stored_bytes_head d v rest :
  stored_bytes d (sample_bytes false d v ++ rest) 0
  = Some (sample_bytes false d v).
Proof. destruct d; reflexivity. Qed.

Lemma big_endian_sample_bytes d v :
  0 <= v < numvals d -> big_endian_value (sample_bytes false d v) = v.
Proof.
  intros Hv. destruct d; unfold big_endian_value; simpl in *.
  - now rewrite Z.mod_small.
  - rewrite (Z.mod_small v 65536) by lia.
    symmetry. rewrite (Z.div_mod v 256) at 1 by lia. lia.
Qed.

Section RasterSamples.
Variable depth : BitDepthEnum.
Variables pixelDataNComps dstNCompsStartIndex dstNComps : Z.
Variable pixelData : list float.

Local Abbreviation chans :=
  (channels_bytes false depth dstNCompsStartIndex pixelData).
Local Abbreviation pixels :=
  (pixels_bytes false depth pixelDataNComps dstNCompsStartIndex dstNComps
     pixelData).
Local Abbreviation rows :=
  (rows_bytes false depth pixelDataNComps dstNCompsStartIndex dstNComps
     pixelData).
Local Abbreviation quantised i :=
  (floatToInt (numvals depth) (src_at pixelData i)).

Lemma numvals_pos : 1 <= numvals depth.
Proof. destruct depth; simpl; lia. Qed.

Lemma stored_bytes_channels n : forall c src_pixels rest k,
  0 <= k < Z.of_nat n ->
  stored_bytes depth (chans n c src_pixels ++ rest) k
  = Some (sample_bytes false depth
            (quantised (src_pixels + (dstNCompsStartIndex + (c + k))))).
Proof.
  induction n as [|n IH]; intros c sp rest k Hk; [lia|].
  cbn [channels_bytes]. rewrite <- app_assoc.
  destruct (Z.eq_dec k 0) as [->|Hk0].
  - rewrite Z.add_0_r. apply stored_bytes_head.
  - replace k with (1 + (k - 1)) at 1 by lia.
    rewrite stored_bytes_app_r
      by (try lia; rewrite sample_bytes_length; destruct depth; simpl; lia).
    rewrite IH by lia. do 4 f_equal. lia.
Qed.

Lemma stored_bytes_pixels nComps n : forall src_pixels rest x c,
  0 <= nComps <= dstNComps ->
  0 <= x < Z.of_nat n -> 0 <= c < nComps ->
  stored_bytes depth (pixels n nComps src_pixels ++ rest) (x * dstNComps + c)
  = Some (sample_bytes false depth
            (quantised (src_pixels + x * pixelDataNComps
                        + (dstNCompsStartIndex + c)))).
Proof.
  induction n as [|n IH]; intros sp rest x c HnC Hx Hc; [lia|].
  cbn [pixels_bytes]. rewrite <- app_assoc.
  destruct (Z.eq_dec x 0) as [->|Hx0].
  - unfold pixel_bytes. rewrite <- app_assoc.
    rewrite !Z.mul_0_l, Z.add_0_l, Z.add_0_r.
    rewrite stored_bytes_channels by lia. now rewrite Z.add_0_l.
  - replace (x * dstNComps + c)
      with (dstNComps + ((x - 1) * dstNComps + c)) by lia.
    rewrite stored_bytes_app_r.
    + rewrite IH by lia. do 4 f_equal. lia.
    + rewrite pixel_bytes_length by exact HnC.
      destruct depth; simpl; lia.
    + nia.
Qed.

Lemma stored_bytes_rows width nComps srcRowElements n :
  forall src_pixels rest y x c,
  0 <= nComps <= dstNComps ->
  0 <= y < Z.of_nat n -> 0 <= x < width -> 0 <= c < nComps ->
  stored_bytes depth (rows n width nComps srcRowElements src_pixels ++ rest)
    ((y * width + x) * dstNComps + c)
  = Some (sample_bytes false depth
            (quantised (src_pixels + y * srcRowElements
                        + x * pixelDataNComps
                        + (dstNCompsStartIndex + c)))).
Proof.
  induction n as [|n IH]; intros sp rest y x c HnC Hy Hx Hc; [lia|].
  cbn [rows_bytes]. rewrite <- app_assoc.
  destruct (Z.eq_dec y 0) as [->|Hy0].
  - rewrite !Z.mul_0_l, Z.add_0_l, Z.add_0_r.
    now rewrite stored_bytes_pixels by lia.
  - replace ((y * width + x) * dstNComps + c)
      with (width * dstNComps + (((y - 1) * width + x) * dstNComps + c))
      by lia.
    rewrite stored_bytes_app_r.
    + rewrite IH by lia. do 4 f_equal. lia.
    + rewrite pixels_bytes_length by exact HnC.
      destruct depth; simpl; nia.
    + assert (0 <= (y - 1) * width) by (apply Z.mul_nonneg_nonneg; lia).
      assert (0 <= ((y - 1) * width + x) * dstNComps)
        by (apply Z.mul_nonneg_nonneg; lia).
      lia.
Qed.

End RasterSamples.

(** The bytes of every converted sample of the PNG raster. *)
Lemma png_raster_stored_bytes depth pixelData bounds
    pixelDataNComps dstNCompsStartIndex dstNComps rowBytes y x c v :
  0 <= dstNComps -> 0 <= pixelDataNComps ->
  0 <= y < y2 bounds - y1 bounds ->
  0 <= x < x2 bounds - x1 bounds ->
  0 <= c < Z.min dstNComps pixelDataNComps ->
  load pixelData
    (y * (rowBytes / sizeof_float) + x * pixelDataNComps
     + (dstNCompsStartIndex + c)) = Some v ->
  stored_bytes depth
    (png_raster depth pixelData bounds pixelDataNComps dstNCompsStartIndex
       dstNComps rowBytes)
    ((y * (x2 bounds - x1 bounds) + x) * dstNComps + c)
  = Some (sample_bytes false depth (floatToInt (numvals depth) v)).
Proof.
  intros HDC HNC Hy Hx Hc Hv. unfold png_raster.
  rewrite <- (app_nil_r (rows_bytes _ _ _ _ _ _ _ _ _ _ _)).
  rewrite stored_bytes_rows by lia.
  unfold src_at. rewrite Z.add_0_l, Hv. reflexivity.
Qed.

(** C4. Whatever the region, the channel window and the bit depth, the
    transcoder fills the scratch buffer (it is defined as soon as every
    source sample it reads exists) so that the tightly packed destination
    sample of row [y], pixel [x] and channel [c], for [c] below both channel
    counts, is the quantisation of the source sample at channel
    [dstNCompsStartIndex + c] of that pixel of that row. *)
Theorem transcoder_samples host_little depth pixelData bounds
    pixelDataNComps dstNCompsStartIndex dstNComps rowBytes :
  0 <= x2 bounds - x1 bounds -> 0 <= y2 bounds - y1 bounds ->
  0 <= dstNComps -> 0 <= pixelDataNComps ->
  region_readable pixelData bounds pixelDataNComps dstNCompsStartIndex
    dstNComps rowBytes ->
  exists scratch,
    convert host_little depth pixelData bounds pixelDataNComps
      dstNCompsStartIndex dstNComps rowBytes = Some scratch
    /\ forall y x c,
         0 <= y < y2 bounds - y1 bounds ->
         0 <= x < x2 bounds - x1 bounds ->
         0 <= c < Z.min dstNComps pixelDataNComps ->
         exists v,
           load pixelData
             (y * (rowBytes / sizeof_float) + x * pixelDataNComps
              + (dstNCompsStartIndex + c)) = Some v
           /\ sample_at depth scratch
                ((y * (x2 bounds - x1 bounds) + x) * dstNComps + c)
              = Some (floatToInt (numvals depth) v).
Proof.
  intros Hw Hh HDC HNC Hread.
  exists (png_raster depth pixelData bounds pixelDataNComps
            dstNCompsStartIndex dstNComps rowBytes).
  split; [now apply convert_spec|].
  intros y x c Hy Hx Hc.
  destruct (Hread y x c Hy Hx Hc) as [v Hv].
  exists v. split; [exact Hv|].
  unfold sample_at.
  rewrite (png_raster_stored_bytes _ _ _ _ _ _ _ _ _ _ v) by assumption.
  cbn [fmap option_fmap option_map]. f_equal.
  apply big_endian_sample_bytes.
  pose proof (floatToInt_range (numvals depth) v (numvals_pos depth)). lia.
Qed.

Lemma transcoder_samples_witness :
  exists scratch,
    convert true eBitDepthUShort [F32.half]
      {| x1 := 0; y1 := 0; x2 := 1; y2 := 1 |} 1 0 3 4 = Some scratch
    /\ forall y x c,
         0 <= y < 1 - 0 -> 0 <= x < 1 - 0 -> 0 <= c < Z.min 3 1 ->
         exists v,
           load [F32.half] (y * (4 / sizeof_float) + x * 1 + (0 + c)) = Some v
           /\ sample_at eBitDepthUShort scratch ((y * (1 - 0) + x) * 3 + c)
              = Some (floatToInt (numvals eBitDepthUShort) v).
Proof.
  apply (transcoder_samples true eBitDepthUShort [F32.half]
           {| x1 := 0; y1 := 0; x2 := 1; y2 := 1 |} 1 0 3 4);
    simpl; try lia.
  intros y x c Hy Hx Hc. simpl in *.
  replace y with 0 by lia. replace x with 0 by lia. replace c with 0 by lia.
  vm_compute. eauto.
Defined.

(** *** Byte order of the raster *)

Lemma sample_bytes_ushort v :
  0 <= v < 65536 ->
  sample_bytes false eBitDepthUShort v = [v / 256; v mod 256].
Proof. intros Hv. simpl. now rewrite (Z.mod_small v 65536). Qed.

Lemma sample_bytes_ubyte little v :
  0 <= v < 256 -> sample_bytes little eBitDepthUByte v = [v].
Proof. intros Hv. simpl. now rewrite Z.mod_small. Qed.

(** C6. In the 16-bit path every iteration of the row loop leaves the row
    it has just produced with each sample most significant byte first
    before it goes on to the next row, on a little-endian host (through
    [swap_endian]) as on a big-endian one, so that the whole raster handed
    to the encoder is big-endian whatever the host; in the 8-bit path the
    raster holds each quantised sample in its own byte, in order, and the
    byte order of the host makes no difference. *)
Theorem endian_normalised_per_row host_little pixelData bounds
    pixelDataNComps dstNCompsStartIndex dstNComps rowBytes :
  0 <= x2 bounds - x1 bounds -> 0 <= y2 bounds - y1 bounds ->
  0 <= dstNComps -> 0 <= pixelDataNComps ->
  region_readable pixelData bounds pixelDataNComps dstNCompsStartIndex
    dstNComps rowBytes ->
  (forall (y : Z) (n : nat) (pre rest : list byte),
     0 <= y -> y + Z.of_nat (S n) <= y2 bounds - y1 bounds ->
     Z.of_nat (length pre) = 2 * (y * ((x2 bounds - x1 bounds) * dstNComps)) ->
     exists row,
       convert_rows_ushort host_little pixelDataNComps dstNCompsStartIndex
         dstNComps pixelData (S n) (x2 bounds - x1 bounds)
         (Z.min dstNComps pixelDataNComps) (rowBytes / sizeof_float)
         ((x2 bounds - x1 bounds) * dstNComps)
         (y * (rowBytes / sizeof_float))
         (y * ((x2 bounds - x1 bounds) * dstNComps))
         (pre ++ replicate
                   (Z.to_nat (x2 bounds - x1 bounds)
                    * (Z.to_nat dstNComps * 2)) 0
              ++ rest)
       = convert_rows_ushort host_little pixelDataNComps dstNCompsStartIndex
           dstNComps pixelData n (x2 bounds - x1 bounds)
           (Z.min dstNComps pixelDataNComps) (rowBytes / sizeof_float)
           ((x2 bounds - x1 bounds) * dstNComps)
           (y * (rowBytes / sizeof_float) + rowBytes / sizeof_float)
           (y * ((x2 bounds - x1 bounds) * dstNComps)
            + (x2 bounds - x1 bounds) * dstNComps)
           (pre ++ row ++ rest)
       /\ length row
          = (Z.to_nat (x2 bounds - x1 bounds) * (Z.to_nat dstNComps * 2))%nat
       /\ forall x c,
            0 <= x < x2 bounds - x1 bounds ->
            0 <= c < Z.min dstNComps pixelDataNComps ->
            exists v,
              load pixelData
                (y * (rowBytes / sizeof_float) + x * pixelDataNComps
                 + (dstNCompsStartIndex + c)) = Some v
              /\ stored_bytes eBitDepthUShort row (x * dstNComps + c)
                 = Some [floatToInt 65536 v / 256; floatToInt 65536 v mod 256])
  /\ (exists scratch,
        convert host_little eBitDepthUShort pixelData bounds pixelDataNComps
          dstNCompsStartIndex dstNComps rowBytes = Some scratch
        /\ convert (negb host_little) eBitDepthUShort pixelData bounds
             pixelDataNComps dstNCompsStartIndex dstNComps rowBytes
           = Some scratch
        /\ forall y x c,
             0 <= y < y2 bounds - y1 bounds ->
             0 <= x < x2 bounds - x1 bounds ->
             0 <= c < Z.min dstNComps pixelDataNComps ->
             exists v,
               load pixelData
                 (y * (rowBytes / sizeof_float) + x * pixelDataNComps
                  + (dstNCompsStartIndex + c)) = Some v
               /\ stored_bytes eBitDepthUShort scratch
                    ((y * (x2 bounds - x1 bounds) + x) * dstNComps + c)
                  = Some [floatToInt 65536 v / 256;
                          floatToInt 65536 v mod 256])
  /\ (exists scratch,
        convert host_little eBitDepthUByte pixelData bounds pixelDataNComps
          dstNCompsStartIndex dstNComps rowBytes = Some scratch
        /\ convert (negb host_little) eBitDepthUByte pixelData bounds
             pixelDataNComps dstNCompsStartIndex dstNComps rowBytes
           = Some scratch
        /\ forall y x c,
             0 <= y < y2 bounds - y1 bounds ->
             0 <= x < x2 bounds - x1 bounds ->
             0 <= c < Z.min dstNComps pixelDataNComps ->
             exists v,
               load pixelData
                 (y * (rowBytes / sizeof_float) + x * pixelDataNComps
                  + (dstNCompsStartIndex + c)) = Some v
               /\ stored_bytes eBitDepthUByte scratch
                    ((y * (x2 bounds - x1 bounds) + x) * dstNComps + c)
                  = Some [floatToInt 256 v]).
Proof.
  intros Hw Hh HDC HNC Hread.
  assert (Hq16 : forall v, 0 <= floatToInt 65536 v < 65536)
    by (intros v; pose proof (floatToInt_range 65536 v); lia).
  assert (Hq8 : forall v, 0 <= floatToInt 256 v < 256)
    by (intros v; pose proof (floatToInt_range 256 v); lia).
  split; [|split].
  - intros y n pre rest Hy Hyn Hpre.
    exists (pixels_bytes false eBitDepthUShort pixelDataNComps
              dstNCompsStartIndex dstNComps pixelData
              (Z.to_nat (x2 bounds - x1 bounds))
              (Z.min dstNComps pixelDataNComps)
              (y * (rowBytes / sizeof_float))).
    split; [|split].
    + apply convert_rows_ushort_step; try assumption; try lia.
      intros x c Hx Hc. apply Hread; lia.
    + rewrite pixels_bytes_length by lia. reflexivity.
    + intros x c Hx Hc.
      destruct (Hread y x c ltac:(lia) Hx Hc) as [v Hv].
      exists v. split; [exact Hv|].
      rewrite <- (app_nil_r (pixels_bytes _ _ _ _ _ _ _ _ _)).
      rewrite stored_bytes_pixels by lia.
      unfold src_at. rewrite Hv. cbn [default numvals].
      now rewrite sample_bytes_ushort.
  - eexists. split; [|split].
    + apply convert_spec; assumption.
    + apply convert_spec; assumption.
    + intros y x c Hy Hx Hc.
      destruct (Hread y x c Hy Hx Hc) as [v Hv].
      exists v. split; [exact Hv|].
      rewrite (png_raster_stored_bytes _ _ _ _ _ _ _ _ _ _ v) by assumption.
      cbn [numvals]. now rewrite sample_bytes_ushort.
  - eexists. split; [|split].
    + apply convert_spec; assumption.
    + apply convert_spec; assumption.
    + intros y x c Hy Hx Hc.
      destruct (Hread y x c Hy Hx Hc) as [v Hv].
      exists v. split; [exact Hv|].
      rewrite (png_raster_stored_bytes _ _ _ _ _ _ _ _ _ _ v) by assumption.
      cbn [numvals]. now rewrite sample_bytes_ubyte.
Qed.

Lemma endian_normalised_per_row_witness :
  exists scratch,
    convert true eBitDepthUShort [F32.half]
      {| x1 := 0; y1 := 0; x2 := 1; y2 := 1 |} 1 0 3 4 = Some scratch
    /\ convert false eBitDepthUShort [F32.half]
         {| x1 := 0; y1 := 0; x2 := 1; y2 := 1 |} 1 0 3 4 = Some scratch.
Proof.
  assert (Hread : region_readable [F32.half]
                    {| x1 := 0; y1 := 0; x2 := 1; y2 := 1 |} 1 0 3 4).
  { intros y x c Hy Hx Hc. simpl in *.
    replace y with 0 by lia. replace x with 0 by lia.
    replace c with 0 by lia. vm_compute. eauto. }
  destruct (endian_normalised_per_row true [F32.half]
              {| x1 := 0; y1 := 0; x2 := 1; y2 := 1 |} 1 0 3 4
              ltac:(simpl; lia) ltac:(simpl; lia) ltac:(lia) ltac:(lia)
              Hread)
    as (_ & (scratch & H1 & H2 & _) & _).
  exists scratch. split; [exact H1 | exact H2].
Defined.

(** ** The orchestrator *)

Lemma accepted_channels_spec dstNComps :
  accepted_channels dstNComps = true
  <-> dstNComps = 1 \/ dstNComps = 3 \/ dstNComps = 4.
Proof.
  unfold accepted_channels.
  destruct (Z.eqb_spec dstNComps 4), (Z.eqb_spec dstNComps 3),
    (Z.eqb_spec dstNComps 1); simpl; split; intros; try lia;
    try discriminate; auto.
Qed.

(** Opening never meets an uninitialised handle when the channel count is
    one [create_write_struct] knows. *)
Lemma openFile_defined W filename nChannels :
  color_type_of_channels nChannels <> None ->
  exists opened r b,
    openFile W filename nChannels = Some (Ev_open_file filename b :: opened, r).
Proof.
  intros Hc. unfold openFile, create_write_struct.
  destruct (open_file_succeeds W filename); [|eauto].
  destruct (color_type_of_channels nChannels); [|congruence].
  destruct (png_create_write_struct_succeeds W),
    (png_create_info_struct_succeeds W); simpl; eauto.
Qed.

Lemma accepted_color_type dstNComps :
  accepted_channels dstNComps = true ->
  color_type_of_channels dstNComps <> None.
Proof.
  intros H. apply accepted_channels_spec in H.
  destruct H as [-> | [-> | ->]]; discriminate.
Qed.

(** The three ways an [encode] call ends. *)
Lemma encode_inv W host_little self filename pixelData bounds par
    pixelDataNComps dstNCompsStartIndex dstNComps rowBytes o :
  encode W host_little self filename pixelData bounds par pixelDataNComps
    dstNCompsStartIndex dstNComps rowBytes = Some o ->
  (accepted_channels dstNComps = false /\ o = rejected pixelData)
  \/ (accepted_channels dstNComps = true
      /\ exists opened what,
           openFile W filename dstNComps = Some (opened, inl what)
           /\ o = {| status := kOfxStatFailed;
                     events := opened ++ [Ev_setPersistentMessage what];
                     pixelData_after := pixelData |})
  \/ (accepted_channels dstNComps = true
      /\ exists opened color dithered scratch rows ok,
           openFile W filename dstNComps = Some (opened, inr color)
           /\ (if dithers self
               then add_dither pixelDataNComps (x2 bounds - x1 bounds)
                      (y2 bounds - y1 bounds) pixelData
                      (pixelDataNComps * 1)
                      (pixelDataNComps * 1 * (x2 bounds - x1 bounds))
                      (F32.div (F32.of_Z 1) (F32.of_Z 255))
                      (if pixelDataNComps =? 4 then 3 else -1) 1
               else Some pixelData) = Some dithered
           /\ convert host_little (pngDetph_of self) dithered bounds
                pixelDataNComps dstNCompsStartIndex dstNComps rowBytes
              = Some scratch
           /\ write_rows W scratch
                ((x2 bounds - x1 bounds) * dstNComps
                 * sizeof_sample (pngDetph_of self))
                (Z.to_nat (y2 bounds - y1 bounds))
                (y2 bounds - y1 bounds - 1) = (rows, ok)
           /\ o = {| status := if ok then kOfxStatOK else kOfxStatFailed;
                     events := opened ++ configured_events self
                               ++ header_events self color bounds par
                               ++ rows ++ closing_events ok;
                     pixelData_after := dithered |}).
Proof.
  unfold encode.
  destruct (negb (dstNComps =? 4) && negb (dstNComps =? 3)
            && negb (dstNComps =? 1)) eqn:Hrej.
  { intros [= <-]. left.
    split; [unfold accepted_channels; now rewrite Hrej | reflexivity]. }
  assert (Hacc : accepted_channels dstNComps = true)
    by (unfold accepted_channels; now rewrite Hrej).
  rewrite Hacc. intros H. right.
  destruct (openFile W filename dstNComps) as [[opened r]|] eqn:Hopen;
    [|discriminate H].
  cbn [mbind option_bind] in H.
  destruct r as [what|color].
  { injection H as <-. left. split; [reflexivity|]. eauto. }
  right. split; [reflexivity|].
  fold (pngDetph_of self) in H. fold (dithers self) in H.
  assert (Hsz : sizeof_sample (pngDetph_of self) = 1
                \/ dithers self = false).
  { unfold dithers. destruct (pngDetph_of self); simpl; auto. }
  destruct (if dithers self then _ else _) as [dithered|] eqn:Hd;
    [|discriminate H].
  cbn [mbind option_bind] in H.
  destruct (convert _ _ _ _ _ _ _ _) as [scratch|] eqn:Hc;
    [|discriminate H].
  cbn [mbind option_bind] in H.
  destruct (write_rows _ _ _ _ _) as [rows ok] eqn:Hrows.
  cbn [destroy_write_struct mbind option_bind] in H.
  exists opened, color, dithered, scratch, rows, ok.
  split; [reflexivity|]. split.
  { destruct Hsz as [Hsz | Hsz].
    - rewrite Hsz in Hd. exact Hd.
    - rewrite Hsz in *. exact Hd. }
  split; [exact Hc|]. split; [exact Hrows|].
  destruct ok; injection H as <-; unfold closing_events;
    rewrite <- ?app_assoc; reflexivity.
Qed.

(** *** The channel-count gate *)

(** C1 (amended). A destination channel count of 1, 3 or 4 passes the
    channel-count test of [encode], whose first act is then to open the
    destination file; any other count, 2 included, makes the call fail
    with [kOfxStatErrFormat] and its message, and no file is opened at the
    destination path. *)
Theorem channel_count_gate W host_little self filename pixelData bounds par
    pixelDataNComps dstNCompsStartIndex dstNComps rowBytes :
  (dstNComps = 1 \/ dstNComps = 3 \/ dstNComps = 4 ->
   exists opened r b,
     openFile W filename dstNComps
     = Some (Ev_open_file filename b :: opened, r)
     /\ forall o,
          encode W host_little self filename pixelData bounds par
            pixelDataNComps dstNCompsStartIndex dstNComps rowBytes = Some o ->
          status o <> kOfxStatErrFormat
          /\ exists rest,
               events o = Ev_open_file filename b :: opened ++ rest)
  /\ (~ (dstNComps = 1 \/ dstNComps = 3 \/ dstNComps = 4) ->
      encode W host_little self filename pixelData bounds par
        pixelDataNComps dstNCompsStartIndex dstNComps rowBytes
      = Some (rejected pixelData)
      /\ status (rejected pixelData) = kOfxStatErrFormat
      /\ forall f b, ~ In (Ev_open_file f b) (events (rejected pixelData))).
Proof.
  split.
  - intros Hacc. apply accepted_channels_spec in Hacc.
    destruct (openFile_defined W filename dstNComps
                (accepted_color_type _ Hacc)) as (opened & r & b & Hopen).
    exists opened, r, b. split; [exact Hopen|].
    intros o Ho. apply encode_inv in Ho.
    destruct Ho as [[Hrej _] | [[_ Ho] | [_ Ho]]]; [congruence| |].
    + destruct Ho as (opened' & what & Hopen' & ->).
      rewrite Hopen in Hopen'. injection Hopen' as <- ->.
      split; [discriminate|]. simpl. eauto.
    + destruct Ho as (opened' & color & dithered & scratch & rows & ok
                      & Hopen' & _ & _ & _ & ->).
      rewrite Hopen in Hopen'. injection Hopen' as <- ->.
      split; [destruct ok; discriminate|]. simpl. eauto.
  - intros Hrej. split; [|split; [reflexivity|]].
    + unfold encode.
      destruct (negb (dstNComps =? 4) && negb (dstNComps =? 3)
                && negb (dstNComps =? 1)) eqn:H; [reflexivity|].
      exfalso. apply Hrej, accepted_channels_spec.
      unfold accepted_channels. now rewrite H.
    + intros f b [H|[]]. discriminate H.
Qed.

Lemma channel_count_gate_witness :
  encode World_ok true (plugin_8bit false "sRGB") "out.png" [] (region 1 1)
    F32.one 5 0 5 20
  = Some (rejected []).
Proof.
  apply (channel_count_gate World_ok true (plugin_8bit false "sRGB")
           "out.png" [] (region 1 1) F32.one 5 0 5 20).
  lia.
Defined.

(** C1 as stated fails at 2: a gray + alpha destination does not pass the
    test of [encode], although [create_write_struct] has a colour type for
    it. *)
Lemma two_channels_rejected :
  color_type_of_channels 2 = Some PNG_COLOR_TYPE_GRAY_ALPHA
  /\ encode World_ok true (plugin_8bit false "sRGB") "out.png"
       [F32.half; F32.one] (region 1 1) F32.one 2 0 2 8
     = Some (rejected [F32.half; F32.one])
  /\ ~ (forall o,
          encode World_ok true (plugin_8bit false "sRGB") "out.png"
            [F32.half; F32.one] (region 1 1) F32.one 2 0 2 8 = Some o ->
          status o <> kOfxStatErrFormat).
Proof.
  split; [reflexivity|]. split; [reflexivity|].
  intros H. now apply (H (rejected [F32.half; F32.one])).
Qed.

(** *** The gamma and profile hint *)

Lemma gamma_hint_table name :
  gamma_hint name
  = match table_lookup name known_colorspaces with
    | Some e => [e]
    | None => []
    end.
Proof.
  unfold gamma_hint, is_named, known_colorspaces, table_lookup.
  repeat (destruct (String.eqb name _); [reflexivity|]).
  reflexivity.
Qed.

Lemma table_lookup_none name table :
  (forall key e, In (key, e) table -> name <> key) ->
  table_lookup name table = None.
Proof.
  induction table as [|[key e] table IH]; intros H; [reflexivity|].
  simpl. destruct (String.eqb_spec name key) as [->|_].
  - exfalso. apply (H key e); [now left | reflexivity].
  - apply IH. intros key' e' Hin. apply (H key' e'). now right.
Qed.

Lemma openFile_events W filename nChannels opened r e :
  openFile W filename nChannels = Some (opened, r) ->
  In e opened ->
  match e with
  | Ev_open_file _ _ | Ev_png_create_write_struct _
  | Ev_png_create_info_struct _ | Ev_png_write_end
  | Ev_png_destroy_write_struct | Ev_fclose => True
  | _ => False
  end.
Proof.
  unfold openFile, create_write_struct, destroy_write_struct.
  destruct (open_file_succeeds W filename).
  - destruct (color_type_of_channels nChannels); [|discriminate].
    destruct (png_create_write_struct_succeeds W),
      (png_create_info_struct_succeeds W); simpl;
      intros [= <- <-]; simpl; intuition (subst; exact I).
  - intros [= <- <-]. simpl. intuition (subst; exact I).
Qed.

Lemma write_rows_events W scratch pngRowSize n : forall y rows ok e,
  write_rows W scratch pngRowSize n y = (rows, ok) ->
  In e rows -> exists y' row, e = Ev_png_write_row y' row.
Proof.
  induction n as [|n IH]; intros y rows ok e; simpl.
  - intros [= <- <-] [].
  - destruct (png_write_row_succeeds W y); [|intros [= <- <-] []].
    destruct (write_rows W scratch pngRowSize n (y - 1)) as [rest ok']
      eqn:Hrest.
    intros [= <- <-] [<-|Hin]; [eauto|].
    now apply (IH _ _ _ _ Hrest).
Qed.

Lemma filter_nil_of_forall {A : Type} (p : A -> bool) (l : list A) :
  (forall x, In x l -> p x = false) -> List.filter p l = [].
Proof.
  induction l as [|x l IH]; intros H; [reflexivity|].
  simpl. rewrite (H x) by now left. apply IH. intros y Hy. apply H. now right.
Qed.

(** C3 (amended). [write_info] chooses the gamma/profile hint by exact
    string match of the colour-space name it is given against the fixed
    table (sRGB family: the sRGB chunk; Gamma1.8: gamma 1/1.8; Gamma2.2
    family: gamma 1/2.2; Linear family: gamma 1.0), and a name that is not
    in the table leaves gamma and profile unset, [write_info] having no
    failure of its own; [encode] always hands [write_info] the empty name,
    so that no encode call sets gamma or profile, whatever output colour
    space is configured. *)
Theorem gamma_hint_selection :
  (forall color x1 y1 width height par name depth,
     List.filter is_gamma_event
       (write_info color x1 y1 width height par name depth)
     = match table_lookup name known_colorspaces with
       | Some e => [e]
       | None => []
       end)
  /\ (forall color x1 y1 width height par name depth,
        (forall key e, In (key, e) known_colorspaces -> name <> key) ->
        List.filter is_gamma_event
          (write_info color x1 y1 width height par name depth) = [])
  /\ (forall W host_little self filename pixelData bounds par
        pixelDataNComps dstNCompsStartIndex dstNComps rowBytes o,
        encode W host_little self filename pixelData bounds par
          pixelDataNComps dstNCompsStartIndex dstNComps rowBytes = Some o ->
        List.filter is_gamma_event (events o) = []).
Proof.
  assert (Hinfo : forall color x1 y1 width height par name depth,
            List.filter is_gamma_event
              (write_info color x1 y1 width height par name depth)
            = gamma_hint name).
  { intros. unfold write_info. simpl. rewrite List.filter_app. simpl.
    rewrite app_nil_r. unfold gamma_hint.
    repeat match goal with
           | |- context [if ?b then _ else _] => destruct b; [reflexivity|]
           end.
    reflexivity. }
  split; [|split].
  - intros. rewrite Hinfo. apply gamma_hint_table.
  - intros * Hnot. rewrite Hinfo, gamma_hint_table.
    now rewrite table_lookup_none.
  - intros * Ho. apply encode_inv in Ho.
    destruct Ho as [[_ ->] | [[_ Ho] | [_ Ho]]]; [reflexivity| |].
    + destruct Ho as (opened & what & Hopen & ->). simpl.
      apply filter_nil_of_forall. intros e He.
      apply in_app_or in He as [He | [<- | []]]; [|reflexivity].
      pose proof (openFile_events _ _ _ _ _ _ Hopen He) as H.
      now destruct e.
    + destruct Ho as (opened & color & dithered & scratch & rows & ok
                      & Hopen & _ & _ & Hrows & ->).
      cbn [events]. rewrite !List.filter_app.
      unfold header_events. rewrite Hinfo.
      replace (List.filter is_gamma_event opened) with (@nil event).
      2:{ symmetry. apply filter_nil_of_forall. intros e He.
          pose proof (openFile_events _ _ _ _ _ _ Hopen He) as H.
          now destruct e. }
      replace (List.filter is_gamma_event rows) with (@nil event).
      2:{ symmetry. apply filter_nil_of_forall. intros e He.
          destruct (write_rows_events _ _ _ _ _ _ _ _ Hrows He)
            as (y' & row & ->). reflexivity. }
      now destruct ok.
Qed.

(** C3 as stated fails on every configured name of the table: with sRGB
    configured, [encode] sets neither the sRGB chunk nor a gamma. *)
Lemma configured_colorspace_ignored :
  exists o,
    encode World_ok true (plugin_8bit false "sRGB") "out.png" rgba_pixel
      (region 1 1) F32.one 4 0 4 16 = Some o
    /\ List.filter is_gamma_event (events o) = []
    /\ gamma_hint (_ocio_outputColorspace (plugin_8bit false "sRGB"))
       = [Ev_png_set_sRGB_gAMA_and_cHRM].
Proof. eexists. split; [vm_compute; reflexivity|]. split; reflexivity. Qed.

Lemma gamma_hint_selection_witness :
  List.filter is_gamma_event
    (write_info PNG_COLOR_TYPE_RGB 0 0 1 1 F32.one "Gamma1.8" eBitDepthUByte)
  = [Ev_png_set_gAMA (10 # 18)]
  /\ List.filter is_gamma_event
       (write_info PNG_COLOR_TYPE_RGB 0 0 1 1 F32.one "Rec709"
          eBitDepthUByte) = [].
Proof.
  destruct gamma_hint_selection as (Htable & Hunset & _).
  split.
  - rewrite Htable. reflexivity.
  - apply Hunset. intros key e Hin.
    repeat (destruct Hin as [[= <- <-] | Hin]; [discriminate|]).
    destruct Hin.
Defined.

(** *** Row emission *)

(** The row loop visits [y], [y - 1], ... and stops at the first row
    [png_write_row] does not return from. *)
Lemma write_rows_spec W scratch pngRowSize n : forall y rows ok,
  write_rows W scratch pngRowSize n y = (rows, ok) ->
  exists k,
    (k <= n)%nat /\ (ok = true -> k = n)
    /\ rows = (fun i : nat =>
                 Ev_png_write_row (y - Z.of_nat i)
                   (scratch_row scratch pngRowSize (y - Z.of_nat i)))
              <$> seq 0 k.
Proof.
  induction n as [|n IH]; intros y rows ok; simpl.
  - intros [= <- <-]. exists 0%nat. repeat split; lia.
  - destruct (png_write_row_succeeds W y).
    + destruct (write_rows W scratch pngRowSize n (y - 1)) as [rest ok']
        eqn:Hrest.
      intros [= <- <-].
      destruct (IH _ _ _ Hrest) as (k & Hk & Hok & ->).
      exists (S k). split; [lia|]. split; [intros H; f_equal; auto|].
      cbn [seq fmap list_fmap]. rewrite Z.sub_0_r. f_equal.
      rewrite <- fmap_S_seq, <- list_fmap_compose.
      apply list_fmap_ext. intros _ i _. simpl.
      now replace (y - 1 - Z.of_nat i) with (y - Z.of_nat (S i)) by lia.
    + intros [= <- <-]. exists 0%nat. repeat split; [lia | discriminate].
Qed.

Lemma emitted_rows_app evs evs' :
  emitted_rows (evs ++ evs') = emitted_rows evs ++ emitted_rows evs'.
Proof. apply omap_app. Qed.

Lemma emitted_rows_none evs :
  (forall e, In e evs -> forall y row, e <> Ev_png_write_row y row) ->
  emitted_rows evs = [].
Proof.
  induction evs as [|e evs IH]; intros H; [reflexivity|].
  unfold emitted_rows in *. cbn [omap list_omap].
  destruct e; try (apply IH; intros e' He'; apply H; now right).
  exfalso. eapply H; [now left | reflexivity].
Qed.

(** C7. When the rows have all been written, the [i]-th row handed to the
    encoder is the row stored at index [H - 1 - i] of the scratch buffer,
    [H] being the height of the region, and every row of the buffer is
    handed over exactly once. *)
Theorem rows_emitted_in_reverse W host_little self filename pixelData
    bounds par pixelDataNComps dstNCompsStartIndex dstNComps rowBytes o :
  encode W host_little self filename pixelData bounds par pixelDataNComps
    dstNCompsStartIndex dstNComps rowBytes = Some o ->
  status o = kOfxStatOK ->
  exists scratch,
    convert host_little (pngDetph_of self) (pixelData_after o) bounds
      pixelDataNComps dstNCompsStartIndex dstNComps rowBytes = Some scratch
    /\ length (emitted_rows (events o)) = Z.to_nat (y2 bounds - y1 bounds)
    /\ (forall i,
          0 <= i < y2 bounds - y1 bounds ->
          emitted_rows (events o) !! Z.to_nat i
          = Some (y2 bounds - y1 bounds - 1 - i,
                  scratch_row scratch
                    ((x2 bounds - x1 bounds) * dstNComps
                     * sizeof_sample (pngDetph_of self))
                    (y2 bounds - y1 bounds - 1 - i)))
    /\ (forall y,
          0 <= y < y2 bounds - y1 bounds ->
          forall (j : nat) row,
            emitted_rows (events o) !! j = Some (y, row) ->
            j = Z.to_nat (y2 bounds - y1 bounds - 1 - y)).
Proof.
  intros Ho Hok. apply encode_inv in Ho.
  destruct Ho as [[_ ->] | [[_ Ho] | [_ Ho]]]; [discriminate Hok| |].
  { destruct Ho as (opened & what & _ & ->). discriminate Hok. }
  destruct Ho as (opened & color & dithered & scratch & rows & ok
                  & Hopen & _ & Hconv & Hrows & ->).
  cbn [status] in Hok. destruct ok; [clear Hok | discriminate Hok].
  exists scratch. cbn [pixelData_after events]. split; [exact Hconv|].
  destruct (write_rows_spec _ _ _ _ _ _ _ Hrows) as (k & _ & Hk & ->).
  specialize (Hk eq_refl). subst k.
  set (H := y2 bounds - y1 bounds) in *.
  set (rs := (x2 bounds - x1 bounds) * dstNComps
             * sizeof_sample (pngDetph_of self)) in *.
  assert (Hem : emitted_rows
                  (opened ++ configured_events self
                   ++ header_events self color bounds par
                   ++ ((fun i : nat =>
                          Ev_png_write_row (H - 1 - Z.of_nat i)
                            (scratch_row scratch rs (H - 1 - Z.of_nat i)))
                       <$> seq 0 (Z.to_nat H))
                   ++ closing_events true)
                = (fun i : nat =>
                     (H - 1 - Z.of_nat i,
                      scratch_row scratch rs (H - 1 - Z.of_nat i)))
                  <$> seq 0 (Z.to_nat H)).
  { rewrite !emitted_rows_app.
    rewrite (emitted_rows_none opened).
    2:{ intros e He y row ->.
        exact (openFile_events _ _ _ _ _ _ Hopen He). }
    change (emitted_rows (configured_events self)) with (@nil (Z * list Z)).
    change (emitted_rows (header_events self color bounds par))
      with (@nil (Z * list Z)).
    change (emitted_rows (closing_events true)) with (@nil (Z * list Z)).
    rewrite app_nil_r. simpl.
    unfold emitted_rows. generalize (seq 0 (Z.to_nat H)).
    intros l. induction l as [|i l IH]; [reflexivity|].
    cbn [fmap list_fmap omap list_omap]. now rewrite IH. }
  rewrite Hem. split; [|split].
  - now rewrite length_fmap, length_seq.
  - intros i Hi. rewrite list_lookup_fmap, lookup_seq_lt by lia.
    simpl. now rewrite Z2Nat.id by lia.
  - intros y Hy j row Hj.
    rewrite list_lookup_fmap in Hj.
    destruct (seq 0 (Z.to_nat H) !! j) as [i|] eqn:Hi; [|discriminate Hj].
    apply lookup_seq in Hi as [-> _]. simpl in Hj.
    injection Hj as Hy' _. lia.
Qed.

Lemma rows_emitted_in_reverse_witness :
  exists o scratch,
    encode World_ok true (plugin_8bit false "sRGB") "out.png"
      (rgba_pixel ++ [F32.zero; F32.zero; F32.zero; F32.one])
      (region 1 2) F32.one 4 0 4 16 = Some o
    /\ convert true eBitDepthUByte (pixelData_after o) (region 1 2) 4 0 4 16
       = Some scratch
    /\ emitted_rows (events o) !! 0%nat = Some (1, scratch_row scratch 4 1)
    /\ emitted_rows (events o) !! 1%nat = Some (0, scratch_row scratch 4 0).
Proof.
  eassert (Ho : encode World_ok true (plugin_8bit false "sRGB") "out.png"
                  (rgba_pixel ++ [F32.zero; F32.zero; F32.zero; F32.one])
                  (region 1 2) F32.one 4 0 4 16 = Some _)
    by (vm_compute; reflexivity).
  destruct (rows_emitted_in_reverse _ _ _ _ _ _ _ _ _ _ _ _ Ho eq_refl)
    as (scratch & Hconv & _ & Hrow & _).
  eexists _, scratch. split; [exact Ho|]. split; [exact Hconv|].
  split.
  - exact (Hrow 0 ltac:(simpl; lia)).
  - exact (Hrow 1 ltac:(simpl; lia)).
Defined.

(** *** The source buffer *)

Lemma write_rows_total W scratch pngRowSize n y :
  exists rows ok, write_rows W scratch pngRowSize n y = (rows, ok).
Proof. destruct (write_rows W scratch pngRowSize n y); eauto. Qed.

Lemma dithers_false self :
  _bitdepth self <> 0 \/ _ditherEnabled self = false -> dithers self = false.
Proof.
  unfold dithers, pngDetph_of. intros [H | ->].
  - destruct (Z.eqb_spec (_bitdepth self) 0); [contradiction | reflexivity].
  - apply andb_false_r.
Qed.

(** C9. With 16-bit depth, or with 8-bit depth and dithering disabled, an
    [encode] call leaves the caller's source buffer as it found it, however
    the call ends, and on a readable region the call is defined; a source
    buffer that differs after the call is the result of [add_dither]. *)
Theorem source_buffer_frame W host_little self filename pixelData bounds par
    pixelDataNComps dstNCompsStartIndex dstNComps rowBytes :
  (forall o,
     encode W host_little self filename pixelData bounds par pixelDataNComps
       dstNCompsStartIndex dstNComps rowBytes = Some o ->
     _bitdepth self <> 0 \/ _ditherEnabled self = false ->
     pixelData_after o = pixelData)
  /\ (forall o,
        encode W host_little self filename pixelData bounds par
          pixelDataNComps dstNCompsStartIndex dstNComps rowBytes = Some o ->
        pixelData_after o <> pixelData ->
        _bitdepth self = 0 /\ _ditherEnabled self = true
        /\ exists xstride ystride amplitude alpha seed,
             add_dither pixelDataNComps (x2 bounds - x1 bounds)
               (y2 bounds - y1 bounds) pixelData xstride ystride amplitude
               alpha seed = Some (pixelData_after o))
  /\ (_bitdepth self <> 0 \/ _ditherEnabled self = false ->
      0 <= x2 bounds - x1 bounds -> 0 <= y2 bounds - y1 bounds ->
      0 <= pixelDataNComps ->
      region_readable pixelData bounds pixelDataNComps dstNCompsStartIndex
        dstNComps rowBytes ->
      exists o,
        encode W host_little self filename pixelData bounds par
          pixelDataNComps dstNCompsStartIndex dstNComps rowBytes = Some o
        /\ pixelData_after o = pixelData).
Proof.
  assert (Hframe : forall o,
    encode W host_little self filename pixelData bounds par pixelDataNComps
      dstNCompsStartIndex dstNComps rowBytes = Some o ->
    pixelData_after o = pixelData
    \/ (dithers self = true
        /\ add_dither pixelDataNComps (x2 bounds - x1 bounds)
             (y2 bounds - y1 bounds) pixelData (pixelDataNComps * 1)
             (pixelDataNComps * 1 * (x2 bounds - x1 bounds))
             (F32.div (F32.of_Z 1) (F32.of_Z 255))
             (if pixelDataNComps =? 4 then 3 else -1) 1
           = Some (pixelData_after o))).
  { intros o Ho. apply encode_inv in Ho.
    destruct Ho as [[_ ->] | [[_ Ho] | [_ Ho]]]; [now left| |].
    - destruct Ho as (opened & what & _ & ->). now left.
    - destruct Ho as (opened & color & dithered & scratch & rows & ok
                      & _ & Hd & _ & _ & ->).
      cbn [pixelData_after].
      destruct (dithers self); [right; now split | left; congruence]. }
  split; [|split].
  - intros o Ho Hcfg.
    destruct (Hframe o Ho) as [H | [H _]]; [exact H|].
    rewrite (dithers_false self Hcfg) in H. discriminate H.
  - intros o Ho Hchanged.
    destruct (Hframe o Ho) as [H | [Hd Hdith]]; [contradiction|].
    unfold dithers, pngDetph_of in Hd.
    apply andb_prop in Hd as [Hdepth ->].
    destruct (Z.eqb_spec (_bitdepth self) 0); [|discriminate Hdepth].
    repeat split; eauto 10.
  - intros Hcfg Hw Hh HNC Hread.
    destruct (accepted_channels dstNComps) eqn:Hacc.
    2:{ exists (rejected pixelData). split; [|reflexivity].
        unfold encode. unfold accepted_channels in Hacc.
        now destruct (negb (dstNComps =? 4) && negb (dstNComps =? 3)
                      && negb (dstNComps =? 1)). }
    assert (HDC : 0 <= dstNComps)
      by (apply accepted_channels_spec in Hacc; lia).
    destruct (openFile_defined W filename dstNComps
                (accepted_color_type _ Hacc)) as (opened & r & b & Hopen).
    unfold encode. unfold accepted_channels in Hacc.
    destruct (negb (dstNComps =? 4) && negb (dstNComps =? 3)
              && negb (dstNComps =? 1)); [discriminate Hacc|].
    rewrite Hopen. cbn [mbind option_bind].
    destruct r as [what|color]; [eauto|].
    fold (pngDetph_of self). fold (dithers self).
    rewrite (dithers_false self Hcfg). cbn [mbind option_bind].
    rewrite convert_spec by assumption. cbn [mbind option_bind].
    destruct (write_rows _ _ _ _ _) as [rows ok].
    cbn [destroy_write_struct mbind option_bind].
    destruct ok; eauto.
Qed.

Lemma source_buffer_frame_witness :
  exists o,
    encode World_ok true (plugin_16bit true "sRGB") "out.png" rgba_pixel
      (region 1 1) F32.one 4 0 4 16 = Some o
    /\ pixelData_after o = rgba_pixel.
Proof.
  apply (source_buffer_frame World_ok true (plugin_16bit true "sRGB")
           "out.png" rgba_pixel (region 1 1) F32.one 4 0 4 16);
    try (simpl; lia).
  intros y x c Hy Hx Hc. simpl in *.
  replace y with 0 by lia. replace x with 0 by lia.
  assert (c = 0 \/ c = 1 \/ c = 2 \/ c = 3) as [-> | [-> | [-> | ->]]]
    by lia; vm_compute; eauto.
Defined.

Lemma encode_with_add_dither W host_little self filename pixelData bounds
    par pixelDataNComps dstNCompsStartIndex dstNComps rowBytes :
  encode W host_little self filename pixelData bounds par pixelDataNComps
    dstNCompsStartIndex dstNComps rowBytes
  = encode_with add_dither W host_little self filename pixelData bounds par
      pixelDataNComps dstNCompsStartIndex dstNComps rowBytes.
Proof. reflexivity. Qed.

(** The dithering step of [encode], whatever function it calls to dither:
    one call, on the source buffer, with the strides of the 8-bit raster,
    the amplitude [1.f / 255.f], the seed 1 and the excluded channel 3 for
    a source of 4 channels, -1 otherwise; what the call returns goes
    through the rest of [encode], and no outcome of the call is none of
    [encode]. *)
Lemma encode_with_dither dither W host_little self filename pixelData
    bounds par pixelDataNComps dstNCompsStartIndex dstNComps rowBytes opened
    color :
  accepted_channels dstNComps = true ->
  openFile W filename dstNComps = Some (opened, inr color) ->
  _bitdepth self = 0 -> _ditherEnabled self = true ->
  encode_with dither W host_little self filename pixelData bounds par
    pixelDataNComps dstNCompsStartIndex dstNComps rowBytes
  = dithered ←
      dither pixelDataNComps (x2 bounds - x1 bounds)
        (y2 bounds - y1 bounds) pixelData
        (pixelDataNComps * sizeof_sample eBitDepthUByte)
        (pixelDataNComps * sizeof_sample eBitDepthUByte
         * (x2 bounds - x1 bounds))
        (F32.div (F32.of_Z 1) (F32.of_Z 255))
        (if pixelDataNComps =? 4 then 3 else -1) 1;
    encode_dithered W host_little self opened color dithered bounds par
      pixelDataNComps dstNCompsStartIndex dstNComps rowBytes.
Proof.
  intros Hacc Hopen Hdepth Hdither.
  unfold encode_with, encode_dithered, accepted_channels in *.
  destruct (negb (dstNComps =? 4) && negb (dstNComps =? 3)
            && negb (dstNComps =? 1)); [discriminate Hacc|].
  rewrite Hopen. cbn [mbind option_bind].
  unfold pngDetph_of. rewrite Hdepth, Hdither.
  cbn [Z.eqb BitDepthEnum_eqb andb sizeof_sample].
  destruct (dither _ _ _ _ _ _ _ _ _) as [dithered|]; [|reflexivity].
  cbn [mbind option_bind].
  destruct (convert _ _ _ _ _ _ _ _) as [scratch|]; [|reflexivity].
  cbn [mbind option_bind].
  destruct (write_rows _ _ _ _ _) as [rows ok].
  cbn [destroy_write_struct mbind option_bind].
  destruct ok; unfold closing_events, configured_events, header_events,
    pngDetph_of; rewrite Hdepth; rewrite <- ?app_assoc; reflexivity.
Qed.

(** C10. Every call of [encode] that reaches the dithering step (8-bit
    depth, dithering on, the file and both structures made) makes one call
    to the ditherer, with the seed 1, the amplitude [1.f / 255.f] (the
    float quotient), the strides of the 8-bit raster and an excluded
    channel that is 3 when the source has exactly 4 channels and otherwise
    -1, which is the index of no channel of the source.  This is so for
    every region and every source, and whatever the callee makes of the
    call: it holds of [encode_with] for every callee, hence of [encode]
    with [add_dither], whose result, or lack of one, is that of [encode]. *)
Theorem dither_invocation W host_little self filename pixelData bounds par
    pixelDataNComps dstNCompsStartIndex dstNComps rowBytes opened color :
  accepted_channels dstNComps = true ->
  openFile W filename dstNComps = Some (opened, inr color) ->
  _bitdepth self = 0 -> _ditherEnabled self = true ->
  exists alpha,
    (pixelDataNComps = 4 -> alpha = 3)
    /\ (pixelDataNComps <> 4 ->
        alpha = -1 /\ forall c, 0 <= c < pixelDataNComps -> c <> alpha)
    /\ (forall dither : ditherer,
          encode_with dither W host_little self filename pixelData bounds
            par pixelDataNComps dstNCompsStartIndex dstNComps rowBytes
          = dithered ←
              dither pixelDataNComps (x2 bounds - x1 bounds)
                (y2 bounds - y1 bounds) pixelData
                (pixelDataNComps * sizeof_sample eBitDepthUByte)
                (pixelDataNComps * sizeof_sample eBitDepthUByte
                 * (x2 bounds - x1 bounds))
                (F32.div (F32.of_Z 1) (F32.of_Z 255)) alpha 1;
            encode_dithered W host_little self opened color dithered bounds
              par pixelDataNComps dstNCompsStartIndex dstNComps rowBytes)
    /\ encode W host_little self filename pixelData bounds par
         pixelDataNComps dstNCompsStartIndex dstNComps rowBytes
       = (dithered ←
            add_dither pixelDataNComps (x2 bounds - x1 bounds)
              (y2 bounds - y1 bounds) pixelData
              (pixelDataNComps * sizeof_sample eBitDepthUByte)
              (pixelDataNComps * sizeof_sample eBitDepthUByte
               * (x2 bounds - x1 bounds))
              (F32.div (F32.of_Z 1) (F32.of_Z 255)) alpha 1;
          encode_dithered W host_little self opened color dithered bounds
            par pixelDataNComps dstNCompsStartIndex dstNComps rowBytes)
    /\ (forall o,
          encode W host_little self filename pixelData bounds par
            pixelDataNComps dstNCompsStartIndex dstNComps rowBytes = Some o ->
          add_dither pixelDataNComps (x2 bounds - x1 bounds)
            (y2 bounds - y1 bounds) pixelData
            (pixelDataNComps * sizeof_sample eBitDepthUByte)
            (pixelDataNComps * sizeof_sample eBitDepthUByte
             * (x2 bounds - x1 bounds))
            (F32.div (F32.of_Z 1) (F32.of_Z 255)) alpha 1
          = Some (pixelData_after o)).
Proof.
  intros Hacc Hopen Hdepth Hdither.
  exists (if pixelDataNComps =? 4 then 3 else -1).
  split; [intros ->; reflexivity|].
  split.
  { intros Hne. destruct (Z.eqb_spec pixelDataNComps 4); [contradiction|].
    split; [reflexivity | intros c Hc; lia]. }
  split; [intros dither; now apply encode_with_dither|].
  assert (Heq := encode_with_dither add_dither W host_little self filename
                   pixelData bounds par pixelDataNComps dstNCompsStartIndex
                   dstNComps rowBytes opened color Hacc Hopen Hdepth Hdither).
  rewrite <- encode_with_add_dither in Heq.
  split; [exact Heq|].
  intros o Ho. rewrite Heq in Ho.
  destruct (add_dither _ _ _ _ _ _ _ _ _) as [dithered|];
    [|discriminate Ho].
  cbn [mbind option_bind] in Ho. unfold encode_dithered in Ho.
  destruct (convert _ _ _ _ _ _ _ _) as [scratch|]; [|discriminate Ho].
  cbn [mbind option_bind] in Ho.
  destruct (write_rows _ _ _ _ _) as [rows ok].
  now injection Ho as <-.
Qed.

Lemma dither_invocation_witness :
  (exists alpha,
     alpha = -1
     /\ (forall c, 0 <= c < 3 -> c <> alpha)
     /\ encode World_ok true (plugin_8bit true "sRGB") "out.png"
          (replicate 6 F32.half) (region 2 1) F32.one 3 0 3 24
        = (dithered ←
             add_dither 3 2 1 (replicate 6 F32.half) 3 6
               (F32.div (F32.of_Z 1) (F32.of_Z 255)) alpha 1;
           encode_dithered World_ok true (plugin_8bit true "sRGB")
             [Ev_open_file "out.png" true; Ev_png_create_write_struct true;
              Ev_png_create_info_struct true]
             PNG_COLOR_TYPE_RGB dithered (region 2 1) F32.one 3 0 3 24))
  /\ (exists alpha o,
        alpha = 3
        /\ encode World_ok true (plugin_8bit true "sRGB") "out.png"
             (rgba_pixel ++ rgba_pixel ++ rgba_pixel ++ rgba_pixel)
             (region 2 2) F32.one 4 0 4 32 = Some o
        /\ add_dither 4 2 2
             (rgba_pixel ++ rgba_pixel ++ rgba_pixel ++ rgba_pixel) 4 8
             (F32.div (F32.of_Z 1) (F32.of_Z 255)) alpha 1
           = Some (pixelData_after o)).
Proof.
  split.
  - destruct (dither_invocation World_ok true (plugin_8bit true "sRGB")
                "out.png" (replicate 6 F32.half) (region 2 1) F32.one
                3 0 3 24
                [Ev_open_file "out.png" true;
                 Ev_png_create_write_struct true;
                 Ev_png_create_info_struct true]
                PNG_COLOR_TYPE_RGB eq_refl eq_refl eq_refl eq_refl)
      as (alpha & _ & Hn4 & _ & Heq & _).
    destruct (Hn4 ltac:(lia)) as [Ha Hc].
    exists alpha. split; [exact Ha|]. split; [exact Hc | exact Heq].
  - destruct (dither_invocation World_ok true (plugin_8bit true "sRGB")
                "out.png"
                (rgba_pixel ++ rgba_pixel ++ rgba_pixel ++ rgba_pixel)
                (region 2 2) F32.one 4 0 4 32
                [Ev_open_file "out.png" true;
                 Ev_png_create_write_struct true;
                 Ev_png_create_info_struct true]
                PNG_COLOR_TYPE_RGB_ALPHA eq_refl eq_refl eq_refl eq_refl)
      as (alpha & H4 & _ & _ & _ & Hsome).
    eassert (Ho : encode World_ok true (plugin_8bit true "sRGB") "out.png"
                    (rgba_pixel ++ rgba_pixel ++ rgba_pixel ++ rgba_pixel)
                    (region 2 2) F32.one 4 0 4 32 = Some _)
      by (vm_compute; reflexivity).
    eexists alpha, _. split; [exact (H4 eq_refl)|].
    split; [exact Ho | exact (Hsome _ Ho)].
Defined.

(** ** The mixer as a permutation *)

(** X1. [rotl32] on a 32-bit word and a count strictly between 0 and 32 is the
    circular rotation: the result is a 32-bit word whose bit [i] is bit [i - k]
    of [x], counted modulo 32, and rotating on by the [32 - k] places that are
    left gives [x] back. *)
Theorem rotl32_rotates x k :
  in_uint32 x -> 0 < k < 32 ->
  in_uint32 (UInt32.rotl32 x k)
  /\ (forall i, 0 <= i < 32 ->
        Z.testbit (UInt32.rotl32 x k) i = Z.testbit x ((i - k) mod 32))
  /\ UInt32.rotl32 (UInt32.rotl32 x k) (32 - k) = x.
Proof.
  intros Hx Hk.
  assert (Hbits : forall y j, in_uint32 y -> 0 < j < 32 ->
            forall i, 0 <= i < 32 ->
            Z.testbit (UInt32.rotl32 y j) i = Z.testbit y ((i - j) mod 32)).
  { intros y j [Hy Hy'] Hj i Hi.
    assert (Hhigh : forall n, 32 <= n -> Z.testbit y n = false).
    { intros n Hn. rewrite <- (Z.mod_small y (2 ^ 32)) by lia.
      apply Z.mod_pow2_bits_high. lia. }
    unfold UInt32.rotl32, UInt32.wrap32, UInt32.modulus.
    rewrite Z.lor_spec, Z.mod_pow2_bits_low by lia.
    rewrite Z.shiftl_spec, Z.shiftr_spec by lia.
    destruct (Z.lt_ge_cases i j) as [Hlt | Hge].
    - rewrite (Z.testbit_neg_r y (i - j)) by lia. cbn [orb].
      f_equal. apply Z.mod_unique with (-1); lia.
    - rewrite (Hhigh (i + (32 - j))) by lia. rewrite orb_false_r.
      f_equal. apply Z.mod_unique with 0; lia. }
  assert (Hr : in_uint32 (UInt32.rotl32 x k))
    by (apply rotl32_range; [exact Hx | lia]).
  split; [exact Hr|]. split; [now apply Hbits|].
  assert (Hrr : in_uint32 (UInt32.rotl32 (UInt32.rotl32 x k) (32 - k)))
    by (apply rotl32_range; [exact Hr | lia]).
  assert (Hhigh : forall y n, in_uint32 y -> 32 <= n -> Z.testbit y n = false).
  { intros y n [Hy Hy'] Hn. rewrite <- (Z.mod_small y (2 ^ 32)) by lia.
    apply Z.mod_pow2_bits_high. lia. }
  apply Z.bits_inj'. intros i Hi.
  destruct (Z.lt_ge_cases i 32) as [Hlt | Hge].
  - rewrite Hbits by (try assumption; lia).
    assert (Hj : 0 <= (i - (32 - k)) mod 32 < 32)
      by (apply Z.mod_pos_bound; lia).
    rewrite Hbits by (try assumption; lia).
    f_equal. rewrite Zminus_mod_idemp_l.
    replace (i - (32 - k) - k) with (i + -1 * 32) by lia.
    rewrite Z.mod_add by lia. apply Z.mod_small. lia.
  - now rewrite !Hhigh.
Qed.

Lemma rotl32_rotates_witness :
  in_uint32 (UInt32.rotl32 2147483649 4)
  /\ (forall i, 0 <= i < 32 ->
        Z.testbit (UInt32.rotl32 2147483649 4) i
        = Z.testbit 2147483649 ((i - 4) mod 32))
  /\ UInt32.rotl32 (UInt32.rotl32 2147483649 4) (32 - 4) = 2147483649.
Proof.
  apply (rotl32_rotates 2147483649 4); [unfold in_uint32; lia | lia].
Defined.

Lemma sub_add_cancel x y : in_uint32 x -> UInt32.add (UInt32.sub x y) y = x.
Proof.
  intros [Hx Hx']. unfold UInt32.add, UInt32.sub, UInt32.wrap32, UInt32.modulus.
  rewrite Zplus_mod_idemp_l. replace (x - y + y) with x by lia.
  apply Z.mod_small. lia.
Qed.

Lemma add_sub_cancel x y : in_uint32 x -> UInt32.sub (UInt32.add x y) y = x.
Proof.
  intros [Hx Hx']. unfold UInt32.add, UInt32.sub, UInt32.wrap32, UInt32.modulus.
  rewrite Zminus_mod_idemp_l. replace (x + y - y) with x by lia.
  apply Z.mod_small. lia.
Qed.

Lemma lxor_cancel x r : Z.lxor (Z.lxor x r) r = x.
Proof. now rewrite Z.lxor_assoc, Z.lxor_nilpotent, Z.lxor_0_r. Qed.

Lemma unmix_line_range k x y z :
  in_uint32 (fst (unmix_line k x y z)) /\ in_uint32 (snd (unmix_line k x y z)).
Proof. unfold unmix_line. cbn [fst snd]. split; apply wrap32_range. Qed.

Lemma mix_line_range k x y z :
  0 <= k <= 32 -> in_uint32 z ->
  in_uint32 (fst (mix_line k x y z)) /\ in_uint32 (snd (mix_line k x y z)).
Proof.
  intros Hk Hz. unfold mix_line. cbn [fst snd]. split.
  - apply lxor_range; [apply wrap32_range | now apply rotl32_range].
  - apply wrap32_range.
Qed.

(** A line of the mixer loses nothing: [unmix_line] takes its result
    back, [y] being the word the line reads without changing it. *)
Lemma unmix_mix_line k x y z x' z' :
  in_uint32 x -> in_uint32 z ->
  mix_line k x y z = (x', z') -> unmix_line k x' y z' = (x, z).
Proof.
  intros Hx Hz [= <- <-]. unfold unmix_line.
  rewrite add_sub_cancel by exact Hz.
  now rewrite lxor_cancel, sub_add_cancel.
Qed.

Lemma mix_unmix_line k x y z x' z' :
  0 <= k <= 32 -> in_uint32 x -> in_uint32 z ->
  unmix_line k x y z = (x', z') -> mix_line k x' y z' = (x, z).
Proof.
  intros Hk Hx Hz [= <- <-]. unfold mix_line.
  rewrite add_sub_cancel.
  - now rewrite lxor_cancel, sub_add_cancel.
  - apply lxor_range; [exact Hx|].
    apply rotl32_range; [apply wrap32_range | exact Hk].
Qed.

Lemma bjmix_lines a b c :
  bjmix (MixState a b c)
  = (let '(a, c) := mix_line 4 a b c in
     let '(b, a) := mix_line 6 b c a in
     let '(c, b) := mix_line 8 c a b in
     let '(a, c) := mix_line 16 a b c in
     let '(b, a) := mix_line 19 b c a in
     let '(c, b) := mix_line 4 c a b in
     MixState a b c).
Proof. reflexivity. Qed.

Ltac mix_step H Hx Hz :=
  match goal with
  | |- context [mix_line ?k ?x ?y ?z] =>
      let x' := fresh x in
      let z' := fresh z in
      destruct (mix_line k x y z) as [x' z'] eqn:H;
      pose proof (mix_line_range k x y z ltac:(lia) ltac:(assumption))
        as [Hx Hz];
      rewrite H in Hx, Hz; cbn [fst snd] in Hx, Hz;
      apply unmix_mix_line in H; [|assumption|assumption]
  end.

Ltac unmix_step H Hx Hz :=
  match goal with
  | |- context [unmix_line ?k ?x ?y ?z] =>
      let x' := fresh x in
      let z' := fresh z in
      destruct (unmix_line k x y z) as [x' z'] eqn:H;
      pose proof (unmix_line_range k x y z) as [Hx Hz];
      rewrite H in Hx, Hz; cbn [fst snd] in Hx, Hz;
      apply mix_unmix_line in H; [|lia|assumption|assumption]
  end.

(** X2. [bjmix] is a permutation of the triples of 32-bit words: reading its
    six lines backwards undoes it, on either side, so that two different
    triples are never mixed into the same one and every triple is the mix of
    one. *)
Theorem bjmix_permutation s :
  uint32_state s ->
  bjmix_inverse (bjmix s) = s
  /\ bjmix (bjmix_inverse s) = s
  /\ uint32_state (bjmix_inverse s).
Proof.
  destruct s as [a b c]. intros (Ha & Hb & Hc). cbn [ba bb bc] in *.
  split; [|split].
  - rewrite bjmix_lines.
    mix_step H1 Ha1 Hc1. mix_step H2 Hb2 Ha2. mix_step H3 Hc3 Hb3.
    mix_step H4 Ha4 Hc4. mix_step H5 Hb5 Ha5. mix_step H6 Hc6 Hb6.
    unfold bjmix_inverse.
    now rewrite H6, H5, H4, H3, H2, H1.
  - unfold bjmix_inverse.
    unmix_step H6 Hc6 Hb6. unmix_step H5 Hb5 Ha5. unmix_step H4 Ha4 Hc4.
    unmix_step H3 Hc3 Hb3. unmix_step H2 Hb2 Ha2. unmix_step H1 Ha1 Hc1.
    rewrite bjmix_lines.
    now rewrite H1, H2, H3, H4, H5, H6.
  - unfold bjmix_inverse.
    unmix_step H6 Hc6 Hb6. unmix_step H5 Hb5 Ha5. unmix_step H4 Ha4 Hc4.
    unmix_step H3 Hc3 Hb3. unmix_step H2 Hb2 Ha2. unmix_step H1 Ha1 Hc1.
    repeat split; cbn [ba bb bc]; first [apply Ha1 | apply Hb2 | apply Hc1].
Qed.

Lemma bjmix_permutation_witness :
  bjmix_inverse (bjmix (MixState 0 1 0)) = MixState 0 1 0
  /\ bjmix (bjmix_inverse (MixState 0 1 0)) = MixState 0 1 0
  /\ uint32_state (bjmix_inverse (MixState 0 1 0)).
Proof.
  apply (bjmix_permutation (MixState 0 1 0)).
  unfold uint32_state, in_uint32. simpl. lia.
Defined.

(** ** The size of a perturbation *)

Lemma shr_1_exact mrs :
  0 <= shr_m mrs ->
  (shr_r (shr_1 mrs) || shr_s (shr_1 mrs)
   = negb (Z.even (shr_m mrs)) || (shr_r mrs || shr_s mrs)).
Proof.
  destruct mrs as [m r s]. cbn [shr_m shr_r shr_s]. intros Hm.
  destruct m as [|[p|p|]|p]; cbn [shr_1 shr_r shr_s Z.even negb orb];
    try lia; reflexivity.
Qed.

Lemma shr_iter_exact (k : positive) mrs :
  0 <= shr_m mrs -> shr_r mrs = false -> shr_s mrs = false ->
  shr_m mrs mod 2 ^ Z.pos k = 0 ->
  loc_of_shr_record (SpecFloat.iter_pos shr_1 k mrs) = loc_Exact.
Proof.
  intros Hm Hr Hs.
  assert (H : shr_m mrs mod 2 ^ Z.pos k = 0 ->
              let mrs' := SpecFloat.iter_pos shr_1 k mrs in
              shr_r mrs' || shr_s mrs' = false).
  { rewrite iter_pos_Pos_iter.
    induction k as [|k IH] using Pos.peano_ind.
    - simpl Pos.iter. intros Hmod. cbv zeta.
      rewrite shr_1_exact, Hr, Hs by exact Hm. cbn [orb].
      rewrite orb_false_r.
      change (2 ^ 1) with 2 in Hmod.
      rewrite Zeven_mod, Hmod. reflexivity.
    - rewrite Pos.iter_succ. intros Hmod. cbv zeta.
      assert (Hpow : 2 ^ Z.pos (Pos.succ k) = 2 * 2 ^ Z.pos k)
        by (rewrite Pos2Z.inj_succ, Z.pow_succ_r; lia).
      assert (H2k : 0 < 2 ^ Z.pos k) by (apply Z.pow_pos_nonneg; lia).
      assert (Hdiv : shr_m mrs = 2 ^ Z.pos (Pos.succ k)
                                 * (shr_m mrs / 2 ^ Z.pos (Pos.succ k))).
      { apply Z.div_exact; [lia | exact Hmod]. }
      assert (Hmodk : shr_m mrs mod 2 ^ Z.pos k = 0).
      { rewrite Hdiv, Hpow.
        rewrite <- Z.mul_assoc, (Z.mul_comm 2), <- Z.mul_assoc.
        rewrite Z.mul_comm, Z.mod_mul; lia. }
      specialize (IH Hmodk). cbv zeta in IH.
      rewrite shr_1_exact.
      + rewrite IH, orb_false_r.
        rewrite <- iter_pos_Pos_iter, shr_iter_m by exact Hm.
        rewrite Hdiv at 1. rewrite Hpow.
        rewrite (Z.mul_comm 2), <- Z.mul_assoc, Z.mul_comm.
        rewrite Z.div_mul by lia.
        rewrite Z.even_mul. reflexivity.
      + rewrite <- iter_pos_Pos_iter, shr_iter_m by exact Hm.
        apply Z.div_pos; lia. }
  intros Hmod. specialize (H Hmod). cbv zeta in H.
  destruct (SpecFloat.iter_pos shr_1 k mrs) as [m' r' s'].
  cbn [shr_r shr_s] in H. apply orb_false_elim in H as [-> ->].
  reflexivity.
Qed.

Lemma pow2_lt_inv a b : 0 <= b -> 2 ^ a < 2 ^ b -> a < b.
Proof.
  intros Hb H. destruct (Z.lt_ge_cases a b) as [|Hge]; [assumption|].
  assert (2 ^ b <= 2 ^ a) by (apply Z.pow_le_mono_r; lia). lia.
Qed.

Lemma pow2_split a b : 0 <= a -> 0 <= b -> 2 ^ (a + b) = 2 ^ a * 2 ^ b.
Proof. intros. now apply Z.pow_add_r. Qed.

(** Rounding to nearest never passes a [float] that bounds the exact
    value: the result for [M * 2^E] is a zero or a finite number, at most
    the full-mantissa number [mb * 2^eb] that [M * 2^E] does not exceed. *)
Lemma binary_round_aux_le s (M : positive) E (mb : positive) eb :
  Z.pos (digits2_pos mb) = 24 -> -149 <= eb <= 104 -> E <= eb ->
  Z.pos M <= Z.pos mb * 2 ^ (eb - E) ->
  binary_round_aux 24 128 s (Z.pos M) E loc_Exact = S754_zero s
  \/ exists m e,
       binary_round_aux 24 128 s (Z.pos M) E loc_Exact = S754_finite s m e
       /\ E <= e <= eb
       /\ Z.pos m <= Z.pos mb * 2 ^ (eb - e).
Proof.
  intros Hmb Heb HE HM.
  pose proof (digits2_pos_bounds M) as HdM.
  pose proof (digits2_pos_bounds mb) as Hdmb. rewrite Hmb in Hdmb.
  set (d := Z.pos (digits2_pos M)) in *.
  assert (Hd1 : 1 <= d) by (unfold d; lia).
  assert (Hpe : 0 < 2 ^ (eb - E)) by (apply Z.pow_pos_nonneg; lia).
  assert (HdE : d + E - 24 <= eb).
  { assert (Hlt : 2 ^ (d - 1) < 2 ^ (24 + (eb - E))).
    { rewrite pow2_split by lia. nia. }
    apply pow2_lt_inv in Hlt; lia. }
  unfold binary_round_aux, shr_fexp, fexp, emin.
  rewrite Zdigits2_pos. fold d.
  set (f := Z.max (d + E - 24) (3 - 128 - 24)).
  assert (Hf : -149 <= f <= eb) by (unfold f; lia).
  destruct (f - E) as [|k|k] eqn:Hk.
  - right. exists M, E. cbn [shr shr_record_of_loc shr_m loc_of_shr_record
                             round_nearest_even].
    rewrite Zdigits2_pos. fold d. fold f. rewrite Hk.
    cbn [shr shr_record_of_loc shr_m].
    destruct (Z.leb_spec E (128 - 24)); [|lia].
    split; [reflexivity|]. split; lia.
  - cbn [shr shr_record_of_loc].
    set (mrs := SpecFloat.iter_pos shr_1 k _).
    assert (H2k : 0 < 2 ^ Z.pos k) by (apply Z.pow_pos_nonneg; lia).
    assert (Hq : shr_m mrs = Z.pos M / 2 ^ Z.pos k)
      by (unfold mrs; now rewrite shr_iter_m).
    set (q := shr_m mrs) in *.
    set (r := round_nearest_even q (loc_of_shr_record mrs)).
    assert (Hq0 : 0 <= q) by (rewrite Hq; apply Z.div_pos; lia).
    assert (Hq24 : q < 2 ^ 24).
    { rewrite Hq. apply Z.div_lt_upper_bound; [lia|].
      assert (2 ^ d <= 2 ^ (Z.pos k + 24))
        by (apply Z.pow_le_mono_r; unfold f in *; lia).
      rewrite pow2_split in H by lia. lia. }
    set (N := Z.pos mb * 2 ^ (eb - (E + Z.pos k))).
    assert (HN : Z.pos mb * 2 ^ (eb - E) = N * 2 ^ Z.pos k).
    { unfold N. rewrite <- Z.mul_assoc, <- pow2_split by lia.
      do 2 f_equal. lia. }
    assert (Hr : q <= r <= q + 1) by apply round_nearest_even_bounds.
    assert (HrN : r <= N).
    { destruct (Z.eq_dec (Z.pos M mod 2 ^ Z.pos k) 0) as [Hex | Hin].
      - unfold r, mrs. rewrite shr_iter_exact by (try reflexivity; simpl; lia).
        cbn [round_nearest_even]. fold mrs. fold q.
        rewrite Hq. apply Z.div_le_upper_bound; [lia|]. lia.
      - assert (Hlt : q < N); [|lia].
        rewrite Hq. apply Z.div_lt_upper_bound; [lia|].
        pose proof (Z.mod_pos_bound (Z.pos M) (2 ^ Z.pos k) H2k).
        pose proof (Z.div_mod (Z.pos M) (2 ^ Z.pos k) ltac:(lia)).
        destruct (Z.lt_ge_cases (Z.pos M) (2 ^ Z.pos k * N)) as [|Hge];
          [assumption|].
        exfalso. apply Hin.
        replace (Z.pos M) with (N * 2 ^ Z.pos k) by lia.
        apply Z.mod_mul. lia. }
    assert (He' : E + Z.pos k = f) by lia.
    fold r. rewrite He'.
    destruct r as [|r'|r'] eqn:Hr'; [| |lia].
    + left. cbn [Zdigits2].
      destruct (Z.max (0 + f - 24) (3 - 128 - 24) - f) as [|p|p] eqn:Hp;
        try lia; reflexivity.
    + right. rewrite Zdigits2_pos.
      pose proof (digits2_pos_bounds r') as Hdr.
      set (dr := Z.pos (digits2_pos r')) in *.
      destruct (Z.eq_dec (Z.pos r') (2 ^ 24)) as [Hcarry | Hno].
      * assert (Hdr25 : dr = 25).
        { unfold dr. apply digits2_pos_unique; [|lia].
          change (2 ^ (25 - 1)) with (2 ^ 24). change (2 ^ 25) with 33554432.
          change (2 ^ 24) with 16777216 in *. lia. }
        rewrite Hdr25.
        replace (Z.max (25 + f - 24) (3 - 128 - 24) - f) with 1 by lia.
        change (2 ^ 24) with 16777216 in Hcarry.
        injection Hcarry as ->.
        cbn [shr shr_record_of_loc SpecFloat.iter_pos shr_1 shr_m].
        assert (Hfeb : f + 1 <= eb).
        { destruct (Z.eq_dec f eb) as [Heq | Hne]; [|lia].
          exfalso. unfold N in HrN. rewrite He', Heq, Z.sub_diag in HrN.
          change (2 ^ 24) with 16777216 in Hdmb. simpl in HrN. lia. }
        exists 8388608%positive, (f + 1).
        destruct (Z.leb_spec (f + 1) (128 - 24)); [|lia].
        split; [reflexivity|]. split; [lia|].
        unfold N in HrN. rewrite He' in HrN.
        replace (eb - f) with (1 + (eb - (f + 1))) in HrN by lia.
        rewrite pow2_split in HrN by lia. change (2 ^ 1) with 2 in HrN. lia.
      * assert (Hdr24 : dr <= 24).
        { assert (Hlt : 2 ^ (dr - 1) < 2 ^ 24) by lia.
          apply pow2_lt_inv in Hlt; lia. }
        replace (Z.max (dr + f - 24) (3 - 128 - 24) - f)
          with (Z.max (dr - 24) (-149 - f)) by lia.
        exists r', f.
        destruct (Z.max (dr - 24) (-149 - f)) as [|p|p] eqn:Hp; try lia;
          cbn [shr shr_record_of_loc shr_m];
          (destruct (Z.leb_spec f (128 - 24)); [|lia]);
          (split; [reflexivity|]); (split; [lia|]);
          unfold N in HrN; rewrite He' in HrN; exact HrN.
  - right. exists M, E. cbn [shr shr_record_of_loc shr_m loc_of_shr_record
                             round_nearest_even].
    rewrite Zdigits2_pos. fold d. fold f. rewrite Hk.
    cbn [shr shr_record_of_loc shr_m].
    destruct (Z.leb_spec E (128 - 24)); [|lia].
    split; [reflexivity|]. split; lia.
Qed.

Lemma iter_xO_pow (m d : positive) :
  Z.pos (Pos.iter xO m d) = Z.pos m * 2 ^ Z.pos d.
Proof.
  induction d as [|d IH] using Pos.peano_ind.
  - simpl Pos.iter. change (2 ^ 1) with 2. lia.
  - rewrite Pos.iter_succ, Pos2Z.inj_succ, Z.pow_succ_r by lia.
    change (Z.pos (Pos.iter xO m d)~0) with (2 * Z.pos (Pos.iter xO m d)).
    rewrite IH. lia.
Qed.

(** Aligning a mantissa on a lower exponent keeps the number. *)
Lemma shl_align_spec mx ex ex' :
  exists mz ez,
    shl_align mx ex ex' = (mz, ez)
    /\ ez = Z.min ex ex'
    /\ Z.pos mz = Z.pos mx * 2 ^ (ex - ez).
Proof.
  unfold shl_align. destruct (ex' - ex) as [|d|d] eqn:Hd.
  - exists mx, ex. split; [reflexivity|]. split; [lia|].
    rewrite Z.sub_diag. simpl. lia.
  - exists mx, ex. split; [reflexivity|]. split; [lia|].
    rewrite Z.sub_diag. simpl. lia.
  - exists (Pos.iter xO mx d), ex'. split; [reflexivity|]. split; [lia|].
    rewrite iter_xO_pow. do 2 f_equal. lia.
Qed.

Lemma binary_round_le s mx ex (mb : positive) eb :
  Z.pos (digits2_pos mb) = 24 -> -149 <= eb <= 104 -> ex <= eb ->
  Z.pos mx <= Z.pos mb * 2 ^ (eb - ex) ->
  binary_round 24 128 s mx ex = S754_zero s
  \/ exists m e,
       binary_round 24 128 s mx ex = S754_finite s m e
       /\ e <= eb
       /\ Z.pos m <= Z.pos mb * 2 ^ (eb - e).
Proof.
  intros Hmb Heb Hex Hmx. unfold binary_round.
  destruct (shl_align_spec mx ex
              (fexp 24 128 (Z.pos (digits2_pos mx) + ex)))
    as (mz & ez & -> & Hez & Hmz).
  assert (Hle : ez <= ex) by lia.
  destruct (binary_round_aux_le s mz ez mb eb Hmb Heb ltac:(lia))
    as [Hz | (m & e & Hres & He & Hm)].
  - rewrite Hmz.
    replace (eb - ez) with ((eb - ex) + (ex - ez)) by lia.
    rewrite pow2_split by lia.
    assert (0 < 2 ^ (ex - ez)) by (apply Z.pow_pos_nonneg; lia). nia.
  - now left.
  - right. exists m, e. split; [exact Hres|]. split; [lia | exact Hm].
Qed.

(** The quotient [h] of a hash word is 0.0 or a normal number that is at
    most 1.0. *)
Lemma dither_of_shape w :
  in_uint32 w ->
  dither_of w = S754_zero false
  \/ exists m e,
       dither_of w = S754_finite false m e
       /\ Z.pos (digits2_pos m) = 24
       /\ -55 <= e
       /\ (e <= -24 \/ (e = -23 /\ m = 8388608%positive)).
Proof.
  intros [Hw0 Hw]. unfold dither_of.
  destruct w as [|p|p]; [now left | right | lia].
  destruct (of_Z_uint32 p Hw) as (m & e & -> & Hd & He & He').
  rewrite div_uint32_max by (try exact Hd; lia).
  exists m, (e - 32). split; [reflexivity|]. split; [exact Hd|].
  split; [lia|]. destruct He' as [He' | [-> ->]]; [left; lia | right].
  now split.
Qed.

(** [h - 0.5f] is a zero or a finite number of magnitude at most 0.5. *)
Lemma sub_half_le w :
  in_uint32 w ->
  (exists s, F32.sub (dither_of w) F32.half = S754_zero s)
  \/ exists s m e,
       F32.sub (dither_of w) F32.half = S754_finite s m e
       /\ e <= -24
       /\ Z.pos m <= 2 ^ (-1 - e).
Proof.
  intros Hw.
  destruct (dither_of_shape w Hw) as [-> | (mh & eh & -> & Hd & He & Hle)].
  { right. exists true, 8388608%positive, (-24).
    split; [reflexivity|]. split; [lia|]. simpl. lia. }
  pose proof (digits2_pos_bounds mh) as Hmh. rewrite Hd in Hmh.
  change (2 ^ (24 - 1)) with 8388608 in Hmh.
  change (2 ^ 24) with 16777216 in Hmh.
  unfold F32.sub, SFsub, F32.half, F32.prec, F32.emax. cbv zeta.
  set (ez := Z.min eh (-24)).
  destruct (shl_align_spec mh eh ez) as (m1 & e1 & -> & He1 & Hm1).
  destruct (shl_align_spec 8388608 (-24) ez) as (m2 & e2 & -> & He2 & Hm2).
  cbn [fst cond_Zopp].
  assert (He1' : e1 = ez) by (unfold ez in *; lia).
  assert (He2' : e2 = ez) by (unfold ez in *; lia).
  rewrite He1' in Hm1. rewrite He2' in Hm2.
  assert (Hez : ez <= -24) by (unfold ez; lia).
  assert (Hp2 : 0 < 2 ^ (-24 - ez)) by (apply Z.pow_pos_nonneg; lia).
  assert (Hbound : Z.pos m1 <= 2 * Z.pos m2).
  { rewrite Hm1, Hm2. destruct Hle as [Hle | [-> ->]].
    - replace (-24 - ez) with ((-24 - eh) + (eh - ez)) by lia.
      rewrite pow2_split by lia.
      assert (0 < 2 ^ (eh - ez)) by (apply Z.pow_pos_nonneg; lia).
      assert (0 < 2 ^ (-24 - eh)) by (apply Z.pow_pos_nonneg; lia).
      nia.
    - replace (-23 - ez) with (1 + (-24 - ez)) by lia.
      rewrite pow2_split by lia. change (2 ^ 1) with 2. lia. }
  assert (Hm2' : Z.pos m2 = 8388608 * 2 ^ (-24 - ez)) by exact Hm2.
  unfold binary_normalize.
  destruct (Z.pos m1 - Z.pos m2) as [|D|D] eqn:HD.
  - left. eauto.
  - destruct (binary_round_le false D ez 8388608 (-24) eq_refl
                ltac:(lia) Hez ltac:(lia))
      as [Hz | (m & e & Hres & He' & Hm)].
    + left. eauto.
    + right. exists false, m, e. split; [exact Hres|]. split; [exact He'|].
      replace (-1 - e) with (23 + (-24 - e)) by lia.
      rewrite pow2_split by lia. exact Hm.
  - destruct (binary_round_le true D ez 8388608 (-24) eq_refl
                ltac:(lia) Hez ltac:(lia))
      as [Hz | (m & e & Hres & He' & Hm)].
    + left. eauto.
    + right. exists true, m, e. split; [exact Hres|]. split; [exact He'|].
      replace (-1 - e) with (23 + (-24 - e)) by lia.
      rewrite pow2_split by lia. exact Hm.
Qed.

Lemma Qabs_to_Q s m e :
  (Qabs (F32.to_Q (S754_finite s m e)) == inject_Z (Z.pos m) * 2 ^ e)%Q.
Proof.
  assert (Hv : (0 <= inject_Z (Z.pos m) * 2 ^ e)%Q).
  { apply Qmult_le_0_compat;
      [now unfold Qle | apply Qlt_le_weak, Qpower2_pos]. }
  cbn [F32.to_Q]. destruct s.
  - rewrite Qabs_opp. now apply Qabs_pos.
  - now apply Qabs_pos.
Qed.

Lemma inject_Z_pow2 (n : Z) : 0 <= n -> (inject_Z (2 ^ n) == 2 ^ n)%Q.
Proof. intros Hn. now rewrite Zpower_Qpower. Qed.

(** A finite number below the half of a halvable one, in the rationals. *)
Lemma to_Q_half_bound s m e sa ma ea :
  e <= ea - 1 -> Z.pos m <= Z.pos ma * 2 ^ (ea - 1 - e) ->
  (Qabs (F32.to_Q (S754_finite s m e))
   <= Qabs (F32.to_Q (S754_finite sa ma ea)) / 2)%Q.
Proof.
  intros He Hm. rewrite !Qabs_to_Q.
  assert (H2 : ~ (2 == 0)%Q) by discriminate.
  assert (Hstep : (inject_Z (Z.pos m) * 2 ^ e
                   <= inject_Z (Z.pos ma * 2 ^ (ea - 1 - e)) * 2 ^ e)%Q).
  { apply Qmult_le_compat_r; [|apply Qlt_le_weak, Qpower2_pos].
    now rewrite <- Zle_Qle. }
  eapply Qle_trans; [exact Hstep|].
  rewrite inject_Z_mult, inject_Z_pow2 by lia.
  rewrite <- Qmult_assoc, <- Qpower_plus by exact H2.
  replace (ea - 1 - e + e) with (ea + -1) by lia.
  rewrite Qpower_plus by exact H2.
  apply Qle_lteq. right. unfold Qdiv. rewrite Qmult_assoc. reflexivity.
Qed.

(** X3. A perturbation is a number, and its magnitude is at most half that of
    the amplitude: for every hash word, and for every amplitude that is a
    normal number from [2^-125] on. *)
Theorem perturbation_bound amplitude w :
  in_uint32 w -> halvable amplitude = true ->
  is_real (perturbation amplitude w) = true
  /\ (Qabs (F32.to_Q (perturbation amplitude w))
      <= Qabs (F32.to_Q amplitude) / 2)%Q.
Proof.
  intros Hw Hamp.
  destruct amplitude as [| | |sa ma ea]; try discriminate Hamp.
  cbn [halvable] in Hamp.
  apply andb_prop in Hamp as [Hamp Hea2]. apply andb_prop in Hamp as [Hd Hea1].
  apply Z.eqb_eq in Hd. apply Z.leb_le in Hea1, Hea2.
  assert (Hpos : (0 <= Qabs (F32.to_Q (S754_finite sa ma ea)) / 2)%Q).
  { apply Qle_shift_div_l; [reflexivity|]. rewrite Qmult_0_l.
    apply Qabs_nonneg. }
  unfold perturbation.
  destruct (sub_half_le w Hw) as [[st ->] | (st & mt & et & -> & Het & Hmt)].
  { split; [reflexivity | exact Hpos]. }
  unfold F32.mul, SFmul, F32.prec, F32.emax.
  destruct (binary_round_aux_le (xorb sa st) (ma * mt) (ea + et) ma (ea - 1)
              Hd ltac:(lia) ltac:(lia))
    as [-> | (m & e & -> & He & Hm)].
  - rewrite Pos2Z.inj_mul.
    replace (ea - 1 - (ea + et)) with (-1 - et) by lia. nia.
  - split; [reflexivity | exact Hpos].
  - split; [reflexivity|]. apply to_Q_half_bound; [lia | exact Hm].
Qed.

Lemma perturbation_bound_witness :
  is_real (perturbation (F32.div (F32.of_Z 1) (F32.of_Z 255)) 4294967195)
  = true
  /\ (Qabs (F32.to_Q (perturbation (F32.div (F32.of_Z 1) (F32.of_Z 255))
                        4294967195))
      <= Qabs (F32.to_Q (F32.div (F32.of_Z 1) (F32.of_Z 255))) / 2)%Q.
Proof.
  apply (perturbation_bound (F32.div (F32.of_Z 1) (F32.of_Z 255))
           4294967195).
  - unfold in_uint32. lia.
  - vm_compute. reflexivity.
Defined.

(** ** The ditherer on several rows *)

Lemma dither_rows_empty nchannels width xstride ystride amplitude
    alpha_channel ditherseed n : forall y scanline data,
  width <= 0 \/ nchannels <= 0 ->
  dither_rows n y scanline nchannels width xstride ystride amplitude
    alpha_channel ditherseed data = Some data.
Proof.
  induction n as [|n IH]; intros y scanline data Hempty; [reflexivity|].
  cbn [dither_rows]. cbv zeta.
  assert (Hpx : forall m pixel s d,
            nchannels <= 0 ->
            dither_pixels m nchannels alpha_channel amplitude xstride pixel
              s d = Some (s, d)).
  { induction m as [|m IHm]; intros pixel s d Hn; [reflexivity|].
    cbn [dither_pixels].
    replace (Z.to_nat nchannels) with 0%nat by lia.
    cbn [dither_channels mbind option_bind]. now apply IHm. }
  destruct Hempty as [Hw | Hn].
  - replace (Z.to_nat width) with 0%nat by lia.
    cbn [dither_pixels mbind option_bind]. apply IH. now left.
  - rewrite Hpx by exact Hn. cbn [mbind option_bind]. apply IH. now right.
Qed.

(** X4. On a grid with no row, no pixel in a row or no channel in a pixel,
    [add_dither] returns the buffer as it is and accesses none of it, whatever
    the strides. *)
Theorem add_dither_empty_grid nchannels width height data xstride ystride
    amplitude alpha_channel ditherseed :
  height <= 0 \/ width <= 0 \/ nchannels <= 0 ->
  add_dither nchannels width height data xstride ystride amplitude
    alpha_channel ditherseed = Some data.
Proof.
  intros [Hh | Hempty]; unfold add_dither.
  - now replace (Z.to_nat height) with 0%nat by lia.
  - now apply dither_rows_empty.
Qed.

Lemma add_dither_empty_grid_witness :
  add_dither 3 0 2 [] 3 7 F32.one (-1) 1 = Some [].
Proof.
  apply (add_dither_empty_grid 3 0 2 [] 3 7 F32.one (-1) 1). lia.
Defined.

Section DitherRows.
Variables (alpha_channel : Z) (amplitude : float).
Variables (nchannels width ystride ditherseed : Z).
Variable k : nat.
Hypothesis channels_fit : (Z.to_nat nchannels <= k)%nat.

Lemma dither_rows_spec n : forall y scanline data,
  (1 <= width ->
   (Z.to_nat (width - 1) * k + Z.to_nat nchannels <= length data)%nat) ->
  exists data',
    dither_rows n y scanline nchannels width (sizeof_float * Z.of_nat k)
      ystride amplitude alpha_channel ditherseed data = Some data'
    /\ length data' = length data
    /\ (forall j : nat,
          (forall x c : nat,
             Z.of_nat x < width -> Z.of_nat c < nchannels ->
             j <> (x * k + c)%nat) ->
          data' !! j = data !! j)
    /\ (forall x c : nat,
          Z.of_nat x < width -> Z.of_nat c < nchannels ->
          exists d,
            data !! (x * k + c)%nat = Some d
            /\ data' !! (x * k + c)%nat
               = Some (dither_passes n y ditherseed
                         (x * Z.to_nat nchannels + c) alpha_channel
                         amplitude (Z.of_nat c) d)).
Proof.
  induction n as [|n IH]; intros y scanline data Hlen.
  { exists data. split; [reflexivity|]. split; [reflexivity|].
    split; [reflexivity|]. intros x c Hx Hc.
    destruct (lookup_lt_is_Some_2 data (x * k + c)) as [d Hd];
      [specialize (Hlen ltac:(lia)); nia|].
    exists d. now split. }
  cbn [dither_rows]. cbv zeta.
  destruct (dither_pixels_spec alpha_channel amplitude nchannels k
              channels_fit (Z.to_nat width) 0 (row_hash y ditherseed) data)
    as (data1 & Hrun & Hlen1 & Hframe1 & Hval1).
  { intros Hw. specialize (Hlen ltac:(lia)).
    replace (Z.to_nat width - 1)%nat with (Z.to_nat (width - 1)) by lia.
    lia. }
  change (sizeof_float * Z.of_nat 0) with 0 in Hrun.
  unfold row_hash in Hrun. rewrite Hrun. cbn [mbind option_bind].
  destruct (IH (y + 1) (scanline + ystride) data1)
    as (data' & Hrun' & Hlen' & Hframe' & Hval').
  { now rewrite Hlen1. }
  exists data'. split; [exact Hrun'|]. split; [congruence|]. split.
  - intros j Hj. rewrite Hframe' by exact Hj. apply Hframe1.
    intros x c Hx Hc. rewrite Nat.add_0_l. apply Hj; lia.
  - intros x c Hx Hc.
    destruct (Hval1 x c ltac:(lia) ltac:(lia)) as (d & Hd & Hd1).
    rewrite Nat.add_0_l in Hd, Hd1.
    destruct (Hval' x c Hx Hc) as (d1 & Hd1' & Hd').
    exists d. split; [exact Hd|]. rewrite Hd'. cbn [dither_passes].
    rewrite Hd1 in Hd1'. injection Hd1' as <-. reflexivity.
Qed.

End DitherRows.

(** X5. On a grid of any height whose pixels are [float]-aligned, lie in the
    buffer and do not overlap, [add_dither] spends every row on the samples of
    the first one: a sample of the first row whose channel is not the excluded
    one is perturbed once for each row of the grid, with the hash words of its
    place in rows 0, 1, ... in turn, and no other sample of the buffer is
    changed. *)
Theorem add_dither_all_rows nchannels width height (k : nat) data ystride
    amplitude alpha_channel ditherseed :
  (Z.to_nat nchannels <= k)%nat ->
  (1 <= width ->
   (Z.to_nat (width - 1) * k + Z.to_nat nchannels <= length data)%nat) ->
  exists data',
    add_dither nchannels width height data (sizeof_float * Z.of_nat k)
      ystride amplitude alpha_channel ditherseed = Some data'
    /\ length data' = length data
    /\ (forall x c : nat,
          Z.of_nat x < width -> Z.of_nat c < nchannels ->
          exists d,
            data !! (x * k + c)%nat = Some d
            /\ data' !! (x * k + c)%nat
               = Some (dither_passes (Z.to_nat height) 0 ditherseed
                         (x * Z.to_nat nchannels + c) alpha_channel
                         amplitude (Z.of_nat c) d))
    /\ (forall j : nat,
          (forall x c : nat,
             Z.of_nat x < width -> Z.of_nat c < nchannels ->
             j <> (x * k + c)%nat) ->
          data' !! j = data !! j).
Proof.
  intros Hk Hlen. unfold add_dither.
  destruct (dither_rows_spec alpha_channel amplitude nchannels width ystride
              ditherseed k Hk (Z.to_nat height) 0 0 data Hlen)
    as (data' & Hrun & Hlen' & Hframe & Hval).
  exists data'. repeat split; assumption.
Qed.

Lemma add_dither_all_rows_witness :
  exists data',
    add_dither 1 1 2 [F32.half; F32.half] 4 4
      (F32.div (F32.of_Z 1) (F32.of_Z 255)) (-1) 1 = Some data'
    /\ data' !! 0%nat
       = Some (dither_passes 2 0 1 0 (-1)
                 (F32.div (F32.of_Z 1) (F32.of_Z 255)) 0 F32.half)
    /\ data' !! 1%nat = Some F32.half.
Proof.
  destruct (add_dither_all_rows 1 1 2 1 [F32.half; F32.half] 4
              (F32.div (F32.of_Z 1) (F32.of_Z 255)) (-1) 1
              ltac:(simpl; lia) ltac:(simpl; lia))
    as (data' & Hrun & _ & Hval & Hframe).
  exists data'. split; [exact Hrun|]. split.
  - destruct (Hval 0%nat 0%nat ltac:(lia) ltac:(lia)) as (d & Hd & Hd').
    injection Hd as <-. exact Hd'.
  - rewrite (Hframe 1%nat); [reflexivity|].
    intros x c Hx Hc. lia.
Defined.

(** ** The endian normaliser, byte by byte *)

Section SwapEndianBytes.
Context {A : Type}.
Implicit Types (buf l : list A).

Lemma rev_lookup l (i : nat) :
  (i < length l)%nat -> rev l !! i = l !! (length l - S i)%nat.
Proof. rewrite rev_alt. apply reverse_lookup. Qed.

Lemma reverse_each_lookup (sz n : nat) : forall l (k j : nat),
  (n * sz <= length l)%nat -> (k < n)%nat -> (j < sz)%nat ->
  reverse_each sz n l !! (k * sz + j)%nat = l !! (k * sz + (sz - 1 - j))%nat.
Proof.
  induction n as [|n IH]; intros l k j Hlen Hk Hj; [lia|].
  cbn [reverse_each].
  assert (Hrev : length (rev (take sz l)) = sz)
    by (rewrite length_rev, length_take; nia).
  destruct k as [|k].
  - rewrite lookup_app_l by (rewrite Hrev; lia).
    rewrite rev_lookup by (rewrite <- length_rev, Hrev; lia).
    rewrite <- length_rev, Hrev.
    rewrite lookup_take_lt by lia. f_equal. lia.
  - rewrite lookup_app_r by (rewrite Hrev; nia). rewrite Hrev.
    replace (S k * sz + j - sz)%nat with (k * sz + j)%nat by nia.
    rewrite IH by (try rewrite length_drop; nia).
    rewrite lookup_drop. f_equal. nia.
Qed.

Lemma reverse_each_lookup_ge (sz n : nat) : forall l (i : nat),
  (n * sz <= length l)%nat -> (n * sz <= i)%nat ->
  reverse_each sz n l !! i = l !! i.
Proof.
  induction n as [|n IH]; intros l i Hlen Hi; [reflexivity|].
  cbn [reverse_each].
  assert (Hrev : length (rev (take sz l)) = sz)
    by (rewrite length_rev, length_take; nia).
  rewrite lookup_app_r by (rewrite Hrev; nia). rewrite Hrev.
  rewrite IH by (try rewrite length_drop; nia).
  rewrite lookup_drop. f_equal. nia.
Qed.

(** X6. On [len] elements of 2, 4 or 8 bytes that lie in the buffer,
    [swap_endian] keeps the length of the buffer, moves byte [j] of every
    element to the place of byte [sizeof(T) - 1 - j] of the same element, and
    leaves every byte before and after the elements as it was. *)
Theorem swap_endian_bytes sizeofT buf f len :
  sizeofT = 2 \/ sizeofT = 4 \/ sizeofT = 8 ->
  0 <= f -> 0 <= len -> f + len * sizeofT <= Z.of_nat (length buf) ->
  exists buf',
    swap_endian sizeofT buf f len = Some buf'
    /\ length buf' = length buf
    /\ (forall k j, 0 <= k < len -> 0 <= j < sizeofT ->
          load buf' (f + k * sizeofT + j)
          = load buf (f + k * sizeofT + (sizeofT - 1 - j)))
    /\ (forall i, i < f \/ f + len * sizeofT <= i ->
          load buf' i = load buf i).
Proof.
  intros Hsz Hf Hlen Hfit.
  eexists. split; [now apply swap_endian_spec|].
  assert (Htake : length (take (Z.to_nat f) buf) = Z.to_nat f)
    by (rewrite length_take; nia).
  assert (Hdrop : (Z.to_nat len * Z.to_nat sizeofT
                   <= length (drop (Z.to_nat f) buf))%nat)
    by (rewrite length_drop; nia).
  split; [|split].
  - rewrite length_app, reverse_each_length, <- length_app.
    now rewrite take_drop.
  - intros k j Hk Hj. unfold load.
    assert (0 <= k * sizeofT) by nia.
    destruct (Z.ltb_spec (f + k * sizeofT + j) 0); [lia|].
    destruct (Z.ltb_spec (f + k * sizeofT + (sizeofT - 1 - j)) 0); [lia|].
    rewrite lookup_app_r by (rewrite Htake; lia). rewrite Htake.
    replace (Z.to_nat (f + k * sizeofT + j) - Z.to_nat f)%nat
      with (Z.to_nat k * Z.to_nat sizeofT + Z.to_nat j)%nat by nia.
    rewrite reverse_each_lookup by (try exact Hdrop; lia).
    rewrite lookup_drop. f_equal. nia.
  - intros i Hi. unfold load.
    destruct (Z.ltb_spec i 0); [reflexivity|].
    destruct Hi as [Hi | Hi].
    + rewrite lookup_app_l by (rewrite Htake; lia).
      apply lookup_take_lt. lia.
    + rewrite lookup_app_r by (rewrite Htake; lia). rewrite Htake.
      rewrite reverse_each_lookup_ge by (try exact Hdrop; nia).
      rewrite lookup_drop. f_equal. lia.
Qed.

Lemma swap_inv buf i j buf' :
  swap buf i j = Some buf' ->
  0 <= i < Z.of_nat (length buf) /\ 0 <= j < Z.of_nat (length buf)
  /\ length buf' = length buf.
Proof.
  unfold swap, store, load.
  destruct (Z.ltb_spec i 0); [discriminate|].
  destruct (buf !! Z.to_nat i) as [x|] eqn:Hx; [|discriminate].
  cbn [mbind option_bind].
  destruct (Z.ltb_spec j 0); [discriminate|].
  destruct (buf !! Z.to_nat j) as [y|] eqn:Hy; [|discriminate].
  cbn [mbind option_bind].
  apply lookup_lt_Some in Hx as Hi. apply lookup_lt_Some in Hy as Hj.
  destruct (<[Z.to_nat i:=y]> buf !! Z.to_nat j) eqn:Hz; [|discriminate].
  cbn [mbind option_bind]. intros [= <-].
  rewrite !length_insert. lia.
Qed.

End SwapEndianBytes.

Section SwapEndianBounds.
Context {A : Type}.
Implicit Types (buf : list A).

Lemma swap_element_inv sizeofT buf c buf' :
  sizeofT = 2 \/ sizeofT = 4 \/ sizeofT = 8 ->
  swap_element sizeofT buf c = Some buf' ->
  0 <= c /\ c + sizeofT <= Z.of_nat (length buf)
  /\ length buf' = length buf.
Proof.
  unfold swap_element. intros [-> | [-> | ->]]; cbn [Z.eqb Pos.eqb].
  - intros H. apply swap_inv in H. lia.
  - destruct (swap buf c (c + 3)) as [b1|] eqn:H1; [|discriminate].
    cbn [mbind option_bind]. intros H2.
    apply swap_inv in H1, H2. lia.
  - destruct (swap buf c (c + 7)) as [b1|] eqn:H1; [|discriminate].
    cbn [mbind option_bind].
    destruct (swap b1 (c + 1) (c + 6)) as [b2|] eqn:H2; [|discriminate].
    cbn [mbind option_bind].
    destruct (swap b2 (c + 2) (c + 5)) as [b3|] eqn:H3; [|discriminate].
    cbn [mbind option_bind]. intros H4.
    apply swap_inv in H1, H2, H3, H4. lia.
Qed.

Lemma swap_endian_loop_inv sizeofT n : forall c buf buf',
  sizeofT = 2 \/ sizeofT = 4 \/ sizeofT = 8 ->
  swap_endian_loop sizeofT n c buf = Some buf' ->
  length buf' = length buf
  /\ ((0 < n)%nat ->
      0 <= c /\ c + Z.of_nat n * sizeofT <= Z.of_nat (length buf)).
Proof.
  induction n as [|n IH]; intros c buf buf' Hsz; cbn [swap_endian_loop].
  { intros [= <-]. split; [reflexivity | lia]. }
  destruct (swap_element sizeofT buf c) as [b1|] eqn:H1; [|discriminate].
  cbn [mbind option_bind]. intros H.
  apply swap_element_inv in H1 as (Hc & Hfit & Hlen1); [|exact Hsz].
  apply IH in H as [Hlen Hrest]; [|exact Hsz].
  split; [congruence|]. intros _. split; [exact Hc|].
  destruct n as [|n]; [lia|].
  specialize (Hrest ltac:(lia)). lia.
Qed.

(** X7. [swap_endian] on elements of 2, 4 or 8 bytes is defined exactly when it
    has no element to swap, or when the elements it is asked to swap all lie in
    the buffer: an overrun on either side is never clipped. *)
Theorem swap_endian_defined sizeofT buf f len :
  sizeofT = 2 \/ sizeofT = 4 \/ sizeofT = 8 ->
  is_Some (swap_endian sizeofT buf f len)
  <-> len = 0
      \/ (0 < len /\ 0 <= f /\ f + len * sizeofT <= Z.of_nat (length buf)).
Proof.
  intros Hsz. split.
  - intros [buf' H]. unfold swap_endian in H.
    destruct (Z.ltb_spec len 0); [discriminate|].
    destruct (Z.eq_dec len 0) as [|Hne]; [now left | right].
    apply swap_endian_loop_inv in H as [_ H]; [|exact Hsz].
    specialize (H ltac:(lia)). rewrite Z2Nat.id in H by lia. lia.
  - intros [-> | (Hlen & Hf & Hfit)]; [now exists buf|].
    rewrite swap_endian_spec by (try assumption; lia). eauto.
Qed.

(** X8. For an element size other than 2, 4 and 8 the loop of [swap_endian] has
    an empty body: the buffer is returned as it is, and no byte of it is read,
    whatever the offset. *)
Theorem swap_endian_other_sizes sizeofT buf f len :
  sizeofT <> 2 -> sizeofT <> 4 -> sizeofT <> 8 -> 0 <= len ->
  swap_endian sizeofT buf f len = Some buf.
Proof.
  intros H2 H4 H8 Hlen. unfold swap_endian.
  destruct (Z.ltb_spec len 0); [lia|].
  generalize f. induction (Z.to_nat len) as [|n IH]; intros c; [reflexivity|].
  cbn [swap_endian_loop]. unfold swap_element.
  destruct (Z.eqb_spec sizeofT 2); [contradiction|].
  destruct (Z.eqb_spec sizeofT 4); [contradiction|].
  destruct (Z.eqb_spec sizeofT 8); [contradiction|].
  cbn [mbind option_bind]. apply IH.
Qed.

Lemma swap_endian_loop_app sizeofT (m n : nat) : forall c buf,
  swap_endian_loop sizeofT (m + n) c buf
  = buf' ← swap_endian_loop sizeofT m c buf;
    swap_endian_loop sizeofT n (c + Z.of_nat m * sizeofT) buf'.
Proof.
  induction m as [|m IH]; intros c buf.
  { cbn [swap_endian_loop Nat.add mbind option_bind]. f_equal. lia. }
  cbn [swap_endian_loop Nat.add].
  destruct (swap_element sizeofT buf c) as [b1|]; [|reflexivity].
  cbn [mbind option_bind]. rewrite IH.
  destruct (swap_endian_loop sizeofT m (c + sizeofT) b1); [|reflexivity].
  cbn [mbind option_bind]. f_equal. lia.
Qed.

(** X9. Swapping [m + n] elements at [f] is swapping the first [m] of them and
    then the [n] that follow: a buffer can be normalised piece by piece, as
    [encode] does row by row.  This holds of the undefined cases too. *)
Theorem swap_endian_split sizeofT buf f m n :
  0 <= m -> 0 <= n ->
  swap_endian sizeofT buf f (m + n)
  = buf' ← swap_endian sizeofT buf f m;
    swap_endian sizeofT buf' (f + m * sizeofT) n.
Proof.
  intros Hm Hn. unfold swap_endian.
  destruct (Z.ltb_spec (m + n) 0); [lia|].
  destruct (Z.ltb_spec m 0); [lia|].
  destruct (Z.ltb_spec n 0); [lia|].
  rewrite Z2Nat.inj_add, swap_endian_loop_app by assumption.
  now rewrite Z2Nat.id.
Qed.

End SwapEndianBounds.

Lemma swap_endian_bytes_witness :
  exists buf',
    swap_endian 2 [1; 2; 3; 4; 5] 1 2 = Some buf'
    /\ length buf' = 5%nat
    /\ (forall k j, 0 <= k < 2 -> 0 <= j < 2 ->
          load buf' (1 + k * 2 + j)
          = load [1; 2; 3; 4; 5] (1 + k * 2 + (2 - 1 - j)))
    /\ (forall i, i < 1 \/ 1 + 2 * 2 <= i ->
          load buf' i = load [1; 2; 3; 4; 5] i).
Proof.
  apply (swap_endian_bytes 2 [1; 2; 3; 4; 5] 1 2); simpl; lia.
Defined.

Lemma swap_endian_defined_witness :
  is_Some (swap_endian 2 [1; 2; 3; 4; 5] 1 2)
  <-> 2 = 0 \/ (0 < 2 /\ 0 <= 1 /\ 1 + 2 * 2 <= 5).
Proof.
  apply (swap_endian_defined 2 [1; 2; 3; 4; 5] 1 2). now left.
Defined.

Lemma swap_endian_other_sizes_witness :
  swap_endian 1 [7; 8; 9] 5 4 = Some [7; 8; 9].
Proof.
  apply (swap_endian_other_sizes 1 [7; 8; 9] 5 4); lia.
Defined.

Lemma swap_endian_split_witness :
  swap_endian 2 [1; 2; 3; 4; 5] 0 (1 + 1)
  = buf' ← swap_endian 2 [1; 2; 3; 4; 5] 0 1;
    swap_endian 2 buf' (0 + 1 * 2) 1.
Proof.
  apply (swap_endian_split 2 [1; 2; 3; 4; 5] 0 1 1); lia.
Defined.

(** ** The bounds of the transcoder *)

Lemma store_length {A : Type} (buf : list A) i v buf' :
  store buf i v = Some buf' -> length buf' = length buf.
Proof.
  unfold store. destruct (load buf i); [|discriminate].
  intros [= <-]. apply length_insert.
Qed.

Lemma store_sample_length host_little d buf i v buf' :
  store_sample host_little d buf i v = Some buf' ->
  length buf' = length buf.
Proof.
  destruct d; cbn [store_sample]; unfold store_uchar, store_ushort.
  - apply store_length.
  - destruct host_little.
    + destruct (store buf (2 * i) _) as [b1|] eqn:H1; [|discriminate].
      cbn [mbind option_bind]. intros H2.
      apply store_length in H1, H2. congruence.
    + destruct (store buf (2 * i) _) as [b1|] eqn:H1; [|discriminate].
      cbn [mbind option_bind]. intros H2.
      apply store_length in H1, H2. congruence.
Qed.

Lemma swap_endian_length {A : Type} (buf : list A) f len buf' :
  swap_endian 2 buf f len = Some buf' -> length buf' = length buf.
Proof.
  unfold swap_endian. destruct (len <? 0); [discriminate|].
  intros H. apply swap_endian_loop_inv in H as [H _]; [exact H | now left].
Qed.

Section TranscoderBounds.
Variable host_little : bool.
Variables pixelDataNComps dstNCompsStartIndex dstNComps : Z.
Variable pixelData : list float.

Lemma convert_channels_inv depth n : forall c src_pixels dst_pixels scratch
    scratch',
  convert_channels host_little depth dstNCompsStartIndex pixelData n c
    src_pixels dst_pixels scratch = Some scratch' ->
  length scratch' = length scratch
  /\ forall k, 0 <= k < Z.of_nat n ->
       is_Some (load pixelData
                  (src_pixels + (dstNCompsStartIndex + (c + k)))).
Proof.
  induction n as [|n IH]; intros c src_pixels dst_pixels scratch scratch';
    cbn [convert_channels].
  { intros [= <-]. split; [reflexivity | lia]. }
  destruct (load pixelData (src_pixels + (dstNCompsStartIndex + c)))
    as [v|] eqn:Hv; [|discriminate].
  cbn [mbind option_bind].
  destruct (store_sample _ _ _ _ _) as [s1|] eqn:Hs; [|discriminate].
  cbn [mbind option_bind]. intros H.
  apply store_sample_length in Hs. apply IH in H as [Hlen Hread].
  split; [congruence|]. intros k Hk.
  destruct (Z.eq_dec k 0) as [-> | Hne].
  - rewrite Z.add_0_r, Hv. eauto.
  - replace (c + k) with (c + 1 + (k - 1)) by lia. apply Hread. lia.
Qed.

Lemma convert_pixels_inv depth nComps n : forall src_pixels dst_pixels
    scratch src_pixels' dst_pixels' scratch',
  convert_pixels host_little depth pixelDataNComps dstNCompsStartIndex
    dstNComps pixelData n nComps src_pixels dst_pixels scratch
  = Some (src_pixels', dst_pixels', scratch') ->
  src_pixels' = src_pixels + Z.of_nat n * pixelDataNComps
  /\ dst_pixels' = dst_pixels + Z.of_nat n * dstNComps
  /\ length scratch' = length scratch
  /\ forall x c, 0 <= x < Z.of_nat n -> 0 <= c < nComps ->
       is_Some (load pixelData
                  (src_pixels + x * pixelDataNComps
                   + (dstNCompsStartIndex + c))).
Proof.
  induction n as [|n IH]; intros src_pixels dst_pixels scratch src_pixels'
    dst_pixels' scratch'; cbn [convert_pixels].
  { intros [= <- <- <-]. repeat split; lia. }
  destruct (convert_channels _ _ _ _ _ _ _ _ _) as [s1|] eqn:Hch;
    [|discriminate].
  cbn [mbind option_bind]. intros H.
  apply convert_channels_inv in Hch as [Hlen1 Hread1].
  apply IH in H as (-> & -> & Hlen & Hread).
  split; [lia|]. split; [lia|]. split; [congruence|].
  intros x c Hx Hc.
  destruct (Z.eq_dec x 0) as [-> | Hne].
  - rewrite Z.mul_0_l, Z.add_0_r.
    specialize (Hread1 c ltac:(lia)). now rewrite Z.add_0_l in Hread1.
  - specialize (Hread (x - 1) c ltac:(lia) Hc).
    now replace (src_pixels + pixelDataNComps + (x - 1) * pixelDataNComps)
      with (src_pixels + x * pixelDataNComps) in Hread by lia.
Qed.

Variables width nComps srcRowElements : Z.

Lemma convert_rows_ubyte_inv n : forall src_pixels dst_pixels scratch
    scratch',
  convert_rows_ubyte host_little pixelDataNComps dstNCompsStartIndex
    dstNComps pixelData n width nComps srcRowElements (width * dstNComps)
    src_pixels dst_pixels scratch = Some scratch' ->
  length scratch' = length scratch
  /\ (0 <= width ->
      forall y x c,
        0 <= y < Z.of_nat n -> 0 <= x < width -> 0 <= c < nComps ->
        is_Some (load pixelData
                   (src_pixels + y * srcRowElements + x * pixelDataNComps
                    + (dstNCompsStartIndex + c)))).
Proof.
  induction n as [|n IH]; intros src_pixels dst_pixels scratch scratch';
    cbn [convert_rows_ubyte].
  { intros [= <-]. split; [reflexivity | lia]. }
  destruct (convert_pixels _ _ _ _ _ _ _ _ _ _ _) as [[[s1 d1] b1]|] eqn:Hpx;
    [|discriminate].
  cbn [mbind option_bind]. intros H.
  apply convert_pixels_inv in Hpx as (-> & -> & Hlen1 & Hread1).
  apply IH in H as [Hlen Hread].
  split; [congruence|]. intros Hw y x c Hy Hx Hc.
  destruct (Z.eq_dec y 0) as [-> | Hne].
  - rewrite Z.mul_0_l, Z.add_0_r. apply Hread1; lia.
  - specialize (Hread Hw (y - 1) x c ltac:(lia) Hx Hc).
    rewrite Z2Nat.id in Hread by exact Hw.
    now replace (src_pixels + width * pixelDataNComps
                 + (srcRowElements - width * pixelDataNComps)
                 + (y - 1) * srcRowElements)
      with (src_pixels + y * srcRowElements) in Hread by lia.
Qed.

Lemma convert_rows_ushort_inv n : forall src_pixels dst_pixels scratch
    scratch',
  convert_rows_ushort host_little pixelDataNComps dstNCompsStartIndex
    dstNComps pixelData n width nComps srcRowElements (width * dstNComps)
    src_pixels dst_pixels scratch = Some scratch' ->
  length scratch' = length scratch
  /\ (0 <= width ->
      forall y x c,
        0 <= y < Z.of_nat n -> 0 <= x < width -> 0 <= c < nComps ->
        is_Some (load pixelData
                   (src_pixels + y * srcRowElements + x * pixelDataNComps
                    + (dstNCompsStartIndex + c)))).
Proof.
  induction n as [|n IH]; intros src_pixels dst_pixels scratch scratch';
    cbn [convert_rows_ushort].
  { intros [= <-]. split; [reflexivity | lia]. }
  destruct (convert_pixels _ _ _ _ _ _ _ _ _ _ _) as [[[s1 d1] b1]|] eqn:Hpx;
    [|discriminate].
  cbn [mbind option_bind]. cbv zeta.
  apply convert_pixels_inv in Hpx as (-> & -> & Hlen1 & Hread1).
  destruct (if host_little then _ else _) as [b2|] eqn:Hswap;
    [|discriminate].
  cbn [mbind option_bind]. intros H.
  assert (Hlen2 : length b2 = length b1).
  { destruct host_little; [|congruence].
    now apply swap_endian_length in Hswap. }
  apply IH in H as [Hlen Hread].
  split; [congruence|]. intros Hw y x c Hy Hx Hc.
  destruct (Z.eq_dec y 0) as [-> | Hne].
  - rewrite Z.mul_0_l, Z.add_0_r. apply Hread1; lia.
  - specialize (Hread Hw (y - 1) x c ltac:(lia) Hx Hc).
    rewrite Z2Nat.id in Hread by exact Hw.
    now replace (src_pixels + width * pixelDataNComps
                 - width * pixelDataNComps + srcRowElements
                 + (y - 1) * srcRowElements)
      with (src_pixels + y * srcRowElements) in Hread by lia.
Qed.

End TranscoderBounds.

Lemma convert_inv host_little depth pixelData bounds pixelDataNComps
    dstNCompsStartIndex dstNComps rowBytes scratch :
  convert host_little depth pixelData bounds pixelDataNComps
    dstNCompsStartIndex dstNComps rowBytes = Some scratch ->
  length scratch
  = Z.to_nat ((y2 bounds - y1 bounds)
              * ((x2 bounds - x1 bounds) * dstNComps * sizeof_sample depth))
  /\ (0 <= x2 bounds - x1 bounds -> 0 <= y2 bounds - y1 bounds ->
      region_readable pixelData bounds pixelDataNComps dstNCompsStartIndex
        dstNComps rowBytes).
Proof.
  unfold convert, region_readable. intros H.
  assert (Hinv : length scratch
                 = length (RamBuffer ((y2 bounds - y1 bounds)
                                      * ((x2 bounds - x1 bounds) * dstNComps
                                         * sizeof_sample depth)))
                 /\ (0 <= x2 bounds - x1 bounds ->
                     forall y x c,
                       0 <= y < Z.of_nat (Z.to_nat (y2 bounds - y1 bounds)) ->
                       0 <= x < x2 bounds - x1 bounds ->
                       0 <= c < Z.min dstNComps pixelDataNComps ->
                       is_Some (load pixelData
                                  (0 + y * (rowBytes / sizeof_float)
                                   + x * pixelDataNComps
                                   + (dstNCompsStartIndex + c))))).
  { destruct depth.
    - now apply convert_rows_ubyte_inv in H.
    - now apply convert_rows_ushort_inv in H. }
  destruct Hinv as [Hlen Hread]. split.
  - rewrite Hlen. unfold RamBuffer. apply length_replicate.
  - intros Hw Hh y x c Hy Hx Hc.
    specialize (Hread Hw y x c ltac:(lia) Hx Hc).
    now rewrite Z.add_0_l in Hread.
Qed.

(** X10. The conversion of a region is defined exactly when every source sample
    it is to quantise exists in the source buffer: a row stride, a channel
    window or a region that leads outside the buffer is never clipped. *)
Theorem convert_defined host_little depth pixelData bounds pixelDataNComps
    dstNCompsStartIndex dstNComps rowBytes :
  0 <= x2 bounds - x1 bounds -> 0 <= y2 bounds - y1 bounds ->
  0 <= dstNComps -> 0 <= pixelDataNComps ->
  is_Some (convert host_little depth pixelData bounds pixelDataNComps
             dstNCompsStartIndex dstNComps rowBytes)
  <-> region_readable pixelData bounds pixelDataNComps dstNCompsStartIndex
        dstNComps rowBytes.
Proof.
  intros Hw Hh HDC HNC. split.
  - intros [scratch H]. apply convert_inv in H as [_ H]. now apply H.
  - intros Hread. rewrite convert_spec by assumption. eauto.
Qed.

Lemma convert_defined_witness :
  is_Some (convert true eBitDepthUShort rgba_pixel (region 2 1) 4 0 4 32)
  <-> region_readable rgba_pixel (region 2 1) 4 0 4 32.
Proof.
  apply (convert_defined true eBitDepthUShort rgba_pixel (region 2 1)
           4 0 4 32); simpl; lia.
Defined.

(** X11. A region of no width or of no height converts to the empty raster,
    whatever the source buffer, which is not read. *)
Theorem convert_empty_region host_little depth pixelData bounds
    pixelDataNComps dstNCompsStartIndex dstNComps rowBytes :
  0 <= x2 bounds - x1 bounds -> 0 <= y2 bounds - y1 bounds ->
  0 <= dstNComps -> 0 <= pixelDataNComps ->
  x2 bounds = x1 bounds \/ y2 bounds = y1 bounds ->
  convert host_little depth pixelData bounds pixelDataNComps
    dstNCompsStartIndex dstNComps rowBytes = Some [].
Proof.
  intros Hw Hh HDC HNC Hempty.
  destruct (convert host_little depth pixelData bounds pixelDataNComps
              dstNCompsStartIndex dstNComps rowBytes) as [scratch|] eqn:Hc.
  - apply convert_inv in Hc as [Hlen _].
    replace ((y2 bounds - y1 bounds)
             * ((x2 bounds - x1 bounds) * dstNComps * sizeof_sample depth))
      with 0 in Hlen by (destruct Hempty; nia).
    now destruct scratch.
  - exfalso.
    assert (H : is_Some (convert host_little depth pixelData bounds
                           pixelDataNComps dstNCompsStartIndex dstNComps
                           rowBytes)).
    { rewrite convert_spec; [eauto | assumption ..|].
      intros y x c Hy Hx Hc'. lia. }
    rewrite Hc in H. now destruct H.
Qed.

Lemma convert_empty_region_witness :
  convert true eBitDepthUByte [] (region 0 5) 4 0 4 0 = Some [].
Proof.
  apply (convert_empty_region true eBitDepthUByte [] (region 0 5) 4 0 4 0);
    simpl; lia.
Defined.

Lemma convert_host_independent depth pixelData bounds pixelDataNComps
    dstNCompsStartIndex dstNComps rowBytes :
  0 <= x2 bounds - x1 bounds -> 0 <= y2 bounds - y1 bounds ->
  0 <= dstNComps -> 0 <= pixelDataNComps ->
  convert true depth pixelData bounds pixelDataNComps dstNCompsStartIndex
    dstNComps rowBytes
  = convert false depth pixelData bounds pixelDataNComps
      dstNCompsStartIndex dstNComps rowBytes.
Proof.
  intros Hw Hh HDC HNC.
  destruct (convert true depth pixelData bounds pixelDataNComps
              dstNCompsStartIndex dstNComps rowBytes) as [s1|] eqn:H1.
  - apply convert_inv in H1 as Hr. destruct Hr as [_ Hr].
    specialize (Hr Hw Hh).
    rewrite convert_spec in H1 by assumption.
    now rewrite convert_spec by assumption.
  - destruct (convert false depth pixelData bounds pixelDataNComps
                dstNCompsStartIndex dstNComps rowBytes) as [s2|] eqn:H2;
      [|reflexivity].
    apply convert_inv in H2 as [_ Hr]. specialize (Hr Hw Hh).
    rewrite convert_spec in H1 by assumption. discriminate H1.
Qed.

(** ** Opening the file: what is released when it fails *)

Lemma openFile_inr W filename nChannels opened color :
  openFile W filename nChannels = Some (opened, inr color) ->
  open_file_succeeds W filename = true
  /\ png_create_write_struct_succeeds W = true
  /\ png_create_info_struct_succeeds W = true
  /\ color_type_of_channels nChannels = Some color
  /\ opened = [Ev_open_file filename true;
               Ev_png_create_write_struct true;
               Ev_png_create_info_struct true].
Proof.
  unfold openFile, create_write_struct, destroy_write_struct.
  destruct (open_file_succeeds W filename),
    (color_type_of_channels nChannels) as [color'|],
    (png_create_write_struct_succeeds W),
    (png_create_info_struct_succeeds W); cbn [mbind option_bind];
    try discriminate.
  intros [= <- <-]. repeat split; reflexivity.
Qed.

(** X12. [openFile] succeeds exactly when the file can be opened, the channel
    count is one of 1 to 4 and both libpng structures can be created; it has
    then made these three calls and no other, and the colour type is the one of
    the channel count. *)
Theorem openFile_success W filename nChannels opened color :
  openFile W filename nChannels = Some (opened, inr color)
  <-> open_file_succeeds W filename = true
      /\ png_create_write_struct_succeeds W = true
      /\ png_create_info_struct_succeeds W = true
      /\ color_type_of_channels nChannels = Some color
      /\ opened = [Ev_open_file filename true;
                   Ev_png_create_write_struct true;
                   Ev_png_create_info_struct true].
Proof.
  split; [apply openFile_inr|].
  intros (Hopen & Hsp & Hip & Hcolor & ->).
  unfold openFile, create_write_struct.
  now rewrite Hopen, Hcolor, Hsp, Hip.
Qed.

(** X13. When [openFile] fails it has closed the file if and only if it had
    opened it, and it has destroyed nothing: a write structure that
    [png_create_write_struct] returned before [png_create_info_struct] failed
    is still alive when the exception leaves. *)
Theorem openFile_failure W filename nChannels opened what :
  openFile W filename nChannels = Some (opened, inl what) ->
  count is_fclose opened = count is_open_file_ok opened
  /\ count is_destroy_write_struct opened = 0%nat
  /\ (png_create_write_struct_succeeds W = true ->
      open_file_succeeds W filename = true ->
      count is_create_write_struct_ok opened = 1%nat).
Proof.
  unfold openFile, create_write_struct, destroy_write_struct.
  destruct (open_file_succeeds W filename),
    (color_type_of_channels nChannels) as [color'|],
    (png_create_write_struct_succeeds W),
    (png_create_info_struct_succeeds W); cbn [mbind option_bind];
    try discriminate; intros [= <- <-];
    repeat split; try reflexivity; discriminate.
Qed.

Lemma openFile_failure_witness :
  count is_fclose
    [Ev_open_file "out.png" true; Ev_png_create_write_struct true;
     Ev_png_create_info_struct false; Ev_fclose]
  = count is_open_file_ok
      [Ev_open_file "out.png" true; Ev_png_create_write_struct true;
       Ev_png_create_info_struct false; Ev_fclose]
  /\ count is_destroy_write_struct
       [Ev_open_file "out.png" true; Ev_png_create_write_struct true;
        Ev_png_create_info_struct false; Ev_fclose] = 0%nat
  /\ (true = true -> true = true ->
      count is_create_write_struct_ok
        [Ev_open_file "out.png" true; Ev_png_create_write_struct true;
         Ev_png_create_info_struct false; Ev_fclose] = 1%nat).
Proof.
  apply (openFile_failure
           {| open_file_succeeds := fun _ => true;
              png_create_write_struct_succeeds := true;
              png_create_info_struct_succeeds := false;
              png_write_row_succeeds := fun _ => true |}
           "out.png" 3 _ std_exception_what).
  reflexivity.
Defined.

Lemma color_type_of_channels_defined nChannels :
  is_Some (color_type_of_channels nChannels) <-> 1 <= nChannels <= 4.
Proof.
  unfold color_type_of_channels.
  destruct (Z.eqb_spec nChannels 1), (Z.eqb_spec nChannels 2),
    (Z.eqb_spec nChannels 3), (Z.eqb_spec nChannels 4);
    (split; [intros [c Hc]; try discriminate Hc; lia | intros; eauto; lia]).
Qed.

(** X14. [openFile] has a defined outcome unless the file could be opened and
    the channel count is not one of 1 to 4: [create_write_struct] then throws
    before it has assigned either handle, and the handler reads them to decide
    what to destroy. *)
Theorem openFile_defined_iff W filename nChannels :
  is_Some (openFile W filename nChannels)
  <-> open_file_succeeds W filename = false \/ 1 <= nChannels <= 4.
Proof.
  rewrite <- color_type_of_channels_defined.
  unfold openFile, create_write_struct, destroy_write_struct.
  destruct (open_file_succeeds W filename); [|split; [now left | eauto]].
  destruct (color_type_of_channels nChannels) as [color|].
  - destruct (png_create_write_struct_succeeds W),
      (png_create_info_struct_succeeds W); cbn [mbind option_bind];
      split; eauto.
  - cbn [mbind option_bind]. split.
    + intros [x H]. discriminate H.
    + intros [H | [x H]]; discriminate H.
Qed.

(** ** The traces of [encode] *)

Lemma write_rows_row_events W scratch pngRowSize n y rows ok :
  write_rows W scratch pngRowSize n y = (rows, ok) ->
  exists k, (k <= n)%nat /\ (ok = true -> k = n)
            /\ rows = row_events scratch pngRowSize y k.
Proof. apply write_rows_spec. Qed.

Lemma openFile_failure_events W filename nChannels opened what :
  color_type_of_channels nChannels <> None ->
  openFile W filename nChannels = Some (opened, inl what) ->
  (opened = [Ev_open_file filename false]
   /\ what = "Couldn't not open file"%string)
  \/ (opened = [Ev_open_file filename true; Ev_png_create_write_struct false;
                Ev_fclose]
      /\ what = std_exception_what)
  \/ (opened = [Ev_open_file filename true; Ev_png_create_write_struct true;
                Ev_png_create_info_struct false; Ev_fclose]
      /\ what = std_exception_what).
Proof.
  unfold openFile, create_write_struct, destroy_write_struct.
  destruct (open_file_succeeds W filename),
    (color_type_of_channels nChannels) as [color'|],
    (png_create_write_struct_succeeds W),
    (png_create_info_struct_succeeds W); cbn [mbind option_bind];
    try congruence; intros _ [= <- <-]; auto.
Qed.

(** Every way an [encode] call ends, with the calls it has made. *)
Lemma encode_trace W host_little self filename pixelData bounds par
    pixelDataNComps dstNCompsStartIndex dstNComps rowBytes o :
  encode W host_little self filename pixelData bounds par pixelDataNComps
    dstNCompsStartIndex dstNComps rowBytes = Some o ->
  (accepted_channels dstNComps = false /\ o = rejected pixelData)
  \/ (exists opened what,
        openFile W filename dstNComps = Some (opened, inl what)
        /\ accepted_channels dstNComps = true
        /\ status o = kOfxStatFailed
        /\ events o = opened ++ [Ev_setPersistentMessage what]
        /\ pixelData_after o = pixelData)
  \/ (exists color scratch k,
        convert host_little (pngDetph_of self) (pixelData_after o) bounds
          pixelDataNComps dstNCompsStartIndex dstNComps rowBytes
        = Some scratch
        /\ (k <= Z.to_nat (y2 bounds - y1 bounds))%nat
        /\ (status o = kOfxStatOK -> k = Z.to_nat (y2 bounds - y1 bounds))
        /\ (status o = kOfxStatOK \/ status o = kOfxStatFailed)
        /\ events o
           = preamble_events self filename color bounds par
             ++ row_events scratch
                  ((x2 bounds - x1 bounds) * dstNComps
                   * sizeof_sample (pngDetph_of self))
                  (y2 bounds - y1 bounds - 1) k
             ++ closing_events
                  (match status o with kOfxStatOK => true | _ => false end)).
Proof.
  intros Ho. apply encode_inv in Ho.
  destruct Ho as [Ho | [[Hacc Ho] | [Hacc Ho]]]; [now left | |].
  - right. left. destruct Ho as (opened & what & Hopen & ->).
    exists opened, what. repeat split; assumption || reflexivity.
  - right. right.
    destruct Ho as (opened & color & dithered & scratch & rows & ok
                    & Hopen & _ & Hc & Hrows & ->).
    apply openFile_inr in Hopen as (_ & _ & _ & _ & ->).
    apply write_rows_row_events in Hrows as (k & Hk & Hok & ->).
    exists color, scratch, k. cbn [pixelData_after status events].
    split; [exact Hc|]. split; [exact Hk|].
    split; [destruct ok; [auto | discriminate]|].
    split; [destruct ok; auto|].
    destruct ok; reflexivity.
Qed.

Lemma count_app p evs evs' :
  count p (evs ++ evs') = (count p evs + count p evs')%nat.
Proof. unfold count. now rewrite List.filter_app, length_app. Qed.

Lemma count_row_events p scratch pngRowSize y n :
  (forall y row, p (Ev_png_write_row y row) = false) ->
  count p (row_events scratch pngRowSize y n) = 0%nat.
Proof.
  intros Hp. unfold count, row_events.
  rewrite filter_nil_of_forall; [reflexivity|].
  intros e He. apply list_elem_of_In, list_elem_of_fmap in He
    as (i & -> & _). apply Hp.
Qed.

Ltac count_trace :=
  rewrite ?count_app, ?count_row_events by reflexivity;
  try reflexivity.

(** X15. On every path through [encode], the file is closed exactly as many
    times as it was opened (once or never), the pair of libpng structures is
    destroyed exactly when both were created, and a message is left for the
    host exactly when the call does not end with [kOfxStatOK]. *)
Theorem encode_releases W host_little self filename pixelData bounds par
    pixelDataNComps dstNCompsStartIndex dstNComps rowBytes o :
  encode W host_little self filename pixelData bounds par pixelDataNComps
    dstNCompsStartIndex dstNComps rowBytes = Some o ->
  count is_fclose (events o) = count is_open_file_ok (events o)
  /\ (count is_open_file_ok (events o) <= 1)%nat
  /\ count is_destroy_write_struct (events o)
     = count is_create_info_struct_ok (events o)
  /\ count is_message (events o)
     = (match status o with kOfxStatOK => 0 | _ => 1 end)%nat.
Proof.
  intros Ho. apply encode_trace in Ho.
  destruct Ho as [[_ ->] | [Ho | Ho]].
  - cbn. repeat split; lia.
  - destruct Ho as (opened & what & Hopen & Hacc & -> & -> & _).
    apply openFile_failure_events in Hopen;
      [|now apply accepted_color_type].
    destruct Hopen as [[-> ->] | [[-> ->] | [-> ->]]];
      cbn; repeat split; lia.
  - destruct Ho as (color & scratch & k & _ & _ & _ & Hst & ->).
    destruct Hst as [-> | ->]; count_trace; cbn; repeat split; lia.
Qed.

Lemma encode_releases_witness :
  exists o,
    encode World_ok true (plugin_8bit false "sRGB") "out.png" rgba_pixel
      (region 1 1) F32.one 4 0 4 16 = Some o
    /\ count is_fclose (events o) = 1%nat
    /\ count is_destroy_write_struct (events o) = 1%nat
    /\ count is_message (events o) = 0%nat.
Proof.
  eassert (Ho : encode World_ok true (plugin_8bit false "sRGB") "out.png"
                  rgba_pixel (region 1 1) F32.one 4 0 4 16 = Some _)
    by (vm_compute; reflexivity).
  destruct (encode_releases _ _ _ _ _ _ _ _ _ _ _ _ Ho)
    as (Hclose & _ & Hdestroy & Hmsg).
  eexists. split; [exact Ho|].
  split; [exact Hclose|]. split; [exact Hdestroy | exact Hmsg].
Defined.

(** X16. A call that ends with [kOfxStatOK] has made exactly these calls: the
    file and the two structures, the configuration and the header, one
    [png_write_row] per row from the last row of the scratch buffer to the
    first, [png_write_end] twice (once by [encode], once more by
    [destroy_write_struct]), the destruction of the pair, and [fclose]. *)
Theorem encode_success_trace W host_little self filename pixelData bounds
    par pixelDataNComps dstNCompsStartIndex dstNComps rowBytes o :
  encode W host_little self filename pixelData bounds par pixelDataNComps
    dstNCompsStartIndex dstNComps rowBytes = Some o ->
  status o = kOfxStatOK ->
  exists color scratch,
    color_type_of_channels dstNComps = Some color
    /\ convert host_little (pngDetph_of self) (pixelData_after o) bounds
         pixelDataNComps dstNCompsStartIndex dstNComps rowBytes
       = Some scratch
    /\ events o
       = preamble_events self filename color bounds par
         ++ row_events scratch
              ((x2 bounds - x1 bounds) * dstNComps
               * sizeof_sample (pngDetph_of self))
              (y2 bounds - y1 bounds - 1)
              (Z.to_nat (y2 bounds - y1 bounds))
         ++ [Ev_png_write_end; Ev_png_write_end;
             Ev_png_destroy_write_struct; Ev_fclose].
Proof.
  intros Ho Hst. apply encode_inv in Ho.
  destruct Ho as [[_ ->] | [[_ Ho] | [_ Ho]]]; [discriminate Hst| |].
  { destruct Ho as (opened & what & _ & ->). discriminate Hst. }
  destruct Ho as (opened & color & dithered & scratch & rows & ok
                  & Hopen & _ & Hc & Hrows & ->).
  destruct ok; [|discriminate Hst].
  apply openFile_inr in Hopen as (_ & _ & _ & Hcolor & ->).
  apply write_rows_row_events in Hrows as (k & _ & Hk & ->).
  rewrite (Hk eq_refl).
  exists color, scratch. split; [exact Hcolor|]. split; [exact Hc|].
  reflexivity.
Qed.

Lemma encode_success_trace_witness :
  exists o color scratch,
    encode World_ok true (plugin_8bit false "sRGB") "out.png" rgba_pixel
      (region 1 1) F32.one 4 0 4 16 = Some o
    /\ events o
       = preamble_events (plugin_8bit false "sRGB") "out.png" color
           (region 1 1) F32.one
         ++ row_events scratch 4 0 1
         ++ [Ev_png_write_end; Ev_png_write_end;
             Ev_png_destroy_write_struct; Ev_fclose].
Proof.
  eassert (Ho : encode World_ok true (plugin_8bit false "sRGB") "out.png"
                  rgba_pixel (region 1 1) F32.one 4 0 4 16 = Some _)
    by (vm_compute; reflexivity).
  destruct (encode_success_trace _ _ _ _ _ _ _ _ _ _ _ _ Ho eq_refl)
    as (color & scratch & _ & _ & Hev).
  eexists _, color, scratch. split; [exact Ho | exact Hev].
Defined.

(** X17. When the destination cannot be opened, [encode] fails with the message
    of [openFile], having made no call to libpng, read no pixel and closed
    nothing; this is so whatever the source buffer and the region. *)
Theorem encode_file_not_opened W host_little self filename pixelData bounds
    par pixelDataNComps dstNCompsStartIndex dstNComps rowBytes :
  dstNComps = 1 \/ dstNComps = 3 \/ dstNComps = 4 ->
  open_file_succeeds W filename = false ->
  encode W host_little self filename pixelData bounds par pixelDataNComps
    dstNCompsStartIndex dstNComps rowBytes
  = Some {| status := kOfxStatFailed;
            events := [Ev_open_file filename false;
                       Ev_setPersistentMessage "Couldn't not open file"];
            pixelData_after := pixelData |}.
Proof.
  intros Hacc Hopen. apply accepted_channels_spec in Hacc.
  unfold accepted_channels in Hacc. unfold encode, openFile.
  destruct (negb (dstNComps =? 4) && negb (dstNComps =? 3)
            && negb (dstNComps =? 1)); [discriminate Hacc|].
  now rewrite Hopen.
Qed.

Lemma encode_file_not_opened_witness :
  encode {| open_file_succeeds := fun _ => false;
            png_create_write_struct_succeeds := true;
            png_create_info_struct_succeeds := true;
            png_write_row_succeeds := fun _ => true |}
    true (plugin_8bit true "sRGB") "out.png" [] (region 2 2) F32.one 4 0 4 32
  = Some {| status := kOfxStatFailed;
            events := [Ev_open_file "out.png" false;
                       Ev_setPersistentMessage "Couldn't not open file"];
            pixelData_after := [] |}.
Proof.
  apply encode_file_not_opened; [right; right; reflexivity | reflexivity].
Defined.

(** X18. When the file is open and one of the two libpng structures cannot be
    created, [encode] closes the file and fails.  The message it leaves is the
    [what()] of the [std::exception] that [openFile] rethrows by value, not the
    text [create_write_struct] threw; and when it is the info structure that is
    missing, the write structure is never destroyed. *)
Theorem encode_struct_not_created W host_little self filename pixelData
    bounds par pixelDataNComps dstNCompsStartIndex dstNComps rowBytes :
  dstNComps = 1 \/ dstNComps = 3 \/ dstNComps = 4 ->
  open_file_succeeds W filename = true ->
  png_create_write_struct_succeeds W && png_create_info_struct_succeeds W
  = false ->
  encode W host_little self filename pixelData bounds par pixelDataNComps
    dstNCompsStartIndex dstNComps rowBytes
  = Some {| status := kOfxStatFailed;
            events :=
              Ev_open_file filename true
              :: (if png_create_write_struct_succeeds W
                  then [Ev_png_create_write_struct true;
                        Ev_png_create_info_struct false]
                  else [Ev_png_create_write_struct false])
              ++ [Ev_fclose; Ev_setPersistentMessage std_exception_what];
            pixelData_after := pixelData |}.
Proof.
  intros Hacc Hopen Hcreate.
  pose proof Hacc as Hcolor. apply accepted_channels_spec in Hacc.
  unfold accepted_channels in Hacc.
  unfold encode, openFile, create_write_struct, destroy_write_struct.
  destruct (negb (dstNComps =? 4) && negb (dstNComps =? 3)
            && negb (dstNComps =? 1)); [discriminate Hacc|].
  rewrite Hopen.
  assert (Hc : exists color, color_type_of_channels dstNComps = Some color)
    by (destruct Hcolor as [-> | [-> | ->]]; eexists; reflexivity).
  destruct Hc as [color ->].
  destruct (png_create_write_struct_succeeds W),
    (png_create_info_struct_succeeds W); try discriminate Hcreate;
    reflexivity.
Qed.

Lemma encode_struct_not_created_witness :
  encode {| open_file_succeeds := fun _ => true;
            png_create_write_struct_succeeds := true;
            png_create_info_struct_succeeds := false;
            png_write_row_succeeds := fun _ => true |}
    true (plugin_8bit true "sRGB") "out.png" [] (region 2 2) F32.one 4 0 3 32
  = Some {| status := kOfxStatFailed;
            events := [Ev_open_file "out.png" true;
                       Ev_png_create_write_struct true;
                       Ev_png_create_info_struct false;
                       Ev_fclose;
                       Ev_setPersistentMessage std_exception_what];
            pixelData_after := [] |}.
Proof.
  apply (encode_struct_not_created
           {| open_file_succeeds := fun _ => true;
              png_create_write_struct_succeeds := true;
              png_create_info_struct_succeeds := false;
              png_write_row_succeeds := fun _ => true |});
    [right; left; reflexivity | reflexivity | reflexivity].
Defined.

Lemma row_events_S scratch pngRowSize y n :
  row_events scratch pngRowSize y (S n)
  = Ev_png_write_row y (scratch_row scratch pngRowSize y)
    :: row_events scratch pngRowSize (y - 1) n.
Proof.
  unfold row_events. cbn [seq fmap list_fmap]. rewrite Z.sub_0_r. f_equal.
  rewrite <- fmap_S_seq, <- list_fmap_compose.
  apply list_fmap_ext. intros _ i _. simpl.
  now replace (y - 1 - Z.of_nat i) with (y - Z.of_nat (S i)) by lia.
Qed.

(** The row loop stops at the first row, going down, that [png_write_row]
    does not return from. *)
Lemma write_rows_failure W scratch pngRowSize y0 n : forall y,
  y - Z.of_nat n < y0 <= y ->
  (forall y', y0 < y' <= y -> png_write_row_succeeds W y' = true) ->
  png_write_row_succeeds W y0 = false ->
  write_rows W scratch pngRowSize n y
  = (row_events scratch pngRowSize y (Z.to_nat (y - y0)), false).
Proof.
  induction n as [|n IH]; intros y Hy Hok Hfail; [lia|].
  cbn [write_rows].
  destruct (Z.eq_dec y y0) as [-> | Hne].
  - rewrite Hfail, Z.sub_diag. reflexivity.
  - rewrite Hok by lia.
    rewrite IH by (try assumption; try lia; intros; apply Hok; lia).
    replace (Z.to_nat (y - y0)) with (S (Z.to_nat (y - 1 - y0))) by lia.
    now rewrite row_events_S.
Qed.

(** X19. When [png_write_row] fails on row [y0] of the scratch buffer, the rows
    above it, from the last one down, have been written and no other; [encode]
    then still calls [png_write_end] once (through [destroy_write_struct]),
    destroys the pair, closes the file and fails with the message "PNG library
    error". *)
Theorem encode_row_failure W host_little self filename pixelData bounds par
    pixelDataNComps dstNCompsStartIndex dstNComps rowBytes o opened color y0 :
  encode W host_little self filename pixelData bounds par pixelDataNComps
    dstNCompsStartIndex dstNComps rowBytes = Some o ->
  dstNComps = 1 \/ dstNComps = 3 \/ dstNComps = 4 ->
  openFile W filename dstNComps = Some (opened, inr color) ->
  0 <= y0 < y2 bounds - y1 bounds ->
  (forall y, y0 < y < y2 bounds - y1 bounds ->
             png_write_row_succeeds W y = true) ->
  png_write_row_succeeds W y0 = false ->
  status o = kOfxStatFailed
  /\ exists scratch,
       convert host_little (pngDetph_of self) (pixelData_after o) bounds
         pixelDataNComps dstNCompsStartIndex dstNComps rowBytes
       = Some scratch
       /\ events o
          = preamble_events self filename color bounds par
            ++ row_events scratch
                 ((x2 bounds - x1 bounds) * dstNComps
                  * sizeof_sample (pngDetph_of self))
                 (y2 bounds - y1 bounds - 1)
                 (Z.to_nat (y2 bounds - y1 bounds - 1 - y0))
            ++ [Ev_png_write_end; Ev_png_destroy_write_struct; Ev_fclose;
                Ev_setPersistentMessage "PNG library error"].
Proof.
  intros Ho Hacc Hopen Hy0 Hok Hfail.
  apply accepted_channels_spec in Hacc. apply encode_inv in Ho.
  destruct Ho as [[Hrej _] | [[_ Ho] | [_ Ho]]]; [congruence| |].
  { destruct Ho as (opened' & what & Hopen' & _). congruence. }
  destruct Ho as (opened' & color' & dithered & scratch & rows & ok
                  & Hopen' & _ & Hc & Hrows & ->).
  rewrite Hopen in Hopen'. injection Hopen' as <- <-.
  apply openFile_inr in Hopen as (_ & _ & _ & _ & ->).
  rewrite (write_rows_failure W scratch _ y0) in Hrows
    by (try assumption; try lia; intros; apply Hok; lia).
  injection Hrows as <- <-. cbn [status events pixelData_after].
  split; [reflexivity|]. exists scratch. split; [exact Hc|]. reflexivity.
Qed.

Lemma encode_row_failure_witness :
  exists o,
    encode {| open_file_succeeds := fun _ => true;
              png_create_write_struct_succeeds := true;
              png_create_info_struct_succeeds := true;
              png_write_row_succeeds := fun y => negb (y =? 0) |}
      true (plugin_8bit false "sRGB") "out.png" (rgba_pixel ++ rgba_pixel)
      (region 1 2) F32.one 4 0 4 16 = Some o
    /\ status o = kOfxStatFailed
    /\ emitted_rows (events o) = [(1, [128; 64; 191; 255])].
Proof.
  set (W := {| open_file_succeeds := fun _ => true;
               png_create_write_struct_succeeds := true;
               png_create_info_struct_succeeds := true;
               png_write_row_succeeds := fun y => negb (y =? 0) |}).
  eassert (Ho : encode W true (plugin_8bit false "sRGB") "out.png"
                  (rgba_pixel ++ rgba_pixel) (region 1 2) F32.one 4 0 4 16
                = Some _)
    by (vm_compute; reflexivity).
  destruct (encode_row_failure W _ _ _ _ _ _ _ _ _ _ _ _
              PNG_COLOR_TYPE_RGB_ALPHA 0 Ho
              ltac:(right; right; reflexivity) eq_refl ltac:(simpl; lia))
    as (Hst & _).
  - intros y Hy. simpl in Hy. replace y with 1 by lia. reflexivity.
  - reflexivity.
  - eexists. split; [exact Ho|]. split; [exact Hst|].
    vm_compute. reflexivity.
Defined.

(** X20. The compression level handed to zlib is always one of 0 to 9, and it
    is the level of the parameter when that is one of 0 to 9, the range the
    [assert] before the call expects. *)
Theorem encode_compression_level W host_little self filename pixelData
    bounds par pixelDataNComps dstNCompsStartIndex dstNComps rowBytes o
    level :
  encode W host_little self filename pixelData bounds par pixelDataNComps
    dstNCompsStartIndex dstNComps rowBytes = Some o ->
  In (Ev_png_set_compression_level level) (events o) ->
  0 <= level <= 9
  /\ (0 <= _compressionLevel self <= 9 -> level = _compressionLevel self).
Proof.
  intros Ho Hin. apply encode_trace in Ho.
  assert (Hclamp : level = Z.max (Z.min (_compressionLevel self) 9) 0).
  { destruct Ho as [[_ ->] | [Ho | Ho]].
    - destruct Hin as [H | []]. discriminate H.
    - destruct Ho as (opened & what & Hopen & _ & _ & Hev & _).
      rewrite Hev in Hin. apply in_app_or in Hin as [Hin | [H | []]];
        [|discriminate H].
      now apply (openFile_events _ _ _ _ _ _ Hopen) in Hin.
    - destruct Ho as (color & scratch & k & _ & _ & _ & Hst & Hev).
      rewrite Hev in Hin. apply in_app_or in Hin as [Hin | Hin].
      + cbn in Hin.
        repeat (destruct Hin as [H | Hin];
                [try discriminate H; injection H as <-; reflexivity|]).
        destruct Hin.
      + exfalso. apply in_app_or in Hin as [Hin | Hin].
        * apply list_elem_of_In, list_elem_of_fmap in Hin
            as (i & H & _). discriminate H.
        * destruct Hst as [Hst | Hst]; rewrite Hst in Hin; cbn in Hin;
            repeat (destruct Hin as [H | Hin]; [discriminate H|]);
            destruct Hin. }
  lia.
Qed.

Lemma encode_compression_level_witness :
  exists o,
    encode World_ok true (plugin_8bit false "sRGB") "out.png" rgba_pixel
      (region 1 1) F32.one 4 0 4 16 = Some o
    /\ In (Ev_png_set_compression_level 6) (events o)
    /\ 0 <= 6 <= 9.
Proof.
  eassert (Ho : encode World_ok true (plugin_8bit false "sRGB") "out.png"
                  rgba_pixel (region 1 1) F32.one 4 0 4 16 = Some _)
    by (vm_compute; reflexivity).
  assert (Hin : forall o,
             encode World_ok true (plugin_8bit false "sRGB") "out.png"
               rgba_pixel (region 1 1) F32.one 4 0 4 16 = Some o ->
             In (Ev_png_set_compression_level 6) (events o)).
  { intros o H. rewrite Ho in H. injection H as <-.
    cbn. repeat (first [left; reflexivity | right]). }
  eexists. split; [exact Ho|]. split; [exact (Hin _ Ho)|].
  exact (proj1 (encode_compression_level _ _ _ _ _ _ _ _ _ _ _ _ 6 Ho
                  (Hin _ Ho))).
Defined.

(** The row loop runs to its end exactly when [png_write_row] returns for
    every row it visits. *)
Lemma write_rows_ok W scratch pngRowSize n : forall y rows ok,
  write_rows W scratch pngRowSize n y = (rows, ok) ->
  ok = true
  <-> forall y', y - Z.of_nat n < y' <= y ->
                 png_write_row_succeeds W y' = true.
Proof.
  induction n as [|n IH]; intros y rows ok; cbn [write_rows].
  { intros [= <- <-]. split; [intros _ y' Hy'; lia | reflexivity]. }
  destruct (png_write_row_succeeds W y) eqn:Hy.
  - destruct (write_rows W scratch pngRowSize n (y - 1)) as [rest ok']
      eqn:Hrest.
    intros [= <- <-]. rewrite (IH _ _ _ Hrest). split.
    + intros H y' Hy'. destruct (Z.eq_dec y' y) as [-> | Hne];
        [exact Hy | apply H; lia].
    + intros H y' Hy'. apply H. lia.
  - intros [= <- <-]. split; [discriminate|].
    intros H. rewrite H in Hy by lia. discriminate Hy.
Qed.

(** X21. A call of [encode] that has an outcome ends with [kOfxStatOK] exactly
    when the channel count is 1, 3 or 4, the file can be opened, both libpng
    structures can be created and [png_write_row] returns for every row of the
    region. *)
Theorem encode_ok_iff W host_little self filename pixelData bounds par
    pixelDataNComps dstNCompsStartIndex dstNComps rowBytes o :
  encode W host_little self filename pixelData bounds par pixelDataNComps
    dstNCompsStartIndex dstNComps rowBytes = Some o ->
  status o = kOfxStatOK
  <-> (dstNComps = 1 \/ dstNComps = 3 \/ dstNComps = 4)
      /\ open_file_succeeds W filename = true
      /\ png_create_write_struct_succeeds W = true
      /\ png_create_info_struct_succeeds W = true
      /\ forall y, 0 <= y < y2 bounds - y1 bounds ->
                   png_write_row_succeeds W y = true.
Proof.
  intros Ho. apply encode_inv in Ho.
  destruct Ho as [[Hrej ->] | [[Hacc Ho] | [Hacc Ho]]].
  - split; [discriminate|]. intros (Hacc & _).
    apply accepted_channels_spec in Hacc. congruence.
  - destruct Ho as (opened & what & Hopen & ->).
    split; [discriminate|]. intros (_ & Hf & Hsp & Hip & _). exfalso.
    unfold openFile, create_write_struct in Hopen.
    rewrite Hf, Hsp, Hip in Hopen.
    destruct (color_type_of_channels dstNComps); [discriminate Hopen|].
    cbn in Hopen. discriminate Hopen.
  - destruct Ho as (opened & color & dithered & scratch & rows & ok
                    & Hopen & _ & _ & Hrows & ->).
    apply openFile_inr in Hopen as (Hf & Hsp & Hip & _ & _).
    apply write_rows_ok in Hrows. cbn [status].
    apply accepted_channels_spec in Hacc.
    split.
    + intros Hst. destruct ok; [|discriminate Hst].
      repeat (split; [assumption|]).
      intros y Hy. apply Hrows; [reflexivity | lia].
    + intros (_ & _ & _ & _ & Hall).
      assert (Hok : ok = true)
        by (apply Hrows; intros y Hy; apply Hall; lia).
      now rewrite Hok.
Qed.

Lemma encode_ok_iff_witness :
  exists o,
    encode World_ok true (plugin_8bit false "sRGB") "out.png" rgba_pixel
      (region 1 1) F32.one 4 0 4 16 = Some o
    /\ status o = kOfxStatOK.
Proof.
  eassert (Ho : encode World_ok true (plugin_8bit false "sRGB") "out.png"
                  rgba_pixel (region 1 1) F32.one 4 0 4 16 = Some _)
    by (vm_compute; reflexivity).
  eexists. split; [exact Ho|].
  apply (proj2 (encode_ok_iff _ _ _ _ _ _ _ _ _ _ _ _ Ho)).
  repeat split; try reflexivity. right. right. reflexivity.
Defined.

(** X22. Every row [encode] hands to [png_write_row] is a row of the scratch
    buffer: its index is one of the region's rows, and the bytes libpng reads
    there are all inside the buffer, [pngRowSize] of them. *)
Theorem encode_rows_within_scratch W host_little self filename pixelData
    bounds par pixelDataNComps dstNCompsStartIndex dstNComps rowBytes o y
    row :
  encode W host_little self filename pixelData bounds par pixelDataNComps
    dstNCompsStartIndex dstNComps rowBytes = Some o ->
  In (Ev_png_write_row y row) (events o) ->
  0 <= y < y2 bounds - y1 bounds
  /\ length row
     = Z.to_nat ((x2 bounds - x1 bounds) * dstNComps
                 * sizeof_sample (pngDetph_of self))
  /\ exists scratch,
       convert host_little (pngDetph_of self) (pixelData_after o) bounds
         pixelDataNComps dstNCompsStartIndex dstNComps rowBytes
       = Some scratch
       /\ (Z.to_nat ((y + 1) * ((x2 bounds - x1 bounds) * dstNComps
                                * sizeof_sample (pngDetph_of self)))
           <= length scratch)%nat
       /\ row = scratch_row scratch
                  ((x2 bounds - x1 bounds) * dstNComps
                   * sizeof_sample (pngDetph_of self)) y.
Proof.
  intros Ho Hin. apply encode_trace in Ho.
  destruct Ho as [[_ ->] | [Ho | Ho]].
  - destruct Hin as [H | []]. discriminate H.
  - destruct Ho as (opened & what & Hopen & _ & _ & Hev & _).
    rewrite Hev in Hin. apply in_app_or in Hin as [Hin | [H | []]];
      [|discriminate H].
    now apply (openFile_events _ _ _ _ _ _ Hopen) in Hin.
  - destruct Ho as (color & scratch & k & Hc & Hk & _ & Hst & Hev).
    rewrite Hev in Hin. apply in_app_or in Hin as [Hin | Hin].
    { cbn in Hin.
      repeat (destruct Hin as [H | Hin]; [discriminate H|]).
      destruct Hin. }
    apply in_app_or in Hin as [Hin | Hin].
    2:{ destruct Hst as [Hst | Hst]; rewrite Hst in Hin; cbn in Hin;
          repeat (destruct Hin as [H | Hin]; [discriminate H|]);
          destruct Hin. }
    apply list_elem_of_In, list_elem_of_fmap in Hin as (i & H & Hi).
    injection H as -> ->.
    apply elem_of_seq in Hi.
    set (sz := (x2 bounds - x1 bounds) * dstNComps
               * sizeof_sample (pngDetph_of self)) in *.
    set (H := y2 bounds - y1 bounds) in *.
    apply convert_inv in Hc as Hlen. destruct Hlen as [Hlen _].
    fold H sz in Hlen.
    split; [lia|].
    assert (Hfit : (Z.to_nat ((H - 1 - Z.of_nat i + 1) * sz)
                    <= length scratch)%nat)
      by (rewrite Hlen; nia).
    split.
    + unfold scratch_row. rewrite length_take, length_drop. nia.
    + exists scratch. split; [exact Hc|]. split; [exact Hfit | reflexivity].
Qed.

Lemma encode_rows_within_scratch_witness :
  exists o,
    encode World_ok true (plugin_16bit false "sRGB") "out.png" rgba_pixel
      (region 1 1) F32.one 4 0 4 16 = Some o
    /\ In (Ev_png_write_row 0 [128; 0; 64; 0; 191; 255; 255; 255])
         (events o)
    /\ length [128; 0; 64; 0; 191; 255; 255; 255] = 8%nat.
Proof.
  eassert (Ho : encode World_ok true (plugin_16bit false "sRGB") "out.png"
                  rgba_pixel (region 1 1) F32.one 4 0 4 16 = Some _)
    by (vm_compute; reflexivity).
  assert (Hin : forall o,
             encode World_ok true (plugin_16bit false "sRGB") "out.png"
               rgba_pixel (region 1 1) F32.one 4 0 4 16 = Some o ->
             In (Ev_png_write_row 0 [128; 0; 64; 0; 191; 255; 255; 255])
               (events o)).
  { intros o H. rewrite Ho in H. injection H as <-.
    cbn. repeat (first [left; reflexivity | right]). }
  eexists. split; [exact Ho|]. split; [exact (Hin _ Ho)|].
  exact (proj1 (proj2 (encode_rows_within_scratch _ _ _ _ _ _ _ _ _ _ _ _
                         _ _ Ho (Hin _ Ho)))).
Defined.

(** *** The byte order of the host *)

(** X23. What a call of [encode] does, and whether it has a defined outcome,
    does not depend on the byte order of the host: the status, the calls with
    the rows they carry and the source buffer left behind are the same on a
    little-endian and on a big-endian host. *)
Theorem encode_host_independent W self filename pixelData bounds par
    pixelDataNComps dstNCompsStartIndex dstNComps rowBytes :
  0 <= x2 bounds - x1 bounds -> 0 <= y2 bounds - y1 bounds ->
  0 <= pixelDataNComps ->
  encode W true self filename pixelData bounds par pixelDataNComps
    dstNCompsStartIndex dstNComps rowBytes
  = encode W false self filename pixelData bounds par pixelDataNComps
      dstNCompsStartIndex dstNComps rowBytes.
Proof.
  intros Hw Hh HNC. unfold encode.
  destruct (negb (dstNComps =? 4) && negb (dstNComps =? 3)
            && negb (dstNComps =? 1)) eqn:Hrej; [reflexivity|].
  assert (HDC : 0 <= dstNComps).
  { destruct (Z.eqb_spec dstNComps 4), (Z.eqb_spec dstNComps 3),
      (Z.eqb_spec dstNComps 1); try discriminate Hrej; lia. }
  destruct (openFile W filename dstNComps) as [[opened [what|color]]|];
    try reflexivity.
  cbn [mbind option_bind].
  match goal with
  | |- context [if ?b then ?x else Some pixelData] =>
      destruct (if b then x else Some pixelData) as [dithered|]
  end; [|reflexivity].
  cbn [mbind option_bind].
  now rewrite convert_host_independent by assumption.
Qed.

Lemma encode_host_independent_witness :
  encode World_ok true (plugin_16bit false "sRGB") "out.png" rgba_pixel
    (region 1 1) F32.one 4 0 4 16
  = encode World_ok false (plugin_16bit false "sRGB") "out.png" rgba_pixel
      (region 1 1) F32.one 4 0 4 16.
Proof.
  apply (encode_host_independent World_ok (plugin_16bit false "sRGB")
           "out.png" rgba_pixel (region 1 1) F32.one 4 0 4 16);
    simpl; lia.
Defined.

(** ** What the dithering of [encode] reaches *)

(** X24. [encode] gives [add_dither] the strides of the 8-bit raster, not those
    of the [float] buffer, and [add_dither] starts every row at the beginning
    of the buffer: whatever the height of the region, a source sample at index
    [(width + 3) * pixelDataNComps / 4] or beyond is the same after the call as
    before. *)
Theorem encode_dither_footprint W host_little self filename pixelData
    bounds par pixelDataNComps dstNCompsStartIndex dstNComps rowBytes o :
  encode W host_little self filename pixelData bounds par pixelDataNComps
    dstNCompsStartIndex dstNComps rowBytes = Some o ->
  0 <= pixelDataNComps ->
  length (pixelData_after o) = length pixelData
  /\ forall j : nat,
       (x2 bounds - x1 bounds + 3) * pixelDataNComps <= 4 * Z.of_nat j ->
       pixelData_after o !! j = pixelData !! j.
Proof.
  intros Ho Hn. apply encode_inv in Ho.
  destruct Ho as [[_ ->] | [[_ Ho] | [_ Ho]]]; [now split| |].
  { destruct Ho as (opened & what & _ & ->). now split. }
  destruct Ho as (opened & color & dithered & scratch & rows & ok
                  & _ & Hd & _ & _ & ->).
  cbn [pixelData_after].
  destruct (dithers self); [|injection Hd as <-; now split].
  unfold add_dither in Hd.
  apply dither_rows_frame in Hd as [Hlen Hframe]; [|lia|lia].
  split; [exact Hlen|]. intros j Hj. apply Hframe.
  unfold sizeof_float. lia.
Qed.

Lemma encode_dither_footprint_witness :
  exists o,
    encode World_ok true (plugin_8bit true "sRGB") "out.png"
      (rgba_pixel ++ rgba_pixel) (region 1 2) F32.one 4 0 4 16 = Some o
    /\ length (pixelData_after o) = 8%nat
    /\ pixelData_after o !! 4%nat = Some F32.half.
Proof.
  eassert (Ho : encode World_ok true (plugin_8bit true "sRGB") "out.png"
                  (rgba_pixel ++ rgba_pixel) (region 1 2) F32.one 4 0 4 16
                = Some _)
    by (vm_compute; reflexivity).
  destruct (encode_dither_footprint _ _ _ _ _ _ _ _ _ _ _ _ Ho
              ltac:(lia)) as [Hlen Hframe].
  eexists. split; [exact Ho|]. split; [exact Hlen|].
  rewrite (Hframe 4%nat) by (simpl; lia). reflexivity.
Defined.

Lemma float_index_misaligned off :
  off mod sizeof_float <> 0 -> float_index off = None.
Proof.
  intros H. unfold float_index.
  destruct (Z.eqb_spec (off mod sizeof_float) 0); [contradiction|].
  now rewrite andb_false_r.
Qed.

(** X25. With dithering on and a source of 1, 2 or 3 channels, the pixel stride
    [encode] gives [add_dither] is not a multiple of [sizeof(float)]: as soon
    as the region has two pixels in a row, the second one is reached through a
    [float] pointer that is not aligned, and the call has no defined outcome. *)
Theorem encode_dither_misaligned W host_little self filename pixelData
    bounds par pixelDataNComps dstNCompsStartIndex dstNComps rowBytes
    opened color :
  dstNComps = 1 \/ dstNComps = 3 \/ dstNComps = 4 ->
  openFile W filename dstNComps = Some (opened, inr color) ->
  _bitdepth self = 0 -> _ditherEnabled self = true ->
  1 <= pixelDataNComps <= 3 ->
  2 <= x2 bounds - x1 bounds -> 1 <= y2 bounds - y1 bounds ->
  encode W host_little self filename pixelData bounds par pixelDataNComps
    dstNCompsStartIndex dstNComps rowBytes = None.
Proof.
  intros Hacc Hopen Hdepth Hdither Hn Hw Hh.
  apply accepted_channels_spec in Hacc. unfold accepted_channels in Hacc.
  unfold encode.
  destruct (negb (dstNComps =? 4) && negb (dstNComps =? 3)
            && negb (dstNComps =? 1)); [discriminate Hacc|].
  rewrite Hopen, Hdepth, Hdither. cbn [mbind option_bind Z.eqb].
  cbn [BitDepthEnum_eqb andb sizeof_sample].
  destruct (Z.eqb_spec pixelDataNComps 4) as [|_]; [lia|].
  unfold add_dither.
  destruct (Z.to_nat (y2 bounds - y1 bounds)) as [|h] eqn:Hh'; [lia|].
  cbn [dither_rows]. cbv zeta.
  destruct (Z.to_nat (x2 bounds - x1 bounds)) as [|[|w]] eqn:Hw'; [lia|lia|].
  cbn [dither_pixels].
  destruct (dither_channels _ _ _ _ _ _ _) as [[s1 data1]|];
    [|reflexivity].
  cbn [mbind option_bind].
  destruct (Z.to_nat pixelDataNComps) as [|n] eqn:Hn'; [lia|].
  cbn [dither_channels]. cbn [Z.eqb].
  unfold load_float. rewrite float_index_misaligned; [reflexivity|].
  unfold sizeof_float.
  assert (pixelDataNComps = 1 \/ pixelDataNComps = 2 \/ pixelDataNComps = 3)
    as [-> | [-> | ->]] by lia; discriminate.
Qed.

Lemma encode_dither_misaligned_witness :
  encode World_ok true (plugin_8bit true "sRGB") "out.png"
    (replicate 6 F32.half) (region 2 1) F32.one 3 0 3 24 = None.
Proof.
  apply (encode_dither_misaligned World_ok true (plugin_8bit true "sRGB")
           "out.png" (replicate 6 F32.half) (region 2 1) F32.one 3 0 3 24
           [Ev_open_file "out.png" true; Ev_png_create_write_struct true;
            Ev_png_create_info_struct true] PNG_COLOR_TYPE_RGB);
    try reflexivity; simpl; lia.
Defined.

Lemma dither_pixels_defined alpha_channel amplitude nchannels (k : nat) n :
  forall (i : nat) s data,
  ((1 <= n)%nat ->
   (i + (n - 1) * k + Z.to_nat nchannels <= length data)%nat) ->
  exists s' data',
    dither_pixels n nchannels alpha_channel amplitude
      (sizeof_float * Z.of_nat k) (sizeof_float * Z.of_nat i) s data
    = Some (s', data')
    /\ length data' = length data.
Proof.
  induction n as [|n IH]; intros i s data Hlen; [now exists s, data|].
  cbn [dither_pixels].
  destruct (dither_channels_spec alpha_channel amplitude
              (Z.to_nat nchannels) 0 i s data
              ltac:(specialize (Hlen ltac:(lia)); nia))
    as (data1 & Hrun1 & Hlen1 & _).
  rewrite Hrun1. cbn [mbind option_bind].
  replace (sizeof_float * Z.of_nat i + sizeof_float * Z.of_nat k)
    with (sizeof_float * Z.of_nat (i + k)) by (unfold sizeof_float; lia).
  destruct (IH (i + k)%nat (Nat.iter (Z.to_nat nchannels) next_hash s) data1)
    as (s' & data' & Hrun & Hlen').
  { intros Hn. rewrite Hlen1. specialize (Hlen ltac:(lia)).
    replace (S n - 1)%nat with (S (n - 1)) in Hlen by lia. nia. }
  exists s', data'. split; [exact Hrun | congruence].
Qed.

Lemma dither_rows_defined alpha_channel amplitude nchannels width ystride
    ditherseed (k : nat) n : forall y scanline data,
  (1 <= width ->
   (Z.to_nat (width - 1) * k + Z.to_nat nchannels <= length data)%nat) ->
  exists data',
    dither_rows n y scanline nchannels width (sizeof_float * Z.of_nat k)
      ystride amplitude alpha_channel ditherseed data = Some data'
    /\ length data' = length data.
Proof.
  induction n as [|n IH]; intros y scanline data Hlen; [now exists data|].
  cbn [dither_rows]. cbv zeta.
  destruct (dither_pixels_defined alpha_channel amplitude nchannels k
              (Z.to_nat width) 0
              (MixState (UInt32.wrap32 y) (UInt32.wrap32 ditherseed) 0) data)
    as (s1 & data1 & Hrun1 & Hlen1).
  { intros Hw. specialize (Hlen ltac:(lia)).
    replace (Z.to_nat width - 1)%nat with (Z.to_nat (width - 1)) by lia.
    lia. }
  change (sizeof_float * Z.of_nat 0) with 0 in Hrun1.
  rewrite Hrun1. cbn [mbind option_bind].
  destruct (IH (y + 1) (scanline + ystride) data1) as (data' & Hrun & Hlen').
  { now rewrite Hlen1. }
  exists data'. split; [exact Hrun | congruence].
Qed.

Lemma load_same_length {A : Type} (l l' : list A) i :
  length l' = length l -> is_Some (load l i) -> is_Some (load l' i).
Proof.
  unfold load. intros Hlen. destruct (i <? 0); [trivial|].
  rewrite !lookup_lt_is_Some. lia.
Qed.

(** X26. With dithering on, a call of [encode] has an outcome whenever the
    channel count of the source is a multiple of 4 (so that the pixel stride it
    gives [add_dither] is a multiple of [sizeof(float)]), the source buffer
    holds the [(width + 3) * pixelDataNComps / 4] samples the ditherer reaches,
    and every sample of the region exists; the buffer it leaves has the length
    it had. *)
Theorem encode_dither_defined W host_little self filename pixelData bounds
    par pixelDataNComps dstNCompsStartIndex dstNComps rowBytes :
  _bitdepth self = 0 -> _ditherEnabled self = true ->
  0 <= x2 bounds - x1 bounds -> 0 <= y2 bounds - y1 bounds ->
  0 <= pixelDataNComps -> pixelDataNComps mod 4 = 0 ->
  (x2 bounds - x1 bounds + 3) * pixelDataNComps
  <= 4 * Z.of_nat (length pixelData) ->
  region_readable pixelData bounds pixelDataNComps dstNCompsStartIndex
    dstNComps rowBytes ->
  exists o,
    encode W host_little self filename pixelData bounds par pixelDataNComps
      dstNCompsStartIndex dstNComps rowBytes = Some o
    /\ length (pixelData_after o) = length pixelData.
Proof.
  intros Hdepth Hdither Hw Hh HNC Hmod Hfoot Hread.
  destruct (accepted_channels dstNComps) eqn:Hacc.
  2:{ exists (rejected pixelData). split; [|reflexivity].
      unfold encode. unfold accepted_channels in Hacc.
      now destruct (negb (dstNComps =? 4) && negb (dstNComps =? 3)
                    && negb (dstNComps =? 1)). }
  assert (HDC : 0 <= dstNComps)
    by (apply accepted_channels_spec in Hacc; lia).
  destruct (openFile_defined W filename dstNComps
              (accepted_color_type _ Hacc)) as (opened & r & b & Hopen).
  unfold encode. unfold accepted_channels in Hacc.
  destruct (negb (dstNComps =? 4) && negb (dstNComps =? 3)
            && negb (dstNComps =? 1)); [discriminate Hacc|].
  rewrite Hopen. cbn [mbind option_bind].
  destruct r as [what|color]; [eauto|].
  rewrite Hdepth, Hdither.
  cbn [Z.eqb BitDepthEnum_eqb andb sizeof_sample].
  set (k := Z.to_nat (pixelDataNComps / 4)).
  assert (Hk : pixelDataNComps * 1 = sizeof_float * Z.of_nat k).
  { unfold k, sizeof_float. rewrite Z2Nat.id by (apply Z.div_pos; lia).
    rewrite (Z.div_mod pixelDataNComps 4) at 1 by lia. lia. }
  rewrite Hk. unfold add_dither.
  destruct (dither_rows_defined
              (if pixelDataNComps =? 4 then 3 else -1)
              (F32.div (F32.of_Z 1) (F32.of_Z 255)) pixelDataNComps
              (x2 bounds - x1 bounds)
              (sizeof_float * Z.of_nat k * (x2 bounds - x1 bounds)) 1 k
              (Z.to_nat (y2 bounds - y1 bounds)) 0 0 pixelData)
    as (dithered & Hrun & Hlen).
  { intros Hw1. unfold sizeof_float in Hk. nia. }
  rewrite Hrun. cbn [mbind option_bind].
  rewrite convert_spec; try assumption.
  - cbn [mbind option_bind].
    destruct (write_rows _ _ _ _ _) as [rows ok].
    cbn [destroy_write_struct mbind option_bind].
    destruct ok; eexists; (split; [reflexivity | exact Hlen]).
  - intros y x c Hy Hx Hc.
    apply (load_same_length pixelData); [exact Hlen|]. now apply Hread.
Qed.

Lemma encode_dither_defined_witness :
  exists o,
    encode World_ok true (plugin_8bit true "sRGB") "out.png"
      (rgba_pixel ++ rgba_pixel) (region 2 1) F32.one 4 0 4 32 = Some o
    /\ length (pixelData_after o) = 8%nat.
Proof.
  apply (encode_dither_defined World_ok true (plugin_8bit true "sRGB")
           "out.png" (rgba_pixel ++ rgba_pixel) (region 2 1) F32.one
           4 0 4 32); try reflexivity; try (simpl; lia).
  intros y x c Hy Hx Hc. simpl in *.
  assert (y = 0) as -> by lia.
  assert (x = 0 \/ x = 1) as [-> | ->] by lia;
    (assert (c = 0 \/ c = 1 \/ c = 2 \/ c = 3) as [-> | [-> | [-> | ->]]]
       by lia); vm_compute; eauto.
Defined.

(** ** The default output colour space *)

(** X27. [onOutputFileChanged] never selects a colour space the OCIO
    configuration does not have, and it selects one only when it is asked to
    and the plugin is built with OCIO. *)
Theorem onOutputFileChanged_available using_ocio hasColorspace self
    setColorSpace name :
  onOutputFileChanged using_ocio hasColorspace self setColorSpace
  = Some name ->
  hasColorspace name = true /\ setColorSpace = true /\ using_ocio = true.
Proof.
  unfold onOutputFileChanged.
  destruct setColorSpace, using_ocio; try discriminate.
  destruct (_bitdepth self =? 0);
    repeat match goal with
           | |- context [if hasColorspace ?s then _ else _] =>
               destruct (hasColorspace s) eqn:?
           end;
    intros [= <-]; auto.
Qed.

Lemma onOutputFileChanged_available_witness :
  String.eqb "rrt_srgb" "rrt_srgb" = true /\ true = true /\ true = true.
Proof.
  apply (onOutputFileChanged_available true (String.eqb "rrt_srgb")
           (plugin_8bit true "") true "rrt_srgb").
  reflexivity.
Defined.

(** X28. Every colour space [onOutputFileChanged] selects for an 8-bit file is
    one that [write_info] tags as sRGB, and none of those it selects for a
    16-bit file is in the table of [write_info], which then writes no gamma. *)
Theorem onOutputFileChanged_gamma_hint using_ocio hasColorspace self
    setColorSpace name :
  onOutputFileChanged using_ocio hasColorspace self setColorSpace
  = Some name ->
  gamma_hint name
  = (if _bitdepth self =? 0 then [Ev_png_set_sRGB_gAMA_and_cHRM] else []).
Proof.
  unfold onOutputFileChanged.
  destruct setColorSpace, using_ocio; try discriminate.
  destruct (_bitdepth self =? 0);
    repeat match goal with
           | |- context [if hasColorspace ?s then _ else _] =>
               destruct (hasColorspace s)
           end;
    intros [= <-]; reflexivity.
Qed.

Lemma onOutputFileChanged_gamma_hint_witness :
  gamma_hint "Rec709" = [].
Proof.
  apply (onOutputFileChanged_gamma_hint true (fun _ => true)
           (plugin_16bit true "") true "Rec709").
  reflexivity.
Defined.

Example bjmix_first :
  bc (bjmix (MixState 0 13664758 0)) = 4294967195.
Proof. vm_compute. reflexivity. Qed.

Example dither_one :
  dither_of 4294967195 = F32.one.
Proof. vm_compute. reflexivity. Qed.

Example quantise_half :
  floatToInt 256 F32.half = 128 /\ floatToInt 65536 F32.half = 32768.
Proof. vm_compute. split; reflexivity. Qed.

(** The end-to-end scenarios: a region of 2 by 2 pixels, all
    (0.5, 0.25, 0.75, 1.0), without dithering.  Both rows are written,
    the upper one first. *)
Example encode_8bit_rows :
  option_map (fun o => (status o, emitted_rows (events o)))
    (encode World_ok true (plugin_8bit false "sRGB") "out.png"
       (rgba_pixel ++ rgba_pixel ++ rgba_pixel ++ rgba_pixel)
       (region 2 2) F32.one 4 0 4 32)
  = Some (kOfxStatOK,
          [(1, [128; 64; 191; 255; 128; 64; 191; 255]);
           (0, [128; 64; 191; 255; 128; 64; 191; 255])]).
Proof. vm_compute. reflexivity. Qed.

(** At 16 bits the samples are 32768, 16384, 49151 and 65535, most
    significant byte first, whatever the byte order of the host. *)
Example encode_16bit_rows host_little :
  option_map (fun o => (status o, emitted_rows (events o)))
    (encode World_ok host_little (plugin_16bit false "sRGB") "out.png"
       (rgba_pixel ++ rgba_pixel ++ rgba_pixel ++ rgba_pixel)
       (region 2 2) F32.one 4 0 4 32)
  = Some (kOfxStatOK,
          [(1, [128; 0; 64; 0; 191; 255; 255; 255;
                128; 0; 64; 0; 191; 255; 255; 255]);
           (0, [128; 0; 64; 0; 191; 255; 255; 255;
                128; 0; 64; 0; 191; 255; 255; 255])]).
Proof. destruct host_little; vm_compute; reflexivity. Qed.
